(** * MonteCarloSimulator: validation, run control and histogram binning

    A shallow embedding of the [MonteCarloSimulator] React component
    (validateInputs, runSimulation, getHistogramData, the handlers of
    the form, the bars of the histogram and the interpretation banding
    of its render function) and of the links of [NavBar].

    JavaScript numbers are IEEE-754 binary64 values.  They are modelled
    bit for bit by [spec_float] at precision 53 and maximal exponent 1024,
    with the arithmetic of the standard library's [SpecFloat]
    (round to nearest, ties to even). *)

From Stdlib Require Import ZArith QArith Qabs Qpower List Bool String Lia.
From Stdlib Require Import SpecFloat.
Import ListNotations.

Local Open Scope Z_scope.

(** ** JavaScript numbers *)

Module JS.

Definition prec : Z := 53.
Definition emax : Z := 1024.

Definition number : Type := spec_float.

Definition NaN : number := S754_nan.
Definition Infinity : number := S754_infinity false.
Definition NegInfinity : number := S754_infinity true.

(** The four arithmetic operators. *)
Definition add (x y : number) : number := SFadd prec emax x y.
Definition sub (x y : number) : number := SFsub prec emax x y.
Definition mul (x y : number) : number := SFmul prec emax x y.
Definition div (x y : number) : number := SFdiv prec emax x y.

(** The relational operators; each is false as soon as an operand is NaN.
    [x > y] is evaluated as [y < x] and [x >= y] as [y <= x]. *)
Definition lt (x y : number) : bool := SFltb x y.
Definition le (x y : number) : bool := SFleb x y.
Definition gt (x y : number) : bool := SFltb y x.
Definition ge (x y : number) : bool := SFleb y x.

(** An integer literal, or an integer converted to a number (exact below
    2^53 in absolute value). *)
Definition of_Z (z : Z) : number := binary_normalize prec emax z 0 false.
Definition of_nat (n : nat) : number := of_Z (Z.of_nat n).

(** Validity of the representation: the mantissa is canonical and the
    exponent in range.  Every value a JavaScript program can hold is
    valid. *)
Definition valid (x : number) : Prop := valid_binary prec emax x = true.

Definition is_finite (x : number) : bool :=
  match x with
  | S754_zero _ | S754_finite _ _ _ => true
  | _ => false
  end.

Definition is_nan (x : number) : bool :=
  match x with
  | S754_nan => true
  | _ => false
  end.

(** [Math.floor]: zeros, infinities and NaN are returned unchanged; a
    finite value with a non-negative exponent is already an integer;
    otherwise the mantissa is shifted right with rounding towards minus
    infinity.  A positive value below one gives +0. *)
Definition Math_floor (x : number) : number :=
  match x with
  | S754_finite s m e =>
      if 0 <=? e then x
      else
        match Z.shiftr (cond_Zopp s (Zpos m)) (- e) with
        | Z0 => S754_zero s
        | n => binary_normalize prec emax n 0 s
        end
  | _ => x
  end.

(** [Math.min(...)]: starts from +Infinity; NaN is absorbing; -0 is
    smaller than +0. *)
Definition min_step (lowest : number) (x : number) : number :=
  if is_nan lowest then NaN
  else if is_nan x then NaN
  else
    match x, lowest with
    | S754_zero true, S754_zero false => x
    | _, _ => if lt x lowest then x else lowest
    end.

Definition Math_min (xs : list number) : number :=
  fold_left min_step xs Infinity.

(** [Math.max(...)]: starts from -Infinity; NaN is absorbing; +0 is
    larger than -0. *)
Definition max_step (highest : number) (x : number) : number :=
  if is_nan highest then NaN
  else if is_nan x then NaN
  else
    match x, highest with
    | S754_zero false, S754_zero true => x
    | _, _ => if gt x highest then x else highest
    end.

Definition Math_max (xs : list number) : number :=
  fold_left max_step xs NegInfinity.

(** The array index denoted by a number used as a property key
    ([a[x]]): the key is the string form of [x], which names an element
    of the array only when [x] is a non-negative integer (both zeros
    give "0").  NaN, infinities, negative and fractional numbers name
    ordinary properties, not elements. *)
Definition array_index (x : number) : option nat :=
  match x with
  | S754_zero _ => Some O
  | S754_finite false m e =>
      if 0 <=? e then
        if (e <=? 32) && (Z.shiftl (Zpos m) e <? 4294967295)
        then Some (Z.to_nat (Z.shiftl (Zpos m) e)) else None
      else if (Z.land (Zpos m) (Z.ones (- e)) =? 0)
              && (Z.shiftr (Zpos m) (- e) <? 4294967295)
           then Some (Z.to_nat (Z.shiftr (Zpos m) (- e)))
           else None
  | _ => None
  end.

(** The comparison of two finite numbers of the same sign is
    lexicographic on exponent and mantissa. *)
Definition lex (e1 : Z) (m1 : positive) (e2 : Z) (m2 : positive) : comparison :=
  match e1 ?= e2 with
  | Lt => Lt
  | Gt => Gt
  | Eq => Pos.compare_cont Eq m1 m2
  end.

End JS.

Declare Scope js_scope.
Delimit Scope js_scope with js.
Bind Scope js_scope with JS.number.
Notation "x + y" := (JS.add x y) : js_scope.
Notation "x - y" := (JS.sub x y) : js_scope.
Notation "x * y" := (JS.mul x y) : js_scope.
Notation "x / y" := (JS.div x y) : js_scope.
Notation "x <? y" := (JS.lt x y) : js_scope.
Notation "x <=? y" := (JS.le x y) : js_scope.
Notation "x >? y" := (JS.gt x y) : js_scope.
Notation "x >=? y" := (JS.ge x y) : js_scope.

Arguments JS.add : simpl never.
Arguments JS.sub : simpl never.
Arguments JS.mul : simpl never.
Arguments JS.div : simpl never.
Arguments JS.lt : simpl never.
Arguments JS.le : simpl never.
Arguments JS.gt : simpl never.
Arguments JS.ge : simpl never.
Arguments JS.of_Z : simpl never.
Arguments JS.of_nat : simpl never.

(** Integer literals of the source. *)
Notation "# z" := (JS.of_Z z) (at level 1, format "# z") : js_scope.

(** ** Values of numbers

    The exact value of a finite number, scaled to an integer: every
    mantissa and exponent that the arithmetic produces has an exponent of
    at least [G = 2 * emin], so [W m e = m * 2^(e - G)] is an integer and
    the order on numbers can be compared with the order on [Z]. *)

Module Rounding.

Import JS.

Definition emin : Z := -1074.
Definition G : Z := -2148.

(** The value from which rounding overflows to an infinity. *)
Definition OVF : Z := 2 ^ (emax - G).

Definition digits (m : Z) : Z := Zdigits2 m.
Definition fexp (k : Z) : Z := SpecFloat.fexp prec emax k.
Definition W (m e : Z) : Z := m * 2 ^ (e - G).

(** The number of low bits that rounding a mantissa [m] at exponent [e]
    drops. *)
Definition shiftOf (m e : Z) : Z := fexp (digits m + e) - e.

(** [m / 2^n] rounded to the nearest integer, ties to even. *)
Definition rne (n m : Z) : Z :=
  if n <=? 0 then m
  else
    let q := m / 2 ^ n in
    let r := m mod 2 ^ n in
    let h := 2 ^ (n - 1) in
    if r <? h then q
    else if (r =? h) && Z.even q then q
    else q + 1.

(** The value [x] (scaled by [2^-G]) rounded to the precision of the
    format. *)
Definition roundValue (x : Z) : Z :=
  let n := shiftOf x G in rne n x * 2 ^ n.

(** [Mag s x w]: [x] is a valid number of sign [s] and magnitude [w]; an
    infinity stands for every magnitude from [OVF] on. *)
Definition Mag (s : bool) (x : number) (w : Z) : Prop :=
  match x with
  | S754_zero _ => w = 0
  | S754_finite s' m e =>
      s' = s /\ bounded prec emax m e = true /\ W (Zpos m) e = w
  | S754_infinity s' => s' = s /\ OVF <= w
  | S754_nan => False
  end.

(** The second half of [binary_round_aux]: normalisation after the
    rounding of the mantissa, and the overflow test. *)
Definition finish (s : bool) (q E : Z) : number :=
  let '(mrs, e) := shr_fexp prec emax q E loc_Exact in
  match shr_m mrs with
  | Z0 => S754_zero s
  | Zpos m => if e <=? emax - prec then S754_finite s m e else S754_infinity s
  | Zneg _ => S754_nan
  end.

Definition finishable (q E : Z) : Prop :=
  0 <= q <= 2 ^ 53 /\ emin <= E /\ (E = emin \/ 2 ^ 52 <= q).

(** The value of a product of two values. *)
Definition mulValue (wx wy : Z) : Z := wx * wy / 2 ^ 2148.

(** The value of the end point of bin [i], from the values of the
    minimum and of the bin size. *)
Definition binEndValue (wmn wb : Z) (i : nat) : Z :=
  roundValue
    (roundValue (wmn + roundValue (mulValue (W (Z.of_nat i) 0) wb)) + wb).

(** The signed value of a zero or a finite number, on the scale of
    [W]. *)
Definition signedValue (x : number) : Z :=
  match x with
  | S754_finite s m e => cond_Zopp s (W (Z.pos m) e)
  | _ => 0
  end.

(** A zero, or a finite number of the format. *)
Definition Fin (x : number) : Prop :=
  match x with
  | S754_zero _ => True
  | S754_finite _ m e => bounded prec emax m e = true
  | _ => False
  end.

(** Rounding of a signed value, and [Rnd x v]: the number [x] is the
    exact signed value [v] rounded (to an infinity from [OVF] on). *)
Definition sround (v : Z) : Z :=
  if 0 <=? v then roundValue v else - roundValue (- v).

Definition Rnd (x : number) (v : Z) : Prop :=
  if 0 <=? v then Mag false x (roundValue v)
  else Mag true x (roundValue (- v)).

End Rounding.

(** ** The component *)

Module MonteCarloSimulator.

Import JS.

Record Task : Type := {
  name : string;
  minDuration : number;
  maxDuration : number
}.

Record SimulationResult : Type := {
  durations : list number;
  successCount : number;
  totalTrials : number;
  probability : number;
  threshold : number
}.

Definition DEFAULT_TASK_A : Task :=
  {| name := "Task A"; minDuration := (#2)%js; maxDuration := (#4)%js |}.

Definition DEFAULT_TASK_B : Task :=
  {| name := "Task B"; minDuration := (#3)%js; maxDuration := (#6)%js |}.

Definition DEFAULT_AVAILABLE_HOURS : number := (#8)%js.
Definition DEFAULT_TRIALS : number := (#1000)%js.

(** The [useState] cells of the component. *)
Record State : Type := {
  taskA : Task;
  taskB : Task;
  availableHours : number;
  trials : number;
  inputError : string;
  result : option SimulationResult;
  isAnimating : bool;
  animationProgress : number
}.

Definition initialState : State :=
  {| taskA := DEFAULT_TASK_A;
     taskB := DEFAULT_TASK_B;
     availableHours := DEFAULT_AVAILABLE_HOURS;
     trials := DEFAULT_TRIALS;
     inputError := "";
     result := None;
     isAnimating := false;
     animationProgress := (#0)%js |}.

Definition setInputError (msg : string) (st : State) : State :=
  {| taskA := taskA st; taskB := taskB st;
     availableHours := availableHours st; trials := trials st;
     inputError := msg;
     result := result st; isAnimating := isAnimating st;
     animationProgress := animationProgress st |}.

Definition setResult (r : option SimulationResult) (st : State) : State :=
  {| taskA := taskA st; taskB := taskB st;
     availableHours := availableHours st; trials := trials st;
     inputError := inputError st;
     result := r; isAnimating := isAnimating st;
     animationProgress := animationProgress st |}.

Definition setIsAnimating (b : bool) (st : State) : State :=
  {| taskA := taskA st; taskB := taskB st;
     availableHours := availableHours st; trials := trials st;
     inputError := inputError st;
     result := result st; isAnimating := b;
     animationProgress := animationProgress st |}.

Definition setAnimationProgress (p : number) (st : State) : State :=
  {| taskA := taskA st; taskB := taskB st;
     availableHours := availableHours st; trials := trials st;
     inputError := inputError st;
     result := result st; isAnimating := isAnimating st;
     animationProgress := p |}.

(** *** validateInputs

    Returns the verdict together with the state in which the error
    message has been set. *)
Definition validateInputs (st : State) : bool * State :=
  if (minDuration (taskA st) <? #0)%js || (maxDuration (taskA st) <? #0)%js then
    (false, setInputError "Task A durations must be positive" st)
  else if (minDuration (taskB st) <? #0)%js || (maxDuration (taskB st) <? #0)%js then
    (false, setInputError "Task B durations must be positive" st)
  else if (minDuration (taskA st) >? maxDuration (taskA st))%js then
    (false, setInputError
       "Task A minimum duration must be less than or equal to maximum" st)
  else if (minDuration (taskB st) >? maxDuration (taskB st))%js then
    (false, setInputError
       "Task B minimum duration must be less than or equal to maximum" st)
  else if (availableHours st <=? #0)%js then
    (false, setInputError "Available hours must be positive" st)
  else if (trials st <? #100)%js || (trials st >? #10000)%js then
    (false, setInputError "Number of trials must be between 100 and 10,000" st)
  else
    (true, setInputError "" st).

(** *** runSimulation and the animation timer

    The world around the component: its state, the intervals registered
    with [setInterval] and not yet cleared, the random source the engine
    draws from, and the trace of the calls made to the engine.  An
    interval's callback is a closure over the inputs of the render in
    which [runSimulation] was called; the record keeps those. *)
Record Interval : Type := {
  intervalId : nat;
  capturedTaskA : Task;
  capturedTaskB : Task;
  capturedAvailableHours : number;
  capturedTrials : number
}.

Record EngineCall : Type := {
  argTaskA : Task;
  argTaskB : Task;
  argThreshold : number;
  argTrials : number
}.

(** The progress shown after [k] firings that found it below 100. *)
Definition progressAfter (k : nat) : number :=
  Nat.iter k (fun prev => (prev + #4)%js) (#0)%js.

Arguments progressAfter : simpl never.

Section Engine.

(** The engine, [runMonteCarloSimulation] of [utils/algorithms], and the
    state of the random source it consumes are parameters. *)
Context {Rng : Type}.
Variable runMonteCarloSimulation :
  Task -> Task -> number -> number -> Rng -> SimulationResult * Rng.

Record World : Type := {
  ui : State;
  intervals : list Interval;
  nextIntervalId : nat;
  rng : Rng;
  engineCalls : list EngineCall
}.

Definition setUi (st : State) (w : World) : World :=
  {| ui := st; intervals := intervals w;
     nextIntervalId := nextIntervalId w;
     rng := rng w; engineCalls := engineCalls w |}.

Definition runSimulation (w : World) : World :=
  let '(ok, st) := validateInputs (ui w) in
  if negb ok then setUi st w
  else
    let st := setAnimationProgress (#0)%js (setIsAnimating true st) in
    let interval :=
      {| intervalId := nextIntervalId w;
         capturedTaskA := taskA (ui w);
         capturedTaskB := taskB (ui w);
         capturedAvailableHours := availableHours (ui w);
         capturedTrials := trials (ui w) |} in
    {| ui := st;
       intervals := interval :: intervals w;
       nextIntervalId := S (nextIntervalId w);
       rng := rng w;
       engineCalls := engineCalls w |}.

Definition clearInterval (id : nat) (ivs : list Interval) : list Interval :=
  filter (fun iv => negb (Nat.eqb (intervalId iv) id)) ivs.

(** One firing of the interval [id] (every 50 ms while it is
    registered): the callback passes its updater to
    [setAnimationProgress], which applies it to the current progress. *)
Definition tick (id : nat) (w : World) : World :=
  match find (fun iv => Nat.eqb (intervalId iv) id) (intervals w) with
  | None => w
  | Some iv =>
      let prev := animationProgress (ui w) in
      if (prev >=? #100)%js then
        let '(simulationResult, rng') :=
          runMonteCarloSimulation (capturedTaskA iv) (capturedTaskB iv)
            (capturedAvailableHours iv) (capturedTrials iv) (rng w) in
        {| ui := setAnimationProgress (#100)%js
                   (setResult (Some simulationResult)
                      (setIsAnimating false (ui w)));
           intervals := clearInterval id (intervals w);
           nextIntervalId := nextIntervalId w;
           rng := rng';
           engineCalls :=
             engineCalls w ++
             [{| argTaskA := capturedTaskA iv;
                 argTaskB := capturedTaskB iv;
                 argThreshold := capturedAvailableHours iv;
                 argTrials := capturedTrials iv |}] |}
      else
        setUi (setAnimationProgress (prev + #4)%js (ui w)) w
  end.

(** [n] consecutive firings of the interval [id]. *)
Definition ticks (id : nat) (n : nat) (w : World) : World :=
  Nat.iter n (tick id) w.

(** Interval ids are handed out in increasing order. *)
Definition freshIds (w : World) : Prop :=
  forall iv, In iv (intervals w) -> (intervalId iv < nextIntervalId w)%nat.

(** The world left by an accepted [runSimulation] after [k] firings that
    all found the progress below 100. *)
Definition running (w : World) (k : nat) : World :=
  {| ui := setAnimationProgress (progressAfter k)
             (setIsAnimating true (setInputError "" (ui w)));
     intervals :=
       {| intervalId := nextIntervalId w;
          capturedTaskA := taskA (ui w);
          capturedTaskB := taskB (ui w);
          capturedAvailableHours := availableHours (ui w);
          capturedTrials := trials (ui w) |} :: intervals w;
     nextIntervalId := S (nextIntervalId w);
     rng := rng w;
     engineCalls := engineCalls w |}.

(** The world after the firing that finds the progress at 100. *)
Definition finished (w : World) : World :=
  let out := runMonteCarloSimulation (taskA (ui w)) (taskB (ui w)) (availableHours (ui w))
               (trials (ui w)) (rng w) in
  {| ui := setAnimationProgress (#100)%js
             (setResult (Some (fst out))
                (setIsAnimating false
                   (setAnimationProgress (progressAfter 25)
                      (setIsAnimating true (setInputError "" (ui w))))));
     intervals := intervals w;
     nextIntervalId := S (nextIntervalId w);
     rng := snd out;
     engineCalls :=
       engineCalls w ++
       [{| argTaskA := taskA (ui w);
           argTaskB := taskB (ui w);
           argThreshold := availableHours (ui w);
           argTrials := trials (ui w) |}] |}.

End Engine.

(** *** getHistogramData *)

Definition numBins : number := (#10)%js.

Record Bin : Type := {
  range : number * number;
  count : nat;
  percentage : number;
  isSuccess : bool
}.

(** The index expression of the [forEach] body. *)
Definition binIndex (minDuration binSize duration : number) : number :=
  Math_min [Math_floor ((duration - minDuration) / binSize);
            numBins - #1]%js.

(** [bins[binIndex]++] on the array of counters.  A key that names no
    element (NaN, for one) creates an ordinary property of the array
    object and leaves the elements alone. *)
Fixpoint incrementAt (k : nat) (bins : list nat) : list nat :=
  match bins, k with
  | [], _ => []
  | c :: rest, O => S c :: rest
  | c :: rest, S k' => c :: incrementAt k' rest
  end.

Definition increment (bins : list nat) (key : number) : list nat :=
  match array_index key with
  | Some k => incrementAt k bins
  | None => bins
  end.

Definition fillBins (minDuration binSize : number) (ds : list number)
  : list nat :=
  fold_left
    (fun bins duration => increment bins (binIndex minDuration binSize duration))
    ds (repeat O 10).

(** [bins.map((count, index) => ...)].  The [range] label is kept as the
    pair of numbers it prints. *)
Definition makeBin (r : SimulationResult) (minDuration binSize : number)
  (index : nat) (count : nat) : Bin :=
  let binStart := (minDuration + of_nat index * binSize)%js in
  let binEnd := (binStart + binSize)%js in
  {| range := (binStart, binEnd);
     count := count;
     percentage := ((of_nat count / totalTrials r) * #100)%js;
     isSuccess := (binEnd <=? threshold r)%js |}.

Fixpoint mapIndexed {A B : Type} (f : nat -> A -> B) (i : nat) (l : list A)
  : list B :=
  match l with
  | [] => []
  | a :: l' => f i a :: mapIndexed f (S i) l'
  end.

Definition getHistogramData (result : option SimulationResult) : list Bin :=
  match result with
  | None => []
  | Some r =>
      let minDuration := Math_min (durations r) in
      let maxDuration := Math_max (durations r) in
      let range := (maxDuration - minDuration)%js in
      let binSize := (range / numBins)%js in
      let bins := fillBins minDuration binSize (durations r) in
      mapIndexed (fun index count => makeBin r minDuration binSize index count)
        O bins
  end.

(** *** The interpretation banding of the render function *)

Inductive Band : Type := High | Moderate | Low.

(** The literals 0.8 and 0.5. *)
Definition lit_0_8 : number := S754_finite false 7205759403792794 (-53).
Definition lit_0_5 : number := S754_finite false 4503599627370496 (-53).

Definition interpretationBand (r : SimulationResult) : Band :=
  if (probability r >=? lit_0_8)%js then High
  else if (probability r >=? lit_0_5)%js then Moderate
  else Low.

End MonteCarloSimulator.

(** ** A reference engine *)

Module ReferenceEngine.

Import JS MonteCarloSimulator.

(** Modelled from the spec: [runMonteCarloSimulation] of
    [utils/algorithms], which the component imports and whose source is
    not part of the component.  Each trial draws the two task durations
    uniformly from their intervals, records their sum, and counts it as a
    success when it is within the threshold; the probability is the
    fraction of successes.  The random source is a linear congruential
    generator whose state is threaded through the draws, so that runs
    are reproducible. *)
Definition Rng : Type := Z.

Definition nextRandom (s : Rng) : number * Rng :=
  let s' := (1103515245 * s + 12345) mod 2147483648 in
  ((#s' / #2147483648)%js, s').

Definition uniform (lo hi : number) (s : Rng) : number * Rng :=
  let '(u, s') := nextRandom s in
  ((lo + u * (hi - lo))%js, s').

Fixpoint runTrials (n : nat) (a b : Task) (threshold : number)
  (acc : list number) (successes : nat) (s : Rng)
  : list number * nat * Rng :=
  match n with
  | O => (rev acc, successes, s)
  | S n' =>
      let '(durationA, s1) := uniform (minDuration a) (maxDuration a) s in
      let '(durationB, s2) := uniform (minDuration b) (maxDuration b) s1 in
      let total := (durationA + durationB)%js in
      runTrials n' a b threshold (total :: acc)
        (if (total <=? threshold)%js then S successes else successes) s2
  end.

Definition trialCount (trials : number) : nat :=
  match array_index trials with
  | Some n => n
  | None => O
  end.

Definition runMonteCarloSimulation (a b : Task) (threshold trials : number)
  (s : Rng) : SimulationResult * Rng :=
  let '(ds, successes, s') :=
    runTrials (trialCount trials) a b threshold [] O s in
  ({| durations := ds;
      successCount := of_nat successes;
      totalTrials := trials;
      probability := (of_nat successes / trials)%js;
      threshold := threshold |}, s').

Definition initialWorld : @World Rng :=
  {| ui := initialState;
     intervals := [];
     nextIntervalId := O;
     rng := 42;
     engineCalls := [] |}.

(** The default inputs with the trial count set to 0, and with task A's
    minimum above its maximum. *)
Definition withTrials (n : number) (w : @World Rng) : @World Rng :=
  let st := ui w in
  setUi {| taskA := taskA st; taskB := taskB st;
           availableHours := availableHours st; trials := n;
           inputError := inputError st; result := result st;
           isAnimating := isAnimating st;
           animationProgress := animationProgress st |} w.

Definition withTaskA (t : Task) (w : @World Rng) : @World Rng :=
  let st := ui w in
  setUi {| taskA := t; taskB := taskB st;
           availableHours := availableHours st; trials := trials st;
           inputError := inputError st; result := result st;
           isAnimating := isAnimating st;
           animationProgress := animationProgress st |} w.

Definition zeroTrialsWorld : @World Rng := withTrials (#0)%js initialWorld.

Definition minAboveMaxWorld : @World Rng :=
  withTaskA {| name := "Task A"; minDuration := (#5)%js;
               maxDuration := (#4)%js |} initialWorld.

End ReferenceEngine.

(** ** The collaborator contracts, in the specification's words *)

Module Contract.

Import JS MonteCarloSimulator.

(** What the validator must reject: a negative duration, a minimum above
    the maximum for either task, a threshold that is not positive, a
    trial count outside [100, 10000]. *)
Definition negativeDuration (t : Task) : Prop :=
  (minDuration t <? #0)%js = true \/ (maxDuration t <? #0)%js = true.

Definition minAboveMax (t : Task) : Prop :=
  (minDuration t >? maxDuration t)%js = true.

Definition trialsOutOfRange (n : number) : Prop :=
  (n <? #100)%js = true \/ (n >? #10000)%js = true.

Definition violatesPrecondition (st : State) : Prop :=
  negativeDuration (taskA st) \/ negativeDuration (taskB st) \/
  minAboveMax (taskA st) \/ minAboveMax (taskB st) \/
  (availableHours st <=? #0)%js = true \/
  trialsOutOfRange (trials st).

(** The same contract read positively, as the data model states it:
    [0 <= minDuration <= maxDuration] for both tasks, a positive
    threshold and a trial count within [100, 10000]. *)
Definition durationsInOrder (t : Task) : Prop :=
  (#0 <=? minDuration t)%js = true /\ (#0 <=? maxDuration t)%js = true /\
  (minDuration t <=? maxDuration t)%js = true.

Definition meetsPrecondition (st : State) : Prop :=
  durationsInOrder (taskA st) /\ durationsInOrder (taskB st) /\
  (#0 <? availableHours st)%js = true /\
  (#100 <=? trials st)%js = true /\ (trials st <=? #10000)%js = true.

(** The six numeric inputs each hold a number.  The change handlers of
    the form store [parseFloat(..) || 0], which is never NaN. *)
Definition inputsAreNumbers (st : State) : Prop :=
  is_nan (minDuration (taskA st)) = false /\
  is_nan (maxDuration (taskA st)) = false /\
  is_nan (minDuration (taskB st)) = false /\
  is_nan (maxDuration (taskB st)) = false /\
  is_nan (availableHours st) = false /\
  is_nan (trials st) = false.

(** The number of samples whose index expression names element [k]. *)
Definition samplesInBin (minDuration binSize : number) (k : nat)
  (ds : list number) : nat :=
  List.length
    (filter
       (fun d =>
          match array_index (binIndex minDuration binSize d) with
          | Some j => Nat.eqb j k
          | None => false
          end) ds).

(** The end points of bin [i]: its start is [minDuration + i * binSize],
    its end is the start plus [binSize]. *)
Definition binStartOf (minDuration binSize : number) (i : nat) : number :=
  (minDuration + of_nat i * binSize)%js.

Definition binEndOf (minDuration binSize : number) (i : nat) : number :=
  (binStartOf minDuration binSize i + binSize)%js.

(** The quotient of the index expression, before [Math.floor] and the
    clamp. *)
Definition binQuotient (minDuration binSize duration : number) : number :=
  ((duration - minDuration) / binSize)%js.


(** The design note on the progress animation, read as a statement about
    [runSimulation]: on accepted inputs the engine is invoked by
    [runSimulation] itself, in one synchronous step, and no firing of the
    animation interval adds or removes an engine call. *)
Definition engineCallDecoupledFromAnimation {Rng : Type}
  (engine : Task -> Task -> number -> number -> Rng -> SimulationResult * Rng)
  : Prop :=
  forall w : World,
    fst (validateInputs (ui w)) = true ->
    (exists call, engineCalls (runSimulation w) = engineCalls w ++ [call]) /\
    (forall n,
       engineCalls (ticks engine (nextIntervalId w) n (runSimulation w)) =
       engineCalls (runSimulation w)).

(** The durations the engine produces: finite and not negative. *)
Definition nonnegFinite (d : number) : Prop :=
  valid d /\ is_finite d = true /\ (d >=? #0)%js = true.

(** A duration that is a finite number of either sign. *)
Definition finiteNumber (d : number) : Prop :=
  valid d /\ is_finite d = true.

(** The smallest range for which the bin size keeps a relative accuracy:
    90 units of 2^-1074. *)
Definition tinyRange : number := S754_finite false 90 (-1074).

(** The exact value of a finite number, [m * 2^e] with its sign, as a
    rational.  An infinity and NaN have no value; they are given 0 here
    and are excluded wherever the value is used. *)
Definition value (x : number) : Q :=
  match x with
  | S754_finite s m e => (inject_Z (cond_Zopp s (Z.pos m)) * 2 ^ e)%Q
  | _ => 0%Q
  end.

(** What the specification says of the index of the maximum, of the sum
    of the percentages and of the order of the flags, as it is written:
    for every non-empty sequence of durations the sample equal to the
    maximum has index 9; whenever the counts sum to totalTrials the
    percentages are numbers that sum to 100 up to rounding, taken here
    as an error of at most 10^-13; a failing bin is followed by failing
    bins only. *)
Definition maximumInLastBin (r : SimulationResult) : Prop :=
  let minD := Math_min (durations r) in
  let maxD := Math_max (durations r) in
  array_index (binIndex minD ((maxD - minD) / numBins)%js maxD) = Some 9%nat.




Definition flagsFormPrefix (r : SimulationResult) : Prop :=
  let flags := map isSuccess (getHistogramData (Some r)) in
  forall i j, (i < j < 10)%nat ->
    nth i flags true = false -> nth j flags true = false.

End Contract.

(** ** Ranges of a few units *)

Module TinyRanges.

Import JS MonteCarloSimulator.

(** A multiple of 2^-1074, the smallest positive number. *)
Definition unit (k : positive) : number := S754_finite false k (-1074).

(** The positive ranges for which rounding keeps the quotient of the
    maximum below 9: eight multiples of 2^-1074. *)
Definition exceptionalMultiples : list positive :=
  [6; 7; 8; 15; 16; 17; 26; 35]%positive.

Definition exceptionalRanges : list number := map unit exceptionalMultiples.

Definition exceptional (k : positive) : bool :=
  existsb (Pos.eqb k) exceptionalMultiples.

(** The check run on every range below 90 units, on the floored
    quotient of the maximum (the range divided by a tenth of itself): an
    exceptional range does not give index 9, any other has a floor of at
    least 9. *)
Definition unitChecked (k : positive) : bool :=
  let floor := Math_floor (unit k / (unit k / numBins))%js in
  if exceptional k
  then match array_index (Math_min [floor; #9]%js) with
       | Some j => negb (Nat.eqb j 9)
       | None => true
       end
  else (floor >=? #9)%js.

End TinyRanges.

(** ** Sample results *)

Module Samples.

Import JS MonteCarloSimulator.

(** A result whose [n + 1] durations are all [d]. *)
Definition identical (d : number) (n : nat) (successes total p thr : number)
  : SimulationResult :=
  {| durations := repeat d (S n);
     successCount := successes;
     totalTrials := total;
     probability := p;
     threshold := thr |}.

(** Three trials of tasks fixed at [2, 2] and [3, 3] against 8 hours. *)
Definition threeFives : SimulationResult :=
  identical (#5)%js 2 (#3)%js (#3)%js (#1)%js (#8)%js.

(** Twelve durations spread over [0, 10], two of them at the maximum,
    against 8 hours. *)
Definition spread : SimulationResult :=
  {| durations :=
       [#0; #1; #2; #3; #4; #5; #6; #7; #8; #9; #10; #10]%js;
     successCount := (#9)%js;
     totalTrials := (#12)%js;
     probability := (#9 / #12)%js;
     threshold := (#8)%js |}.

End Samples.

(** ** The form handlers and the events of a session *)

Module Interaction.

Import JS MonteCarloSimulator.

(** [x || 0] on a number: NaN and the two zeros are falsy and give the
    literal 0; every other number is kept. *)
Definition orZero (x : number) : number :=
  match x with
  | S754_nan | S754_zero _ => (#0)%js
  | _ => x
  end.

Definition setTaskA (t : Task) (st : State) : State :=
  {| taskA := t; taskB := taskB st;
     availableHours := availableHours st; trials := trials st;
     inputError := inputError st;
     result := result st; isAnimating := isAnimating st;
     animationProgress := animationProgress st |}.

Definition setTaskB (t : Task) (st : State) : State :=
  {| taskA := taskA st; taskB := t;
     availableHours := availableHours st; trials := trials st;
     inputError := inputError st;
     result := result st; isAnimating := isAnimating st;
     animationProgress := animationProgress st |}.

Definition setAvailableHours (h : number) (st : State) : State :=
  {| taskA := taskA st; taskB := taskB st;
     availableHours := h; trials := trials st;
     inputError := inputError st;
     result := result st; isAnimating := isAnimating st;
     animationProgress := animationProgress st |}.

Definition setTrials (n : number) (st : State) : State :=
  {| taskA := taskA st; taskB := taskB st;
     availableHours := availableHours st; trials := n;
     inputError := inputError st;
     result := result st; isAnimating := isAnimating st;
     animationProgress := animationProgress st |}.

(** [{...task, minDuration: v}] and [{...task, maxDuration: v}]. *)
Definition withMinDuration (v : number) (t : Task) : Task :=
  {| name := name t; minDuration := v; maxDuration := maxDuration t |}.

Definition withMaxDuration (v : number) (t : Task) : Task :=
  {| name := name t; minDuration := minDuration t; maxDuration := v |}.

(** The five text fields.  The [onChange] handler of each stores
    [parseFloat(e.target.value) || 0]; [onChange] below is given the
    number that [parseFloat] returned. *)
Inductive Field : Type :=
| TaskAMinimum
| TaskAMaximum
| TaskBMinimum
| TaskBMaximum
| AvailableHours.

Definition onChange (field : Field) (parsed : number) (st : State) : State :=
  match field with
  | TaskAMinimum => setTaskA (withMinDuration (orZero parsed) (taskA st)) st
  | TaskAMaximum => setTaskA (withMaxDuration (orZero parsed) (taskA st)) st
  | TaskBMinimum => setTaskB (withMinDuration (orZero parsed) (taskB st)) st
  | TaskBMaximum => setTaskB (withMaxDuration (orZero parsed) (taskB st)) st
  | AvailableHours => setAvailableHours (orZero parsed) st
  end.

(** The [value] attribute of each text field. *)
Definition fieldValue (field : Field) (st : State) : number :=
  match field with
  | TaskAMinimum => minDuration (taskA st)
  | TaskAMaximum => maxDuration (taskA st)
  | TaskBMinimum => minDuration (taskB st)
  | TaskBMaximum => maxDuration (taskB st)
  | AvailableHours => availableHours st
  end.

(** The slider's [onValueChange]: [setTrials(values[0])]. *)
Definition onValueChange (value : number) (st : State) : State :=
  setTrials value st.

(** What can happen to the mounted component: a text field or the slider
    changes, [runSimulation] is called directly (as the mount effect
    does), the button is clicked, or a registered interval fires. *)
Inductive Event : Type :=
| Change (field : Field) (parsed : number)
| Slide (value : number)
| Run
| Click
| Fire (id : nat).

(** The call that the callback of an interval makes when it finds the
    progress at 100. *)
Definition callOf (iv : Interval) : EngineCall :=
  {| argTaskA := capturedTaskA iv;
     argTaskB := capturedTaskB iv;
     argThreshold := capturedAvailableHours iv;
     argTrials := capturedTrials iv |}.

(** The inputs an engine call was given, as a state of the form. *)
Definition callInputs (c : EngineCall) : State :=
  {| taskA := argTaskA c; taskB := argTaskB c;
     availableHours := argThreshold c; trials := argTrials c;
     inputError := ""; result := None; isAnimating := false;
     animationProgress := (#0)%js |}.

(** The effect of the changes among [es] on the form, the number of
    firings of the interval [id] among them, and the event lists that
    hold nothing but such changes and firings. *)
Definition edit (e : Event) (st : State) : State :=
  match e with
  | Change field parsed => onChange field parsed st
  | Slide value => onValueChange value st
  | _ => st
  end.

Definition edits (es : list Event) (st : State) : State :=
  fold_left (fun st e => edit e st) es st.

Definition firesOf (id : nat) (e : Event) : nat :=
  match e with
  | Fire j => if Nat.eqb j id then 1 else 0
  | _ => 0
  end.

Definition fires (id : nat) (es : list Event) : nat :=
  list_sum (map (firesOf id) es).

Definition editsAndFires (id : nat) (es : list Event) : bool :=
  forallb (fun e => match e with
                    | Change _ _ | Slide _ => true
                    | Fire j => Nat.eqb j id
                    | _ => false
                    end) es.

(** The number of events among [es] that call [runSimulation]: the
    direct calls and the clicks. *)
Definition triggers (es : list Event) : nat :=
  list_sum (map (fun e => match e with
                          | Run | Click => 1%nat
                          | _ => 0%nat
                          end) es).

(** The event lists in which [runSimulation] is reached through the
    button only. *)
Definition viaButton (es : list Event) : bool :=
  forallb (fun e => match e with Run => false | _ => true end) es.

(** The four durations and the threshold each hold a number. *)
Definition textInputsAreNumbers (st : State) : Prop :=
  is_nan (minDuration (taskA st)) = false /\
  is_nan (maxDuration (taskA st)) = false /\
  is_nan (minDuration (taskB st)) = false /\
  is_nan (maxDuration (taskB st)) = false /\
  is_nan (availableHours st) = false.

(** An engine call whose inputs validateInputs accepts. *)
Definition accepted (c : EngineCall) : Prop :=
  fst (validateInputs (callInputs c)) = true.

Section Session.

Context {Rng : Type}.
Variable runMonteCarloSimulation :
  Task -> Task -> number -> number -> Rng -> SimulationResult * Rng.

(** The button is rendered with [disabled={isAnimating}]: a click
    reaches [runSimulation] only while no animation is shown. *)
Definition click (w : @World Rng) : @World Rng :=
  if isAnimating (ui w) then w else runSimulation w.

Definition step (e : Event) (w : @World Rng) : @World Rng :=
  match e with
  | Change field parsed => setUi (onChange field parsed (ui w)) w
  | Slide value => setUi (onValueChange value (ui w)) w
  | Run => runSimulation w
  | Click => click w
  | Fire id => tick runMonteCarloSimulation id w
  end.

Definition session (es : list Event) (w : @World Rng) : @World Rng :=
  fold_left (fun w e => step e w) es w.

(** The component after its first render, before its effect has run;
    the effect is [useEffect(() => { runSimulation(); }, [])]. *)
Definition unmounted (g : Rng) : @World Rng :=
  {| ui := initialState;
     intervals := [];
     nextIntervalId := O;
     rng := g;
     engineCalls := [] |}.

Definition mounted (g : Rng) : @World Rng := runSimulation (unmounted g).

(** The changes among [es] applied to the form of a world. *)
Definition editWorld (es : list Event) (w : @World Rng) : @World Rng :=
  setUi (edits es (ui w)) w.

(** Invariants of a session: the registered intervals and the calls made
    hold accepted inputs; the interval ids are distinct and every
    interval registered so far is either still registered or has made
    its call; the progress is one of the values of the animation; at
    most one interval is registered, and one is exactly while
    [isAnimating] is set. *)
Definition acceptedOnly (w : @World Rng) : Prop :=
  Forall (fun iv => accepted (callOf iv)) (intervals w) /\
  Forall accepted (engineCalls w).

Definition accounted (w : @World Rng) : Prop :=
  NoDup (map intervalId (intervals w)) /\
  freshIds w /\
  (List.length (engineCalls w) + List.length (intervals w))%nat
  = nextIntervalId w.

Definition onTheBar (w : @World Rng) : Prop :=
  exists k, (k <= 25)%nat /\ animationProgress (ui w) = progressAfter k.

Definition oneAnimation (w : @World Rng) : Prop :=
  (isAnimating (ui w) = true /\ exists iv, intervals w = [iv]) \/
  (isAnimating (ui w) = false /\ intervals w = []).

End Session.

End Interaction.

(** ** The bars of the histogram *)

Module Rendering.

Import JS MonteCarloSimulator.

(** [result ? getHistogramData() : []]. *)
Definition histogramData (result : option SimulationResult) : list Bin :=
  match result with
  | Some _ => getHistogramData result
  | None => []
  end.

(** [histogramData.length > 0
       ? Math.max(...histogramData.map(bin => bin.count)) : 0]. *)
Definition maxBinCount (histogramData : list Bin) : number :=
  if Nat.ltb 0 (List.length histogramData)
  then Math_max (map (fun bin => of_nat (count bin)) histogramData)
  else (#0)%js.

(** The height of a bar, in percent: [(bin.count / maxBinCount) * 100]. *)
Definition barHeight (maxBinCount : number) (bin : Bin) : number :=
  ((of_nat (count bin) / maxBinCount) * #100)%js.

(** The bar heights of the histogram of a result. *)
Definition barHeights (result : option SimulationResult) : list number :=
  let data := histogramData result in
  map (barHeight (maxBinCount data)) data.

(** A result with another threshold, and the bands in increasing
    order. *)
Definition withThreshold (t : number) (r : SimulationResult)
  : SimulationResult :=
  {| durations := durations r;
     successCount := successCount r;
     totalTrials := totalTrials r;
     probability := probability r;
     threshold := t |}.

Definition bandRank (b : Band) : nat :=
  match b with
  | Low => 0
  | Moderate => 1
  | High => 2
  end.

End Rendering.

(** ** The navigation bar *)

Module NavBar.

(** A [Link] of the bar: its target, its class and the text it shows. *)
Record NavLink : Type := {
  to : string;
  className : string;
  label : string
}.

(** The class of the logo link is fixed; the class of a navigation link
    ends in one of two alternatives, chosen by comparing
    [location.pathname] with the target of the link. *)
Definition logoClass : string :=
  "flex items-center gap-2 text-primary font-bold text-xl mb-4 md:mb-0".

Definition itemClass (active : bool) : string :=
  "flex items-center gap-2 px-4 py-2 rounded-md transition-colors "
  ++ (if active then "bg-primary text-white"
      else "text-gray-700 hover:bg-secondary").

(** The four links of [NavBar], given [location.pathname]: the logo and
    the three navigation links. *)
Definition NavBar (pathname : string) : list NavLink :=
  [ {| to := "/"; className := logoClass; label := "AlgoWizard" |};
    {| to := "/";
       className := itemClass (String.eqb pathname "/");
       label := "Home" |};
    {| to := "/las-vegas";
       className := itemClass (String.eqb pathname "/las-vegas");
       label := "Las Vegas" |};
    {| to := "/monte-carlo";
       className := itemClass (String.eqb pathname "/monte-carlo");
       label := "Monte Carlo" |} ].

(** A link is drawn highlighted when its class is the active one. *)
Definition highlighted (l : NavLink) : bool :=
  String.eqb (className l) (itemClass true).

End NavBar.

(** * Properties *)

(** ** The order on numbers *)

Module NumberFacts.

Import JS.

Lemma compare_antisym (x y : number) :
  SFcompare y x = option_map CompOpp (SFcompare x y).
Proof.
  destruct x as [sx|sx| |sx mx ex], y as [sy|sy| |sy my ey];
    try destruct sx; try destruct sy; simpl; try reflexivity;
    rewrite (Z.compare_antisym ey ex);
    destruct (ey ?= ex); simpl; try reflexivity;
    change (Pos.compare_cont Eq my mx) with (Pos.compare my mx);
    change (Pos.compare_cont Eq mx my) with (Pos.compare mx my);
    rewrite (Pos.compare_antisym mx my);
    now rewrite ?CompOpp_involutive.
Qed.

Lemma lt_not_ge (x y : number) : (x <? y)%js = true -> (x >=? y)%js = false.
Proof.
  unfold lt, ge, SFltb, SFleb. rewrite (compare_antisym x y).
  destruct (SFcompare x y) as [[ | | ]|]; simpl; congruence.
Qed.

Lemma ge_not_lt (x y : number) : (x >=? y)%js = true -> (x <? y)%js = false.
Proof.
  intros H. destruct (x <? y)%js eqn:E; [|reflexivity].
  apply lt_not_ge in E. congruence.
Qed.

Lemma lt_le (x y : number) : (x <? y)%js = true -> (x <=? y)%js = true.
Proof.
  unfold lt, le, SFltb, SFleb.
  destruct (SFcompare x y) as [[ | | ]|]; congruence.
Qed.

Lemma lex_spec e1 m1 e2 m2 :
  match lex e1 m1 e2 m2 with
  | Lt => e1 < e2 \/ (e1 = e2 /\ (m1 < m2)%positive)
  | Eq => e1 = e2 /\ m1 = m2
  | Gt => e2 < e1 \/ (e1 = e2 /\ (m2 < m1)%positive)
  end.
Proof.
  unfold lex. destruct (Z.compare_spec e1 e2); [|lia|lia].
  change (Pos.compare_cont Eq m1 m2) with (Pos.compare m1 m2).
  destruct (Pos.compare_spec m1 m2); subst; lia.
Qed.

Lemma compare_finite s1 m1 e1 s2 m2 e2 :
  SFcompare (S754_finite s1 m1 e1) (S754_finite s2 m2 e2) =
  Some match s1, s2 with
       | true, false => Lt
       | false, true => Gt
       | false, false => lex e1 m1 e2 m2
       | true, true => CompOpp (lex e1 m1 e2 m2)
       end.
Proof.
  unfold lex. destruct s1, s2; simpl; try reflexivity.
  destruct (e1 ?= e2); reflexivity.
Qed.

Ltac order_cases x y z :=
  destruct x as [?|?| |? ?m ?e], y as [?|?| |? ?m ?e], z as [?|?| |? ?m ?e];
  rewrite ?compare_finite;
  repeat match goal with s : bool |- _ => destruct s end;
  simpl; try congruence;
  repeat match goal with
    | |- context [lex ?e1 ?m1 ?e2 ?m2] =>
        let H := fresh "H" in
        pose proof (lex_spec e1 m1 e2 m2) as H;
        destruct (lex e1 m1 e2 m2)
    end;
  simpl; try congruence; exfalso; lia.

Lemma le_trans (x y z : number) :
  (x <=? y)%js = true -> (y <=? z)%js = true -> (x <=? z)%js = true.
Proof. unfold le, SFleb. order_cases x y z. Qed.

Lemma lt_le_trans (x y z : number) :
  (x <? y)%js = true -> (y <=? z)%js = true -> (x <? z)%js = true.
Proof. unfold lt, le, SFltb, SFleb. order_cases x y z. Qed.

Lemma le_lt_trans (x y z : number) :
  (x <=? y)%js = true -> (y <? z)%js = true -> (x <? z)%js = true.
Proof. unfold lt, le, SFltb, SFleb. order_cases x y z. Qed.

End NumberFacts.

(** ** Rounding *)

Module RoundingFacts.

Import JS Rounding MonteCarloSimulator Contract.

(** *** Binary digits *)

Lemma fexp_eq k : fexp k = Z.max (k - 53) (-1074).
Proof. reflexivity. Qed.

Lemma digits2_size p : digits2_pos p = Pos.size p.
Proof. induction p; simpl; congruence. Qed.

Lemma digits_log2 m : 0 < m -> digits m = Z.log2 m + 1.
Proof.
  destruct m as [|p|p]; try lia. intros _. unfold digits, Zdigits2.
  rewrite digits2_size. destruct p; simpl; lia.
Qed.

Lemma digits_0 : digits 0 = 0.
Proof. reflexivity. Qed.

Lemma digits_nonneg m : 0 <= m -> 0 <= digits m.
Proof. destruct m; simpl; lia. Qed.

Lemma digits_pos m : 0 < m -> 0 < digits m.
Proof. destruct m; simpl; lia. Qed.

Lemma digits_spec m : 0 < m -> 2 ^ (digits m - 1) <= m < 2 ^ digits m.
Proof.
  intros H. rewrite digits_log2 by assumption.
  replace (Z.log2 m + 1 - 1) with (Z.log2 m) by lia.
  replace (Z.log2 m + 1) with (Z.succ (Z.log2 m)) by lia.
  apply Z.log2_spec. assumption.
Qed.

Lemma digits_unique m d : 2 ^ (d - 1) <= m < 2 ^ d -> 0 < d -> digits m = d.
Proof.
  intros H Hd. assert (0 < m) by (pose proof (Z.pow_pos_nonneg 2 (d - 1)); lia).
  rewrite digits_log2 by assumption.
  rewrite (Z.log2_unique m (d - 1)); try lia.
  replace (Z.succ (d - 1)) with d by lia. assumption.
Qed.

Lemma digits_mono m n : 0 <= m <= n -> digits m <= digits n.
Proof.
  intros [H0 H]. destruct (Z.eq_dec m 0) as [->|Hm].
  - rewrite digits_0. apply digits_nonneg. lia.
  - rewrite !digits_log2 by lia. pose proof (Z.log2_le_mono m n H). lia.
Qed.

Lemma digits_shl m k : 0 < m -> 0 <= k -> digits (m * 2 ^ k) = digits m + k.
Proof.
  intros Hm Hk.
  assert (0 < m * 2 ^ k) by (pose proof (Z.pow_pos_nonneg 2 k); nia).
  rewrite !digits_log2 by lia.
  rewrite Z.log2_mul_pow2 by lia. lia.
Qed.

Lemma digits_lt_pow m d : 0 <= m -> 0 <= d -> m < 2 ^ d -> digits m <= d.
Proof.
  intros Hm Hd H. destruct (Z.eq_dec m 0) as [->|Hm0]; [rewrite digits_0; lia|].
  destruct (Z_le_gt_dec (digits m) d) as [|Hgt]; [assumption|].
  pose proof (digits_spec m ltac:(lia)) as [H1 _].
  assert (2 ^ d <= 2 ^ (digits m - 1)) by (apply Z.pow_le_mono_r; lia). lia.
Qed.

Lemma digits_ge_pow m d : 0 <= d -> 2 ^ d <= m -> d + 1 <= digits m.
Proof.
  intros Hd H. assert (0 < m) by (pose proof (Z.pow_pos_nonneg 2 d); lia).
  destruct (Z_le_gt_dec (d + 1) (digits m)) as [|Hgt]; [assumption|].
  pose proof (digits_spec m ltac:(lia)) as [_ H1].
  assert (2 ^ digits m <= 2 ^ d) by (apply Z.pow_le_mono_r; lia). lia.
Qed.

(** *** Shifting right *)

Lemma iter_pos_nat {A} (f : A -> A) p x :
  iter_pos f p x = Nat.iter (Pos.to_nat p) f x.
Proof.
  revert x. induction p as [p IH|p IH|]; intros x; cbn [iter_pos].
  - rewrite !IH. rewrite Pos2Nat.inj_xI.
    replace (S (2 * Pos.to_nat p))%nat with (Pos.to_nat p + (Pos.to_nat p + 1))%nat by lia.
    rewrite !Nat.iter_add. reflexivity.
  - rewrite !IH. rewrite Pos2Nat.inj_xO.
    replace (2 * Pos.to_nat p)%nat with (Pos.to_nat p + Pos.to_nat p)%nat by lia.
    rewrite Nat.iter_add. reflexivity.
  - reflexivity.
Qed.

Lemma shr_1_m mrs : 0 <= shr_m mrs -> shr_m (shr_1 mrs) = shr_m mrs / 2.
Proof.
  destruct mrs as [m r s]. simpl. intros Hm.
  destruct m as [|[p|p|]|p]; try lia; simpl.
  - reflexivity.
  - rewrite Pos2Z.inj_xI. apply Z.div_unique with 1; lia.
  - rewrite Pos2Z.inj_xO. apply Z.div_unique with 0; lia.
  - reflexivity.
Qed.

Lemma shr_1_r mrs : 0 <= shr_m mrs -> shr_r (shr_1 mrs) = Z.odd (shr_m mrs).
Proof.
  destruct mrs as [m r s]. simpl. intros Hm.
  destruct m as [|[p|p|]|p]; try lia; reflexivity.
Qed.

Lemma shr_1_s mrs : shr_s (shr_1 mrs) = shr_r mrs || shr_s mrs.
Proof.
  destruct mrs as [m r s]. simpl.
  destruct m as [|[p|p|]|[p|p|]]; reflexivity.
Qed.

Lemma shr_iter_m (n : nat) mrs :
  0 <= shr_m mrs ->
  shr_m (Nat.iter n shr_1 mrs) = shr_m mrs / 2 ^ Z.of_nat n.
Proof.
  intros Hm. induction n as [|n IH].
  - simpl. now rewrite Z.div_1_r.
  - rewrite Nat.iter_succ, shr_1_m, IH.
    + rewrite Nat2Z.inj_succ, Z.pow_succ_r by lia.
      rewrite Z.div_div by lia. f_equal. lia.
    + rewrite IH. apply Z.div_pos; lia.
Qed.

Lemma mod_pow2_succ m k :
  0 <= m -> 0 <= k ->
  m mod 2 ^ (k + 1) = m mod 2 ^ k + 2 ^ k * (if Z.odd (m / 2 ^ k) then 1 else 0).
Proof.
  intros Hm Hk. rewrite Z.pow_add_r, Z.pow_1_r by lia.
  rewrite Z.rem_mul_r by lia. f_equal. f_equal.
  rewrite Zmod_odd. reflexivity.
Qed.

Lemma shr_iter_rs (n : nat) mrs :
  0 <= shr_m mrs ->
  shr_r (Nat.iter (S n) shr_1 mrs) = Z.odd (shr_m mrs / 2 ^ Z.of_nat n) /\
  shr_s (Nat.iter (S n) shr_1 mrs) =
    shr_r mrs || shr_s mrs || negb (shr_m mrs mod 2 ^ Z.of_nat n =? 0).
Proof.
  intros Hm. induction n as [|n [IHr IHs]].
  - simpl Nat.iter. rewrite shr_1_r, shr_1_s by assumption.
    simpl. rewrite Z.div_1_r, Z.mod_1_r. simpl. now rewrite orb_false_r.
  - rewrite Nat.iter_succ.
    assert (Hpos : 0 <= shr_m (Nat.iter (S n) shr_1 mrs)).
    { rewrite shr_iter_m by assumption. apply Z.div_pos; lia. }
    rewrite shr_1_r, shr_1_s by assumption.
    rewrite shr_iter_m by assumption. split; [reflexivity|].
    rewrite IHr, IHs.
    rewrite Nat2Z.inj_succ. replace (Z.succ (Z.of_nat n)) with (Z.of_nat n + 1) by lia.
    rewrite (mod_pow2_succ (shr_m mrs) (Z.of_nat n)) by lia.
    pose proof (Z.mod_pos_bound (shr_m mrs) (2 ^ Z.of_nat n) ltac:(lia)) as Hb.
    pose proof (Z.pow_pos_nonneg 2 (Z.of_nat n) ltac:(lia) ltac:(lia)) as Hp.
    destruct (Z.odd (shr_m mrs / 2 ^ Z.of_nat n)) eqn:Eo;
      destruct (shr_r mrs), (shr_s mrs); simpl;
      try reflexivity.
    all: destruct (Z.eqb_spec (shr_m mrs mod 2 ^ Z.of_nat n) 0) as [E0|E0];
      simpl; try (symmetry; apply negb_true_iff, Z.eqb_neq; lia);
      try (symmetry; apply negb_false_iff, Z.eqb_eq; lia).
Qed.

(** *** Rounding to nearest, ties to even *)

Lemma shr_spec mrs e n :
  0 <= shr_m mrs ->
  shr_m (fst (shr mrs e n)) = shr_m mrs / 2 ^ Z.max 0 n /\
  snd (shr mrs e n) = e + Z.max 0 n.
Proof.
  intros Hm. destruct n as [|p|p]; simpl.
  - rewrite Z.div_1_r. lia.
  - rewrite iter_pos_nat, shr_iter_m by assumption.
    rewrite positive_nat_Z. split; reflexivity.
  - rewrite Z.div_1_r. lia.
Qed.

Lemma round_nearest_even_bounds mrs :
  let q := round_nearest_even (shr_m mrs) (loc_of_shr_record mrs) in
  q = shr_m mrs \/ q = shr_m mrs + 1.
Proof.
  destruct mrs as [m [|] [|]]; simpl; auto.
  destruct (Z.even m); auto.
Qed.

Lemma shr_round_exact m e n :
  0 <= m ->
  let mrs := fst (shr (shr_record_of_loc m loc_Exact) e n) in
  round_nearest_even (shr_m mrs) (loc_of_shr_record mrs) = rne n m.
Proof.
  intros Hm. unfold rne. destruct n as [|p|p]; try reflexivity.
  cbv zeta. cbn [shr fst shr_record_of_loc].
  rewrite iter_pos_nat.
  destruct (Pos2Nat.is_succ p) as [k Hk]. rewrite Hk.
  assert (Hp : Z.pos p = Z.of_nat k + 1) by lia.
  set (mrs0 := {| shr_m := m; shr_r := false; shr_s := false |}).
  assert (H0 : 0 <= shr_m mrs0) by exact Hm.
  pose proof (shr_iter_m (S k) mrs0 H0) as Em.
  destruct (shr_iter_rs k mrs0 H0) as [Er Es].
  destruct (Nat.iter (S k) shr_1 mrs0) as [q r s].
  cbn [shr_m shr_r shr_s mrs0 orb] in Em, Er, Es.
  subst q r s. cbn [shr_m loc_of_shr_record].
  replace (Z.pos p <=? 0) with false by (symmetry; apply Z.leb_gt; lia).
  rewrite Hp. replace (Z.of_nat k + 1 - 1) with (Z.of_nat k) by lia.
  replace (Z.of_nat (S k)) with (Z.of_nat k + 1) by lia.
  unfold mrs0. cbn [shr_m].
  rewrite (mod_pow2_succ m (Z.of_nat k)) by lia.
  pose proof (Z.mod_pos_bound m (2 ^ Z.of_nat k) ltac:(lia)) as Hb.
  set (lo := m mod 2 ^ Z.of_nat k) in *.
  set (h := 2 ^ Z.of_nat k) in *.
  set (q := m / 2 ^ (Z.of_nat k + 1)).
  destruct (Z.odd (m / h)) eqn:Eo.
  - replace (lo + h * 1 <? h) with false by (symmetry; apply Z.ltb_ge; lia).
    destruct (Z.eqb_spec lo 0) as [E0|E0]; simpl.
    + replace (lo + h * 1 =? h) with true by (symmetry; apply Z.eqb_eq; lia).
      simpl. reflexivity.
    + replace (lo + h * 1 =? h) with false by (symmetry; apply Z.eqb_neq; lia).
      reflexivity.
  - replace (lo + h * 0 <? h) with true by (symmetry; apply Z.ltb_lt; lia).
    destruct (Z.eqb_spec lo 0) as [E0|E0]; reflexivity.
Qed.

Lemma rne_nonpos n m : n <= 0 -> rne n m = m.
Proof. intros H. unfold rne. now apply Z.leb_le in H as ->. Qed.

Lemma rne_bounds n m :
  0 <= n -> m / 2 ^ n <= rne n m <= m / 2 ^ n + 1.
Proof.
  intros Hn. unfold rne. destruct (Z.leb_spec n 0).
  - assert (n = 0) as -> by lia. rewrite Z.div_1_r. lia.
  - cbv zeta. destruct (_ <? _); [lia|]. destruct (_ && _); lia.
Qed.

Lemma rne_exact n a : 0 <= n -> rne n (a * 2 ^ n) = a.
Proof.
  intros Hn. unfold rne. destruct (Z.leb_spec n 0).
  - assert (n = 0) as -> by lia. simpl. lia.
  - cbv zeta. assert (0 < 2 ^ n) by (apply Z.pow_pos_nonneg; lia).
    assert (0 < 2 ^ (n - 1)) by (apply Z.pow_pos_nonneg; lia).
    rewrite Z.mod_mul, Z.div_mul by lia.
    replace (0 <? 2 ^ (n - 1)) with true by (symmetry; apply Z.ltb_lt; lia).
    reflexivity.
Qed.

Lemma rne_mono n m1 m2 : 0 <= m1 <= m2 -> rne n m1 <= rne n m2.
Proof.
  intros [H1 H12]. unfold rne. destruct (Z.leb_spec n 0); [lia|]. cbv zeta.
  assert (HP : 0 < 2 ^ n) by (apply Z.pow_pos_nonneg; lia).
  pose proof (Z.div_mod m1 (2 ^ n) ltac:(lia)) as E1.
  pose proof (Z.div_mod m2 (2 ^ n) ltac:(lia)) as E2.
  pose proof (Z.mod_pos_bound m1 (2 ^ n) HP) as B1.
  pose proof (Z.mod_pos_bound m2 (2 ^ n) HP) as B2.
  pose proof (Z.div_le_mono m1 m2 (2 ^ n) HP H12) as Hq.
  set (q1 := m1 / 2 ^ n) in *. set (q2 := m2 / 2 ^ n) in *.
  set (r1 := m1 mod 2 ^ n) in *. set (r2 := m2 mod 2 ^ n) in *.
  set (h := 2 ^ (n - 1)). set (P := 2 ^ n) in *.
  clearbody q1 q2 r1 r2 P h.
  assert (Hr : q1 = q2 -> r1 <= r2) by (intros Eq; subst q2; lia).
  destruct (Z.ltb_spec r1 h), (Z.ltb_spec r2 h); try lia;
    destruct (Z.eqb_spec r1 h), (Z.eqb_spec r2 h); simpl;
    try destruct (Z.even q1) eqn:Ee1; try destruct (Z.even q2) eqn:Ee2;
    try lia.
  all: destruct (Z.eq_dec q1 q2) as [Eq|Ne]; [subst q2; congruence|lia].
Qed.

Lemma rne_scale n k m :
  0 <= n -> 0 <= k -> rne (n + k) (m * 2 ^ k) = rne n m.
Proof.
  intros Hn Hk.
  assert (HK : 0 < 2 ^ k) by (apply Z.pow_pos_nonneg; lia).
  destruct (Z.eq_dec n 0) as [->|Hn0].
  - simpl. rewrite rne_exact by lia. now rewrite rne_nonpos by lia.
  - unfold rne.
    replace (n + k <=? 0) with false by (symmetry; apply Z.leb_gt; lia).
    replace (n <=? 0) with false by (symmetry; apply Z.leb_gt; lia).
    cbv zeta.
    assert (HN : 0 < 2 ^ n) by (apply Z.pow_pos_nonneg; lia).
    assert (HH : 0 < 2 ^ (n - 1)) by (apply Z.pow_pos_nonneg; lia).
    replace (2 ^ (n + k)) with (2 ^ n * 2 ^ k) by (rewrite Z.pow_add_r; lia).
    replace (2 ^ (n + k - 1)) with (2 ^ (n - 1) * 2 ^ k)
      by (rewrite <- Z.pow_add_r by lia; f_equal; lia).
    rewrite Z.div_mul_cancel_r by lia.
    rewrite Zmult_mod_distr_r.
    set (r := m mod 2 ^ n). set (h := 2 ^ (n - 1)). set (K := 2 ^ k) in *.
    replace (r * K <? h * K) with (r <? h).
    2:{ destruct (Z.ltb_spec r h), (Z.ltb_spec (r * K) (h * K)); try reflexivity; nia. }
    replace (r * K =? h * K) with (r =? h).
    2:{ destruct (Z.eqb_spec r h), (Z.eqb_spec (r * K) (h * K)); try reflexivity; nia. }
    reflexivity.
Qed.

(** *** The last stage of rounding *)

Lemma binary_round_aux_finish s m e l :
  binary_round_aux prec emax s m e l =
  let '(mrs, e') := shr_fexp prec emax m e l in
  finish s (round_nearest_even (shr_m mrs) (loc_of_shr_record mrs)) e'.
Proof. reflexivity. Qed.

Lemma shr_fexp_spec m e l :
  0 <= m ->
  shr_m (fst (shr_fexp prec emax m e l)) = m / 2 ^ Z.max 0 (shiftOf m e) /\
  snd (shr_fexp prec emax m e l) = e + Z.max 0 (shiftOf m e).
Proof.
  intros Hm. unfold shr_fexp.
  change (SpecFloat.fexp prec emax (Zdigits2 m + e) - e) with (shiftOf m e).
  pose proof (shr_spec (shr_record_of_loc m l) e (shiftOf m e)) as H.
  assert (Em : shr_m (shr_record_of_loc m l) = m)
    by (destruct l as [|[ | | ]]; reflexivity).
  rewrite Em in H. apply H. assumption.
Qed.

Lemma pow2_pos k : 0 <= k -> 0 < 2 ^ k.
Proof. intros. apply Z.pow_pos_nonneg; lia. Qed.

Lemma OVF_eq : OVF = 2 ^ 3172.
Proof. reflexivity. Qed.

Lemma W_pow b e : 0 <= b -> G <= e -> W (2 ^ b) e = 2 ^ (b + e - G).
Proof.
  intros. unfold W. rewrite <- Z.pow_add_r by lia. f_equal. lia.
Qed.

Lemma W_mono a b e : G <= e -> a <= b -> W a e <= W b e.
Proof.
  intros He H. unfold W. pose proof (pow2_pos (e - G)). nia.
Qed.

Lemma W_mono_e a e1 e2 : 0 <= a -> G <= e1 <= e2 -> W a e1 <= W a e2.
Proof.
  intros Ha He. unfold W.
  assert (2 ^ (e1 - G) <= 2 ^ (e2 - G)) by (apply Z.pow_le_mono_r; lia).
  nia.
Qed.

Lemma finish_spec s q E : finishable q E -> Mag s (finish s q E) (W q E).
Proof.
  intros (Hq & HE & Hn). unfold finish, emin in *.
  destruct (shr_fexp_spec q E loc_Exact (proj1 Hq)) as [Em Ee].
  destruct (shr_fexp prec emax q E loc_Exact) as [mrs e'].
  cbn [fst snd] in Em, Ee. rewrite Em, Ee. clear Em Ee mrs e'.
  unfold shiftOf. rewrite fexp_eq.
  destruct (Z.eq_dec q 0) as [->|Hq0].
  - rewrite Z.div_0_l by (pose proof (pow2_pos (Z.max 0 (Z.max (digits 0 + E - 53) (-1074) - E))); lia).
    simpl. unfold W. lia.
  - destruct (Z.eq_dec q (2 ^ 53)) as [->|Hq53].
    + assert (Ed : digits (2 ^ 53) = 54) by reflexivity.
      rewrite Ed.
      replace (Z.max 0 (Z.max (54 + E - 53) (-1074) - E)) with 1 by lia.
      change (2 ^ 53 / 2 ^ 1) with (Z.pos (2 ^ 52)).
      change (emax - prec) with 971.
      destruct (Z.leb_spec (E + 1) 971) as [Hle|Hgt]; cbn [Mag].
      * split; [reflexivity|]. split.
        -- unfold bounded, canonical_mantissa.
           apply andb_true_intro. split; [|apply Z.leb_le; exact Hle].
           apply Z.eqb_eq.
           change (SpecFloat.fexp prec emax) with fexp. rewrite fexp_eq.
           change (Z.pos (digits2_pos (2 ^ 52))) with 53. lia.
        -- change (Z.pos (2 ^ 52)) with (2 ^ 52).
           rewrite (W_pow 52), (W_pow 53) by (unfold G; lia). f_equal. lia.
      * split; [reflexivity|].
        rewrite (W_pow 53) by (unfold G; lia). rewrite OVF_eq.
        apply Z.pow_le_mono_r; unfold G; lia.
    + assert (Hd : digits q <= 53) by (apply digits_lt_pow; lia).
      assert (Hd' : E = -1074 \/ digits q = 53).
      { destruct Hn as [Hn|Hn]; [now left|right].
        pose proof (digits_ge_pow q 52 ltac:(lia) Hn). lia. }
      replace (Z.max 0 (Z.max (digits q + E - 53) (-1074) - E)) with 0 by lia.
      rewrite Z.pow_0_r, Z.div_1_r, Z.add_0_r.
      destruct q as [|p|p]; try lia. cbv beta iota.
      change (emax - prec) with 971.
      destruct (Z.leb_spec E 971) as [Hle|Hgt]; cbn [Mag].
      * split; [reflexivity|]. split; [|reflexivity].
        unfold bounded, canonical_mantissa.
        apply andb_true_intro. split; [|apply Z.leb_le; exact Hle].
        apply Z.eqb_eq.
        change (SpecFloat.fexp prec emax) with fexp. rewrite fexp_eq.
        change (Z.pos (digits2_pos p)) with (digits (Z.pos p)). lia.
      * split; [reflexivity|].
        destruct Hn as [Hn|Hn]; [lia|].
        apply Z.le_trans with (W (2 ^ 52) 972).
        -- rewrite W_pow by (unfold G; lia). rewrite OVF_eq.
           apply Z.pow_le_mono_r; unfold G; lia.
        -- apply Z.le_trans with (W (2 ^ 52) E).
           ++ apply W_mono_e; unfold G; lia.
           ++ apply W_mono; unfold G; lia.
Qed.

(** *** binary_round_aux and binary_round *)

Lemma finishable_after_shift m e q :
  0 <= m -> 0 <= shiftOf m e ->
  q = m / 2 ^ shiftOf m e \/ q = m / 2 ^ shiftOf m e + 1 ->
  finishable q (e + shiftOf m e).
Proof.
  intros Hm Hn Hq. unfold finishable, emin.
  unfold shiftOf in *. rewrite fexp_eq in *.
  set (d := digits m) in *.
  set (n := Z.max (d + e - 53) (-1074) - e) in *.
  assert (HP : 0 < 2 ^ n) by (apply pow2_pos; lia).
  destruct (Z.eq_dec m 0) as [->|Hm0].
  - change (digits 0) with 0 in d. rewrite Z.div_0_l in Hq by lia.
    subst d. lia.
  - pose proof (digits_spec m ltac:(lia)) as [Hlo Hhi]. fold d in Hlo, Hhi.
    assert (Hd : 0 < d) by (apply digits_pos; lia).
    destruct (Z_le_gt_dec (-1074) (d + e - 53)) as [Hnorm|Hsub].
    + assert (En : n = d - 53) by lia.
      assert (H52 : 2 ^ 52 <= m / 2 ^ n).
      { apply Z.div_le_lower_bound; [lia|].
        rewrite <- Z.pow_add_r by lia. replace (n + 52) with (d - 1) by lia.
        exact Hlo. }
      assert (H53 : m / 2 ^ n < 2 ^ 53).
      { apply Z.div_lt_upper_bound; [lia|].
        rewrite <- Z.pow_add_r by lia. replace (n + 53) with d by lia.
        exact Hhi. }
      lia.
    + assert (En : n = -1074 - e) by lia.
      assert (H52 : m / 2 ^ n < 2 ^ 52).
      { apply Z.div_lt_upper_bound; [lia|].
        rewrite <- Z.pow_add_r by lia.
        apply Z.lt_le_trans with (2 ^ d); [exact Hhi|].
        apply Z.pow_le_mono_r; lia. }
      assert (0 <= m / 2 ^ n) by (apply Z.div_pos; lia).
      lia.
Qed.

Lemma round_aux_general s m e l :
  0 <= m -> 0 <= shiftOf m e ->
  exists q,
    (q = m / 2 ^ shiftOf m e \/ q = m / 2 ^ shiftOf m e + 1) /\
    (l = loc_Exact -> q = rne (shiftOf m e) m) /\
    finishable q (e + shiftOf m e) /\
    Mag s (binary_round_aux prec emax s m e l) (W q (e + shiftOf m e)).
Proof.
  intros Hm Hn. rewrite binary_round_aux_finish.
  destruct (shr_fexp_spec m e l Hm) as [Em Ee].
  pose proof (shr_round_exact m e (shiftOf m e) Hm) as Hex.
  cbv zeta in Hex.
  change (shr (shr_record_of_loc m loc_Exact) e (shiftOf m e))
    with (shr_fexp prec emax m e loc_Exact) in Hex.
  destruct (shr_fexp prec emax m e l) as [mrs e'] eqn:Es.
  cbn [fst snd] in Em, Ee.
  rewrite Z.max_r in Em, Ee by assumption.
  pose proof (round_nearest_even_bounds mrs) as Hb. cbv zeta in Hb.
  exists (round_nearest_even (shr_m mrs) (loc_of_shr_record mrs)).
  split; [rewrite <- Em; exact Hb|]. split.
  - intros ->. rewrite Es in Hex. exact Hex.
  - assert (Hf : finishable
             (round_nearest_even (shr_m mrs) (loc_of_shr_record mrs))
             (e + shiftOf m e)).
    { apply finishable_after_shift; [assumption|assumption|].
      rewrite <- Em. exact Hb. }
    split; [exact Hf|]. subst e'. now apply finish_spec.
Qed.

Lemma roundValue_0 : roundValue 0 = 0.
Proof. reflexivity. Qed.

Lemma roundValue_native m e :
  0 < m -> G <= e -> 0 <= shiftOf m e ->
  roundValue (W m e) = W (rne (shiftOf m e) m) (e + shiftOf m e).
Proof.
  intros Hm He Hn. unfold roundValue, W.
  assert (Hs : shiftOf (m * 2 ^ (e - G)) G = shiftOf m e + (e - G)).
  { unfold shiftOf. rewrite digits_shl by lia.
    replace (digits m + (e - G) + G) with (digits m + e) by lia. lia. }
  rewrite Hs. rewrite rne_scale by lia.
  f_equal. f_equal. lia.
Qed.

Lemma round_aux_exact s m e :
  0 <= m -> G <= e -> 0 <= shiftOf m e ->
  Mag s (binary_round_aux prec emax s m e loc_Exact) (roundValue (W m e)).
Proof.
  intros Hm He Hn.
  destruct (round_aux_general s m e loc_Exact Hm Hn) as (q & _ & Hq & _ & HM).
  rewrite (Hq eq_refl) in HM.
  destruct (Z.eq_dec m 0) as [->|Hm0].
  - replace (W 0 e) with 0 by (unfold W; lia). rewrite roundValue_0.
    replace (rne (shiftOf 0 e) 0) with 0 in HM.
    + replace (W 0 (e + shiftOf 0 e)) with 0 in HM by (unfold W; lia).
      exact HM.
    + symmetry. apply (rne_exact (shiftOf 0 e) 0 Hn).
  - rewrite roundValue_native by lia. exact HM.
Qed.

Lemma iter_xO_pow (k : nat) (m : positive) :
  Z.pos (Nat.iter k xO m) = Z.pos m * 2 ^ Z.of_nat k.
Proof.
  induction k as [|k IH].
  - simpl. lia.
  - change (Nat.iter (S k) xO m) with (xO (Nat.iter k xO m)).
    rewrite Pos2Z.inj_xO, IH, Nat2Z.inj_succ, Z.pow_succ_r by lia.
    lia.
Qed.

Lemma shift_pos_pow (m d : positive) :
  Z.pos (Pos.iter xO m d) = Z.pos m * 2 ^ Z.pos d.
Proof.
  rewrite Pos2Nat.inj_iter, <- (positive_nat_Z d).
  apply (iter_xO_pow (Pos.to_nat d) m).
Qed.

Lemma shl_align_spec (m : positive) e e' :
  let '(m', e'') := shl_align m e e' in
  e'' = Z.min e e' /\ Z.pos m' = Z.pos m * 2 ^ (e - e'').
Proof.
  unfold shl_align. destruct (e' - e) as [|d|d] eqn:E.
  - split; [lia|]. replace (e - e) with 0 by lia. lia.
  - split; [lia|]. replace (e - e) with 0 by lia. lia.
  - split; [lia|]. rewrite shift_pos_pow. f_equal. f_equal. lia.
Qed.

Lemma binary_round_spec s (m : positive) e :
  G <= e ->
  Mag s (binary_round prec emax s m e) (roundValue (W (Z.pos m) e)).
Proof.
  intros He. unfold binary_round.
  change (SpecFloat.fexp prec emax (Z.pos (digits2_pos m) + e))
    with (fexp (digits (Z.pos m) + e)).
  pose proof (shl_align_spec m e (fexp (digits (Z.pos m) + e))) as H.
  destruct (shl_align m e (fexp (digits (Z.pos m) + e))) as [m' e''].
  destruct H as [Ee Em].
  assert (HW : W (Z.pos m') e'' = W (Z.pos m) e).
  { unfold W. rewrite Em, <- Z.mul_assoc, <- Z.pow_add_r.
    - f_equal. f_equal. lia.
    - lia.
    - rewrite fexp_eq in Ee. unfold G in *. lia. }
  rewrite <- HW. apply round_aux_exact; try lia.
  - rewrite fexp_eq in Ee. unfold G in *. lia.
  - unfold shiftOf. rewrite Em, digits_shl by lia.
    replace (digits (Z.pos m) + (e - e'') + e'') with (digits (Z.pos m) + e) by lia.
    lia.
Qed.

(** *** Rounding is monotone *)

Lemma shiftOf_G x : shiftOf x G = Z.max (digits x - 53) 1074.
Proof. unfold shiftOf, G. rewrite fexp_eq. lia. Qed.

Lemma rne_nonneg n m : 0 <= n -> 0 <= m -> 0 <= rne n m.
Proof.
  intros Hn Hm. pose proof (rne_bounds n m Hn).
  pose proof (Z.div_pos m (2 ^ n) Hm (pow2_pos n Hn)). lia.
Qed.

Lemma roundValue_nonneg x : 0 <= x -> 0 <= roundValue x.
Proof.
  intros Hx. unfold roundValue. cbv zeta. rewrite shiftOf_G.
  set (n := Z.max (digits x - 53) 1074).
  pose proof (rne_nonneg n x ltac:(lia) Hx). pose proof (pow2_pos n ltac:(lia)).
  nia.
Qed.

Lemma roundValue_upper x b :
  0 <= x -> shiftOf x G <= b -> x <= 2 ^ b -> roundValue x <= 2 ^ b.
Proof.
  intros Hx Hb Hle. unfold roundValue. cbv zeta.
  set (n := shiftOf x G) in *.
  assert (Hn : 0 <= n) by (unfold n; rewrite shiftOf_G; lia).
  replace (2 ^ b) with (2 ^ (b - n) * 2 ^ n) in *
    by (rewrite <- Z.pow_add_r by lia; f_equal; lia).
  pose proof (rne_mono n x (2 ^ (b - n) * 2 ^ n) (conj Hx Hle)) as H.
  rewrite rne_exact in H by lia.
  pose proof (pow2_pos n Hn). nia.
Qed.

Lemma roundValue_lower x b :
  0 <= x -> shiftOf x G <= b -> 2 ^ b <= x -> 2 ^ b <= roundValue x.
Proof.
  intros Hx Hb Hle. unfold roundValue. cbv zeta.
  set (n := shiftOf x G) in *.
  assert (Hn : 0 <= n) by (unfold n; rewrite shiftOf_G; lia).
  replace (2 ^ b) with (2 ^ (b - n) * 2 ^ n) in *
    by (rewrite <- Z.pow_add_r by lia; f_equal; lia).
  assert (H0 : 0 <= 2 ^ (b - n) * 2 ^ n)
    by (pose proof (pow2_pos (b - n)); pose proof (pow2_pos n); nia).
  pose proof (rne_mono n (2 ^ (b - n) * 2 ^ n) x (conj H0 Hle)) as H.
  rewrite rne_exact in H by lia.
  pose proof (pow2_pos n Hn). nia.
Qed.

Lemma roundValue_mono x y : 0 <= x <= y -> roundValue x <= roundValue y.
Proof.
  intros [Hx Hxy].
  destruct (Z.eq_dec x 0) as [->|Hx0].
  { rewrite roundValue_0. apply roundValue_nonneg. lia. }
  pose proof (digits_mono x y (conj Hx Hxy)) as Hd.
  pose proof (shiftOf_G x) as Ex. pose proof (shiftOf_G y) as Ey.
  destruct (Z.eq_dec (shiftOf x G) (shiftOf y G)) as [En|Hn].
  - unfold roundValue. cbv zeta. rewrite <- En.
    pose proof (rne_mono (shiftOf x G) x y (conj Hx Hxy)).
    pose proof (pow2_pos (shiftOf x G) ltac:(lia)). nia.
  - pose proof (digits_spec x ltac:(lia)) as [_ Hxhi].
    pose proof (digits_spec y ltac:(lia)) as [Hylo _].
    pose proof (digits_pos x ltac:(lia)) as Hdx.
    apply Z.le_trans with (2 ^ (digits y - 1)).
    + set (b := Z.max (digits x) (shiftOf x G)).
      apply Z.le_trans with (2 ^ b).
      * apply roundValue_upper; [lia|lia|].
        apply Z.le_trans with (2 ^ digits x); [lia|].
        apply Z.pow_le_mono_r; lia.
      * apply Z.pow_le_mono_r; lia.
    + apply roundValue_lower; lia.
Qed.

(** *** The order on valid numbers is the order on their values *)

Lemma bounded_spec m e :
  bounded prec emax m e = true <->
  fexp (digits (Z.pos m) + e) = e /\ e <= 971.
Proof.
  unfold bounded, canonical_mantissa.
  rewrite andb_true_iff, Z.eqb_eq, Z.leb_le. reflexivity.
Qed.

Lemma bounded_range m e :
  bounded prec emax m e = true ->
  -1074 <= e <= 971 /\ Z.pos m < 2 ^ 53 /\
  (e = -1074 \/ 2 ^ 52 <= Z.pos m).
Proof.
  rewrite bounded_spec, fexp_eq. intros [Hc He].
  pose proof (digits_spec (Z.pos m) ltac:(lia)) as [Hlo Hhi].
  split; [lia|]. split.
  - apply Z.lt_le_trans with (2 ^ digits (Z.pos m)); [exact Hhi|].
    apply Z.pow_le_mono_r; lia.
  - destruct (Z.eq_dec e (-1074)); [now left|right].
    replace 52 with (digits (Z.pos m) - 1) by lia. exact Hlo.
Qed.

Lemma W_pos m e : 0 < m -> G <= e -> 0 < W m e.
Proof. intros. unfold W. pose proof (pow2_pos (e - G)). nia. Qed.

Lemma W_bounded_lt_OVF m e :
  bounded prec emax m e = true -> W (Z.pos m) e < OVF.
Proof.
  intros H. destruct (bounded_range m e H) as (He & Hm & _).
  apply Z.lt_le_trans with (W (2 ^ 53) e).
  - unfold W. pose proof (pow2_pos (e - G) ltac:(unfold G; lia)). nia.
  - rewrite W_pow by (unfold G; lia). rewrite OVF_eq.
    apply Z.pow_le_mono_r; unfold G; lia.
Qed.

Lemma W_lt_exp m1 e1 m2 e2 :
  bounded prec emax m1 e1 = true -> bounded prec emax m2 e2 = true ->
  e1 < e2 -> W (Z.pos m1) e1 < W (Z.pos m2) e2.
Proof.
  intros H1 H2 He.
  destruct (bounded_range m1 e1 H1) as (He1 & Hm1 & _).
  destruct (bounded_range m2 e2 H2) as (He2 & _ & Hm2).
  destruct Hm2 as [Hm2|Hm2]; [lia|].
  apply Z.lt_le_trans with (W (2 ^ 53) e1).
  - unfold W. pose proof (pow2_pos (e1 - G) ltac:(unfold G; lia)). nia.
  - apply Z.le_trans with (W (2 ^ 52) e2).
    + rewrite !W_pow by (unfold G; lia). apply Z.pow_le_mono_r; lia.
    + apply W_mono; [unfold G; lia|exact Hm2].
Qed.

Lemma lex_W m1 e1 m2 e2 :
  bounded prec emax m1 e1 = true -> bounded prec emax m2 e2 = true ->
  lex e1 m1 e2 m2 = (W (Z.pos m1) e1 ?= W (Z.pos m2) e2).
Proof.
  intros H1 H2. pose proof (NumberFacts.lex_spec e1 m1 e2 m2) as H.
  symmetry. destruct (lex e1 m1 e2 m2).
  - destruct H as [-> ->]. apply Z.compare_refl.
  - apply Z.compare_lt_iff. destruct H as [H|[-> H]].
    + now apply W_lt_exp.
    + destruct (bounded_range m1 e2 H1) as (He & _).
      unfold W. pose proof (pow2_pos (e2 - G) ltac:(unfold G; lia)). nia.
  - apply Z.compare_gt_iff. destruct H as [H|[-> H]].
    + now apply W_lt_exp.
    + destruct (bounded_range m1 e2 H1) as (He & _).
      unfold W. pose proof (pow2_pos (e2 - G) ltac:(unfold G; lia)). nia.
Qed.

Lemma Mag_nonneg s x w : Mag s x w -> 0 <= w.
Proof.
  destruct x as [sx|sx| |sx m e]; cbn [Mag].
  - lia.
  - intros [_ H]. rewrite OVF_eq in H. pose proof (pow2_pos 3172). lia.
  - tauto.
  - intros (_ & Hb & <-). destruct (bounded_range m e Hb) as (He & _).
    pose proof (W_pos (Z.pos m) e ltac:(lia) ltac:(unfold G; lia)). lia.
Qed.

Lemma OVF_pos : 0 < OVF.
Proof. rewrite OVF_eq. apply pow2_pos. lia. Qed.

Lemma Mag_finite_range s m e w :
  Mag s (S754_finite s m e) w -> 0 < w < OVF.
Proof.
  cbn [Mag]. intros (_ & Hb & <-).
  destruct (bounded_range m e Hb) as (He & _).
  pose proof (W_pos (Z.pos m) e ltac:(lia) ltac:(unfold G; lia)).
  pose proof (W_bounded_lt_OVF m e Hb). lia.
Qed.

Lemma Mag_le x y wx wy :
  Mag false x wx -> Mag false y wy -> wx <= wy -> (x <=? y)%js = true.
Proof.
  intros Hx Hy Hle. pose proof OVF_pos as HO. unfold le, SFleb.
  destruct x as [sx|sx| |sx mx ex], y as [sy|sy| |sy my ey];
    try (exfalso; exact Hx); try (exfalso; exact Hy).
  - reflexivity.
  - destruct Hy as [-> _]. reflexivity.
  - destruct Hy as [-> _]. reflexivity.
  - exfalso. cbn [Mag] in *. lia.
  - destruct Hx as [-> _], Hy as [-> _]. reflexivity.
  - exfalso. destruct Hx as [-> Hx]. pose proof Hy as [-> _].
    apply Mag_finite_range in Hy. lia.
  - exfalso. pose proof Hx as [-> _]. apply Mag_finite_range in Hx.
    cbn [Mag] in Hy. lia.
  - destruct Hx as [-> _], Hy as [-> _]. reflexivity.
  - destruct Hx as (-> & Hbx & <-), Hy as (-> & Hby & <-).
    rewrite NumberFacts.compare_finite, (lex_W _ _ _ _ Hbx Hby).
    destruct (Z.compare_spec (W (Z.pos mx) ex) (W (Z.pos my) ey));
      try reflexivity. lia.
Qed.

Lemma Mag_le_inv x y wx wy :
  Mag false x wx -> Mag false y wy ->
  is_finite x = true -> is_finite y = true ->
  (x <=? y)%js = true -> wx <= wy.
Proof.
  intros Hx Hy Fx Fy. unfold le, SFleb.
  destruct x as [sx|sx| |sx mx ex], y as [sy|sy| |sy my ey];
    try discriminate Fx; try discriminate Fy.
  - cbn [Mag] in *. lia.
  - pose proof Hy as [-> _]. apply Mag_finite_range in Hy.
    cbn [Mag] in Hx. lia.
  - destruct Hx as (-> & _). simpl. discriminate.
  - destruct Hx as (-> & Hbx & <-), Hy as (-> & Hby & <-).
    rewrite NumberFacts.compare_finite, (lex_W _ _ _ _ Hbx Hby).
    destruct (Z.compare_spec (W (Z.pos mx) ex) (W (Z.pos my) ey));
      try discriminate; lia.
Qed.

Lemma roundValue_bounded m e :
  bounded prec emax m e = true ->
  roundValue (W (Z.pos m) e) = W (Z.pos m) e.
Proof.
  intros Hb. pose proof Hb as Hc. apply bounded_spec in Hc as [Hc _].
  destruct (bounded_range m e Hb) as (He & _).
  assert (Hs : shiftOf (Z.pos m) e = 0) by (unfold shiftOf; lia).
  rewrite roundValue_native by (unfold G; lia).
  rewrite Hs, rne_nonpos, Z.add_0_r by lia. reflexivity.
Qed.

Lemma roundValue_OVF : roundValue OVF = OVF.
Proof.
  assert (E : OVF = W (2 ^ 52) 972)
    by (rewrite W_pow by (unfold G; lia); reflexivity).
  rewrite E.
  assert (Hs : shiftOf (2 ^ 52) 972 = 0) by reflexivity.
  rewrite roundValue_native by (rewrite ?Hs; unfold G; lia).
  rewrite Hs, rne_nonpos, Z.add_0_r by lia. reflexivity.
Qed.

Lemma Mag_roundValue s x w : Mag s x w -> Mag s x (roundValue w).
Proof.
  destruct x as [sx|sx| |sx m e]; cbn [Mag].
  - intros ->. apply roundValue_0.
  - intros [-> H]. split; [reflexivity|].
    rewrite <- roundValue_OVF. apply roundValue_mono.
    rewrite OVF_eq in *. pose proof (pow2_pos 3172). lia.
  - tauto.
  - intros (-> & Hb & <-). rewrite roundValue_bounded by assumption. auto.
Qed.

(** *** Addition, subtraction and multiplication *)

Lemma W_aligned (m : positive) e ez :
  ez <= e -> G <= ez ->
  W (Z.pos (fst (shl_align m e ez))) ez = W (Z.pos m) e.
Proof.
  intros Hle HG. pose proof (shl_align_spec m e ez) as H.
  destruct (shl_align m e ez) as [m' e'']. destruct H as [Ee Em].
  cbn [fst]. unfold W. rewrite Em, Ee, Z.min_r by lia.
  rewrite <- Z.mul_assoc, <- Z.pow_add_r by lia. f_equal. f_equal. lia.
Qed.

Lemma W_add a b e : W (a + b) e = W a e + W b e.
Proof. unfold W. lia. Qed.

Lemma W_sub a b e : W (a - b) e = W a e - W b e.
Proof. unfold W. lia. Qed.

Lemma add_finite mx ex my ey :
  bounded prec emax mx ex = true -> bounded prec emax my ey = true ->
  Mag false (S754_finite false mx ex + S754_finite false my ey)%js
    (roundValue (W (Z.pos mx) ex + W (Z.pos my) ey)).
Proof.
  intros Hx Hy.
  destruct (bounded_range mx ex Hx) as (Hex & _).
  destruct (bounded_range my ey Hy) as (Hey & _).
  unfold add, SFadd. cbn [cond_Zopp].
  set (ez := Z.min ex ey).
  rewrite <- (W_aligned mx ex ez), <- (W_aligned my ey ez)
    by (unfold ez, G; lia).
  rewrite <- W_add.
  rewrite <- Pos2Z.inj_add. cbn [binary_normalize].
  apply binary_round_spec. unfold ez, G. lia.
Qed.

Lemma add_spec x y wx wy :
  Mag false x wx -> Mag false y wy ->
  Mag false (x + y)%js (roundValue (wx + wy)).
Proof.
  intros Hx Hy.
  pose proof (Mag_nonneg _ _ _ Hx) as Hwx.
  pose proof (Mag_nonneg _ _ _ Hy) as Hwy.
  assert (Hinf : forall w, OVF <= w -> OVF <= roundValue w).
  { intros w Hw. rewrite <- roundValue_OVF. apply roundValue_mono.
    pose proof OVF_pos. lia. }
  destruct x as [sx|sx| |sx mx ex], y as [sy|sy| |sy my ey];
    try (exfalso; exact Hx); try (exfalso; exact Hy).
  - cbn [Mag] in Hx, Hy. subst. destruct sx, sy; reflexivity.
  - cbn [Mag] in Hx. subst wx. apply (Mag_roundValue false _ _ Hy).
  - cbn [Mag] in Hx. subst wx. apply (Mag_roundValue false _ _ Hy).
  - destruct Hx as [-> Hx]. split; [reflexivity|]. apply Hinf. lia.
  - destruct Hx as [-> Hx], Hy as [-> Hy]. split; [reflexivity|].
    apply Hinf. lia.
  - destruct Hx as [-> Hx]. split; [reflexivity|]. apply Hinf. lia.
  - cbn [Mag] in Hy. subst wy. rewrite Z.add_0_r.
    apply (Mag_roundValue false _ _ Hx).
  - destruct Hy as [-> Hy]. split; [reflexivity|]. apply Hinf. lia.
  - destruct Hx as (-> & Hbx & <-), Hy as (-> & Hby & <-).
    now apply add_finite.
Qed.

Lemma sub_finite mx ex my ey :
  bounded prec emax mx ex = true -> bounded prec emax my ey = true ->
  W (Z.pos my) ey <= W (Z.pos mx) ex ->
  Mag false (S754_finite false mx ex - S754_finite false my ey)%js
    (roundValue (W (Z.pos mx) ex - W (Z.pos my) ey)).
Proof.
  intros Hx Hy Hle.
  destruct (bounded_range mx ex Hx) as (Hex & _).
  destruct (bounded_range my ey Hy) as (Hey & _).
  unfold sub, SFsub. cbn [cond_Zopp].
  set (ez := Z.min ex ey).
  rewrite <- (W_aligned mx ex ez), <- (W_aligned my ey ez) in *
    by (unfold ez, G; lia).
  rewrite <- W_sub.
  set (a := Z.pos (fst (shl_align mx ex ez))) in *.
  set (b := Z.pos (fst (shl_align my ey ez))) in *.
  assert (Hab : b <= a).
  { unfold W in Hle. pose proof (pow2_pos (ez - G) ltac:(unfold ez, G; lia)).
    nia. }
  destruct (a - b) as [|p|p] eqn:E; try lia.
  - reflexivity.
  - cbn [binary_normalize]. apply binary_round_spec. unfold ez, G. lia.
Qed.

Lemma sub_spec x y wx wy :
  Mag false x wx -> Mag false y wy ->
  is_finite x = true -> is_finite y = true -> wy <= wx ->
  Mag false (x - y)%js (roundValue (wx - wy)).
Proof.
  intros Hx Hy Fx Fy Hle.
  destruct x as [sx|sx| |sx mx ex], y as [sy|sy| |sy my ey];
    try discriminate Fx; try discriminate Fy.
  - cbn [Mag] in Hx, Hy. subst. destruct sx, sy; reflexivity.
  - exfalso. pose proof Hy as [-> _]. apply Mag_finite_range in Hy.
    cbn [Mag] in Hx. lia.
  - cbn [Mag] in Hy. subst wy. rewrite Z.sub_0_r.
    apply (Mag_roundValue false _ _ Hx).
  - destruct Hx as (-> & Hbx & <-), Hy as (-> & Hby & <-).
    now apply sub_finite.
Qed.

Lemma W_mul a ea b eb :
  G <= ea + eb -> -1074 <= ea -> -1074 <= eb ->
  W (a * b) (ea + eb) = mulValue (W a ea) (W b eb).
Proof.
  intros HG Ha Hb. unfold W, mulValue, G in *.
  replace (a * 2 ^ (ea - -2148) * (b * 2 ^ (eb - -2148)))
    with (a * b * 2 ^ (ea + eb - -2148) * 2 ^ 2148).
  - rewrite Z.div_mul by (pose proof (pow2_pos 2148); lia). reflexivity.
  - assert (E : 2 ^ (ea - -2148) * 2 ^ (eb - -2148)
               = 2 ^ (ea + eb - -2148) * 2 ^ 2148).
    { rewrite <- !Z.pow_add_r by lia. f_equal. lia. }
    transitivity (a * b * (2 ^ (ea - -2148) * 2 ^ (eb - -2148))); [|ring].
    rewrite E. ring.
Qed.

Lemma mul_shift mx ex my ey :
  bounded prec emax mx ex = true -> bounded prec emax my ey = true ->
  0 <= shiftOf (Z.pos mx * Z.pos my) (ex + ey).
Proof.
  intros Hx Hy.
  destruct (bounded_range mx ex Hx) as (Hex & _ & Hnx).
  destruct (bounded_range my ey Hy) as (Hey & _ & Hny).
  unfold shiftOf. rewrite fexp_eq.
  destruct (Z_le_gt_dec (ex + ey) (-1074)) as [Hs|Hs]; [lia|].
  assert (H52 : 2 ^ 52 <= Z.pos mx * Z.pos my).
  { destruct Hnx as [Hnx|Hnx], Hny as [Hny|Hny]; try lia; nia. }
  pose proof (digits_ge_pow _ 52 ltac:(lia) H52).
  assert (Hex' : ex = -1074 \/ ey = -1074 \/ (2 ^ 52 <= Z.pos mx /\ 2 ^ 52 <= Z.pos my))
    by lia.
  destruct Hex' as [E|[E|[H1 H2]]].
  - lia.
  - lia.
  - assert (H104 : 2 ^ 104 <= Z.pos mx * Z.pos my).
    { change (2 ^ 104) with (2 ^ 52 * 2 ^ 52). nia. }
    pose proof (digits_ge_pow _ 104 ltac:(lia) H104). lia.
Qed.

Lemma mul_spec x y wx wy :
  Mag false x wx -> Mag false y wy ->
  is_finite x = true -> is_finite y = true ->
  Mag false (x * y)%js (roundValue (mulValue wx wy)).
Proof.
  intros Hx Hy Fx Fy.
  destruct x as [sx|sx| |sx mx ex], y as [sy|sy| |sy my ey];
    try discriminate Fx; try discriminate Fy.
  - cbn [Mag] in Hx, Hy. subst. reflexivity.
  - cbn [Mag] in Hx. subst. reflexivity.
  - cbn [Mag] in Hy. subst. unfold mulValue. rewrite Z.mul_0_r. reflexivity.
  - destruct Hx as (-> & Hbx & <-), Hy as (-> & Hby & <-).
    destruct (bounded_range mx ex Hbx) as (Hex & _).
    destruct (bounded_range my ey Hby) as (Hey & _).
    unfold mul, SFmul. cbn [xorb].
    rewrite <- W_mul by (unfold G; lia).
    rewrite Pos2Z.inj_mul.
    apply round_aux_exact.
    + lia.
    + unfold G; lia.
    + now apply mul_shift.
Qed.

(** *** Division *)

Lemma fexp_mono a b : a <= b -> fexp a <= fexp b.
Proof. rewrite !fexp_eq. lia. Qed.

Lemma Mag_lt_OVF_finite s x w : Mag s x w -> w < OVF -> is_finite x = true.
Proof.
  destruct x as [sx|sx| |sx m e]; cbn [Mag is_finite]; try reflexivity.
  - intros [_ H]. lia.
  - tauto.
Qed.

(** Division of a finite non-negative number by a finite positive one. *)
Lemma div_core mx ex my ey :
  bounded prec emax mx ex = true -> bounded prec emax my ey = true ->
  exists q e' l,
    SFdiv_core_binary prec emax (Z.pos mx) ex (Z.pos my) ey = (q, e', l) /\
    0 <= q /\ 0 <= shiftOf q e' /\
    e' = Z.min (fexp (digits (Z.pos mx) + ex - (digits (Z.pos my) + ey)))
           (ex - ey) /\
    digits q + e' <=
      Z.max (digits (Z.pos mx) + ex - (digits (Z.pos my) + ey) + 1) e' /\
    0 <= ex - ey - e' /\
    q = Z.pos mx * 2 ^ (ex - ey - e') / Z.pos my.
Proof.
  intros Hx Hy. unfold SFdiv_core_binary.
  change (Zdigits2 (Z.pos mx)) with (digits (Z.pos mx)).
  change (Zdigits2 (Z.pos my)) with (digits (Z.pos my)).
  change (SpecFloat.fexp prec emax) with fexp.
  set (d1 := digits (Z.pos mx)). set (d2 := digits (Z.pos my)).
  set (e' := Z.min (fexp (d1 + ex - (d2 + ey))) (ex - ey)).
  set (s := ex - ey - e').
  assert (Hs : 0 <= s) by (unfold s, e'; lia).
  set (m' := match s with
             | 0 => Z.pos mx
             | Z.pos _ => Z.shiftl (Z.pos mx) s
             | Z.neg _ => 0
             end).
  assert (Em' : m' = Z.pos mx * 2 ^ s).
  { unfold m'. destruct s as [|p|p] eqn:E; try lia.
    apply Z.shiftl_mul_pow2. lia. }
  pose proof (digits_spec (Z.pos mx) ltac:(lia)) as [H1lo H1hi].
  pose proof (digits_spec (Z.pos my) ltac:(lia)) as [H2lo H2hi].
  fold d1 in H1lo, H1hi. fold d2 in H2lo, H2hi.
  pose proof (digits_pos (Z.pos mx) ltac:(lia)) as Hd1. fold d1 in Hd1.
  pose proof (digits_pos (Z.pos my) ltac:(lia)) as Hd2. fold d2 in Hd2.
  pose proof (pow2_pos s Hs) as HPs.
  assert (Hm' : 0 < m') by nia.
  destruct (Z.div_eucl m' (Z.pos my)) as [q r] eqn:E.
  assert (Eq : q = m' / Z.pos my) by (unfold Z.div; now rewrite E).
  exists q, e', (new_location (Z.pos my) r).
  split; [reflexivity|].
  assert (Hq : 0 <= q) by (rewrite Eq; apply Z.div_pos; lia).
  split; [exact Hq|].
  assert (Hlow : d1 + s - d2 <= digits q).
  { destruct (Z_le_gt_dec (d1 + s - d2) 0) as [H0|H0].
    - pose proof (digits_nonneg q Hq). lia.
    - assert (2 ^ (d1 + s - d2 - 1) <= q).
      { rewrite Eq. apply Z.div_le_lower_bound; [lia|].
        apply Z.le_trans with (2 ^ d2 * 2 ^ (d1 + s - d2 - 1)).
        - pose proof (pow2_pos (d1 + s - d2 - 1) ltac:(lia)). nia.
        - rewrite <- Z.pow_add_r by lia.
          replace (d2 + (d1 + s - d2 - 1)) with ((d1 - 1) + s) by lia.
          rewrite Z.pow_add_r by lia. rewrite Em'. nia. }
      pose proof (digits_ge_pow q (d1 + s - d2 - 1) ltac:(lia) H). lia. }
  assert (Hupp : digits q <= Z.max (d1 + s - d2 + 1) 0).
  { destruct (Z_le_gt_dec (d1 + s - d2 + 1) 0) as [H0|H0].
    - (* then m' < my, so q = 0 *)
      assert (m' < Z.pos my).
      { apply Z.lt_le_trans with (2 ^ (d1 + s)).
        - rewrite Z.pow_add_r by lia. rewrite Em'. nia.
        - apply Z.le_trans with (2 ^ (d2 - 1)); [|lia].
          apply Z.pow_le_mono_r; lia. }
      rewrite Eq, Z.div_small by lia. rewrite digits_0. lia.
    - rewrite Z.max_l by lia. apply digits_lt_pow; [lia|lia|].
      rewrite Eq. apply Z.div_lt_upper_bound; [lia|].
      apply Z.lt_le_trans with (2 ^ (d1 + s)).
      + rewrite Z.pow_add_r by lia. rewrite Em'. nia.
      + apply Z.le_trans with (2 ^ (d2 - 1) * 2 ^ (d1 + s - d2 + 1)).
        * rewrite <- Z.pow_add_r by lia. apply Z.pow_le_mono_r; lia.
        * pose proof (pow2_pos (d1 + s - d2 + 1) ltac:(lia)). nia. }
  split; [|split; [reflexivity|split; [|split]]].
  - unfold shiftOf.
    pose proof (fexp_mono (d1 + ex - (d2 + ey)) (digits q + e')
                  ltac:(unfold s in *; lia)).
    unfold e' in *. lia.
  - unfold s in *. lia.
  - exact Hs.
  - rewrite Eq, Em'. reflexivity.
Qed.

Lemma div_by_ten x wx :
  Mag false x wx -> is_finite x = true ->
  exists w, Mag false (x / #10)%js w /\ is_finite (x / #10)%js = true.
Proof.
  intros Hx Fx.
  destruct x as [sx|sx| |sx mx ex]; try discriminate Fx.
  - exists 0. split; reflexivity.
  - destruct Hx as (-> & Hbx & _).
    change (#10)%js with (S754_finite false 5629499534213120 (-49)).
    assert (Hby : bounded prec emax 5629499534213120 (-49) = true)
      by reflexivity.
    destruct (div_core mx ex _ _ Hbx Hby) as (q & e' & l & E & Hq & Hn & Ee' & Hd & _ & _).
    unfold div, SFdiv. rewrite E. cbn [xorb].
    destruct (round_aux_general false q e' l Hq Hn)
      as (q' & _ & _ & Hf & HM).
    exists (W q' (e' + shiftOf q e')). split; [exact HM|].
    apply (Mag_lt_OVF_finite _ _ _ HM).
    destruct Hf as (Hq' & HE & _).
    change (digits 5629499534213120) with 53 in Hd.
    apply bounded_spec in Hbx as [Hc He]. rewrite fexp_eq in Hc.
    assert (He' : e' <= 967).
    { rewrite Ee', fexp_eq. change (digits 5629499534213120) with 53. lia. }
    assert (HE' : e' + shiftOf q e' <= 968).
    { unfold shiftOf. rewrite fexp_eq. lia. }
    apply Z.le_lt_trans with (W (2 ^ 53) 968).
    + apply Z.le_trans with (W q' 968).
      * apply W_mono_e; unfold G, emin in *; lia.
      * apply W_mono; unfold G; lia.
    + rewrite W_pow by (unfold G; lia). rewrite OVF_eq.
      apply Z.pow_lt_mono_r; unfold G; lia.
Qed.

(** *** Finite non-negative numbers *)

Lemma nonnegFinite_Mag d : nonnegFinite d -> exists w, Mag false d w.
Proof.
  intros (Hv & Hf & Hge).
  destruct d as [s|s| |s m e]; try discriminate Hf.
  - exists 0. reflexivity.
  - exists (W (Z.pos m) e). destruct s; [discriminate Hge|].
    split; [reflexivity|]. split; [exact Hv|reflexivity].
Qed.

Lemma nonnegFinite_not_nan d : nonnegFinite d -> is_nan d = false.
Proof. intros (_ & Hf & _). destruct d; try discriminate Hf; reflexivity. Qed.

Lemma compare_some x y :
  is_nan x = false -> is_nan y = false -> exists c, SFcompare x y = Some c.
Proof.
  intros Hx Hy.
  destruct x as [sx|sx| |sx mx ex], y as [sy|sy| |sy my ey];
    try discriminate Hx; try discriminate Hy; simpl; eauto.
Qed.

Lemma le_refl x : is_nan x = false -> (x <=? x)%js = true.
Proof.
  intros Hx. destruct (compare_some x x Hx Hx) as [c Hc].
  pose proof (NumberFacts.compare_antisym x x) as Ha. rewrite Hc in Ha.
  unfold le, SFleb. rewrite Hc. destruct c; try reflexivity; discriminate Ha.
Qed.

Lemma lt_false_le x y :
  is_nan x = false -> is_nan y = false ->
  (x <? y)%js = false -> (y <=? x)%js = true.
Proof.
  intros Hx Hy. destruct (compare_some x y Hx Hy) as [c Hc].
  unfold lt, le, SFltb, SFleb. rewrite (NumberFacts.compare_antisym x y), Hc.
  destruct c; simpl; congruence.
Qed.

Lemma of_nat_Mag (i : nat) :
  (i < 10)%nat ->
  Mag false (of_nat i) (W (Z.of_nat i) 0) /\ is_finite (of_nat i) = true.
Proof.
  intros Hi.
  do 10 (destruct i as [|i]; [vm_compute; repeat split; reflexivity|]).
  lia.
Qed.

Lemma mulValue_mono a b c : 0 <= a <= b -> 0 <= c -> mulValue a c <= mulValue b c.
Proof.
  intros H Hc. unfold mulValue. apply Z.div_le_mono; [apply pow2_pos; lia|].
  nia.
Qed.

Lemma mulValue_nonneg a c : 0 <= a -> 0 <= c -> 0 <= mulValue a c.
Proof.
  intros. unfold mulValue. apply Z.div_pos; [nia|apply pow2_pos; lia].
Qed.

(** *** The bin size and the quotient of the maximum *)

Lemma div_value mx ex my ey :
  bounded prec emax mx ex = true -> bounded prec emax my ey = true ->
  exists q e' q',
    0 <= shiftOf q e' /\ 0 <= ex - ey - e' /\ G <= e' /\
    e' = Z.min (fexp (digits (Z.pos mx) + ex - (digits (Z.pos my) + ey)))
           (ex - ey) /\
    q = Z.pos mx * 2 ^ (ex - ey - e') / Z.pos my /\
    digits q + e' <=
      Z.max (digits (Z.pos mx) + ex - (digits (Z.pos my) + ey) + 1) e' /\
    (q' = q / 2 ^ shiftOf q e' \/ q' = q / 2 ^ shiftOf q e' + 1) /\
    Mag false (S754_finite false mx ex / S754_finite false my ey)%js
      (W q' (e' + shiftOf q e')).
Proof.
  intros Hbx Hby.
  destruct (div_core mx ex my ey Hbx Hby)
    as (q & e' & l & E & Hq & Hn & Ee' & Hd & Hs & Eq).
  destruct (round_aux_general false q e' l Hq Hn) as (q' & Hq' & _ & _ & HM).
  exists q, e', q'.
  destruct (bounded_range mx ex Hbx) as (Hex & _).
  destruct (bounded_range my ey Hby) as (Hey & _).
  repeat split; try assumption.
  - rewrite Ee', fexp_eq. unfold G. lia.
  - unfold div, SFdiv. rewrite E. exact HM.
Qed.

Lemma binSize_bounds mx ex :
  bounded prec emax mx ex = true ->
  90 * 2 ^ 1074 <= W (Z.pos mx) ex ->
  exists wb,
    Mag false (S754_finite false mx ex / #10)%js wb /\
    9 * wb <= W (Z.pos mx) ex /\ W (Z.pos mx) ex <= 16 * wb.
Proof.
  intros Hbx Htiny.
  change (#10)%js with (S754_finite false 5629499534213120 (-49)).
  assert (Hby : bounded prec emax 5629499534213120 (-49) = true) by reflexivity.
  destruct (div_value mx ex _ _ Hbx Hby)
    as (q & e' & q' & Hn & Hs & HG & Ee' & Eq & _ & Hq' & HM).
  exists (W q' (e' + shiftOf q e')). split; [exact HM|].
  destruct (bounded_range mx ex Hbx) as (Hex & _).
  set (n := shiftOf q e') in *.
  set (s := ex - -49 - e') in *.
  set (M := Z.pos mx * 2 ^ s) in *.
  set (u := 2 ^ (e' - G)).
  assert (Hu : 0 < u) by (apply pow2_pos; lia).
  assert (HP : 0 < 2 ^ n) by (apply pow2_pos; lia).
  assert (HM0 : 0 < M) by (unfold M; pose proof (pow2_pos s Hs); nia).
  (* the truncated quotient *)
  assert (Hq1 : q * 5629499534213120 <= M < (q + 1) * 5629499534213120).
  { rewrite Eq. split.
    - rewrite Z.mul_comm. apply Z.mul_div_le. lia.
    - rewrite Z.mul_comm.
      pose proof (Z.mul_succ_div_gt M 5629499534213120 ltac:(lia)). lia. }
  assert (HMu : M * u = W (Z.pos mx) ex * 2 ^ 49).
  { unfold M, u, W, s. rewrite <- !Z.mul_assoc, <- !Z.pow_add_r by (unfold G in *; lia).
    f_equal. f_equal. lia. }
  assert (Hqu : 10 * (q * u) <= W (Z.pos mx) ex < 10 * ((q + 1) * u)).
  { assert (q * 5629499534213120 * u <= M * u) by nia.
    assert (M * u < (q + 1) * 5629499534213120 * u) by nia.
    rewrite HMu in *. change 5629499534213120 with (10 * 2 ^ 49) in *.
    pose proof (pow2_pos 49 ltac:(lia)). nia. }
  (* the quotient carries at least four significant bits *)
  assert (Hq9 : 9 * 2 ^ n <= q).
  { unfold n, shiftOf in *. rewrite fexp_eq in *.
    destruct (Z_le_gt_dec (-1074) (digits q + e' - 53)) as [Hnorm|Hsub].
    - assert (En : Z.max (digits q + e' - 53) (-1074) - e' = digits q - 53) by lia.
      rewrite En in *.
      assert (0 < q).
      { destruct (Z.eq_dec q 0) as [E0|E0]; [|lia].
        rewrite E0 in Hn. change (digits 0) with 0 in Hn. lia. }
      pose proof (digits_spec q ltac:(lia)) as [Hlo _].
      replace (digits q - 1) with (52 + (digits q - 53)) in Hlo by lia.
      rewrite Z.pow_add_r in Hlo by lia.
      assert (9 <= 2 ^ 52) by (change (2 ^ 52) with 4503599627370496; lia).
      nia.
    - assert (En : Z.max (digits q + e' - 53) (-1074) - e' = -1074 - e') by lia.
      rewrite En in *.
      rewrite Eq. apply Z.div_le_lower_bound; [lia|].
      fold s. fold M.
      assert (E1 : M = Z.pos mx * 2 ^ (ex + 1074) * 2 ^ (-1074 - e' + 49)).
      { unfold M, s. rewrite <- Z.mul_assoc, <- Z.pow_add_r by lia.
        f_equal. f_equal. lia. }
      assert (E2 : 90 <= Z.pos mx * 2 ^ (ex + 1074)).
      { unfold W, G in Htiny.
        replace (ex - -2148) with ((ex + 1074) + 1074) in Htiny by lia.
        rewrite Z.pow_add_r, Z.mul_assoc in Htiny by lia.
        pose proof (pow2_pos 1074 ltac:(lia)). nia. }
      rewrite E1, (Z.pow_add_r 2 (-1074 - e') 49) by lia.
      change (2 ^ 49) with 562949953421312.
      pose proof (pow2_pos (-1074 - e') ltac:(lia)). nia. }
  assert (Hq1n : q / 2 ^ n * 2 ^ n <= q < (q / 2 ^ n + 1) * 2 ^ n).
  { split.
    - rewrite Z.mul_comm. apply Z.mul_div_le. lia.
    - rewrite Z.mul_comm.
      pose proof (Z.mul_succ_div_gt q (2 ^ n) ltac:(lia)). lia. }
  assert (EW : W q' (e' + n) = q' * 2 ^ n * u).
  { unfold W, u. rewrite <- Z.mul_assoc, <- Z.pow_add_r by lia.
    f_equal. f_equal. lia. }
  rewrite EW.
  set (X := q' * 2 ^ n) in *.
  assert (HX : q - 2 ^ n + 1 <= X <= q + 2 ^ n).
  { unfold X. destruct Hq' as [-> | ->]; nia. }
  split; nia.
Qed.

Lemma pow_scale_le a b x y x' y' :
  0 <= x -> 0 <= y -> 0 <= x' -> 0 <= y' -> x - y = x' - y' ->
  a * 2 ^ x <= b * 2 ^ y -> a * 2 ^ x' <= b * 2 ^ y'.
Proof.
  intros Hx Hy Hx' Hy' E H.
  apply (Z.mul_le_mono_pos_r _ _ (2 ^ y)); [apply pow2_pos; lia|].
  rewrite <- !Z.mul_assoc, <- !Z.pow_add_r by lia.
  replace (x' + y) with (x + y') by lia.
  replace (y' + y) with (y + y') by lia.
  rewrite !Z.pow_add_r, !Z.mul_assoc by lia.
  apply Z.mul_le_mono_nonneg_r; [|exact H].
  pose proof (pow2_pos y' Hy'). lia.
Qed.

Lemma W_digits_bounds m e :
  0 < m -> G <= e ->
  2 ^ (digits m - 1 + e - G) <= W m e < 2 ^ (digits m + e - G).
Proof.
  intros Hm He. pose proof (digits_spec m Hm) as [Hlo Hhi].
  pose proof (digits_pos m Hm). unfold W.
  replace (digits m - 1 + e - G) with ((digits m - 1) + (e - G)) by lia.
  replace (digits m + e - G) with (digits m + (e - G)) by lia.
  rewrite !Z.pow_add_r by lia.
  pose proof (pow2_pos (e - G) ltac:(lia)). nia.
Qed.

Lemma quotient_ge_9 mx ex my ey :
  bounded prec emax mx ex = true -> bounded prec emax my ey = true ->
  9 * W (Z.pos my) ey <= W (Z.pos mx) ex ->
  W (Z.pos mx) ex <= 16 * W (Z.pos my) ey ->
  exists w,
    Mag false (S754_finite false mx ex / S754_finite false my ey)%js w /\
    W 9 0 <= w.
Proof.
  intros Hbx Hby Hlo Hhi.
  destruct (div_value mx ex my ey Hbx Hby)
    as (q & e' & q' & Hn & Hs & HG & Ee' & Eq & Hd & Hq' & HM).
  exists (W q' (e' + shiftOf q e')). split; [exact HM|].
  destruct (bounded_range mx ex Hbx) as (Hex & _).
  destruct (bounded_range my ey Hby) as (Hey & _).
  set (k := digits (Z.pos mx) + ex - (digits (Z.pos my) + ey)) in *.
  assert (Hk : k <= 4).
  { pose proof (W_digits_bounds (Z.pos mx) ex ltac:(lia) ltac:(unfold G; lia))
      as [Hx1 _].
    pose proof (W_digits_bounds (Z.pos my) ey ltac:(lia) ltac:(unfold G; lia))
      as [_ Hy2].
    assert (H : 2 ^ (digits (Z.pos mx) - 1 + ex - G)
                < 2 ^ (digits (Z.pos my) + ey - G + 4)).
    { rewrite (Z.pow_add_r 2 _ 4)
        by (pose proof (digits_pos (Z.pos my)); unfold G; lia).
      change (2 ^ 4) with 16. lia. }
    apply Z.pow_lt_mono_r_iff in H;
      [|lia|pose proof (digits_pos (Z.pos my)); unfold G; lia].
    unfold k. lia. }
  rewrite fexp_eq in Ee'.
  assert (He' : e' <= -49) by lia.
  set (n := shiftOf q e') in *.
  assert (HE : e' + n <= 0).
  { unfold n, shiftOf. rewrite fexp_eq. lia. }
  assert (HP : 0 < 2 ^ n) by (apply pow2_pos; lia).
  assert (Hq9 : 9 * 2 ^ (- e') <= q).
  { rewrite Eq. apply Z.div_le_lower_bound; [lia|].
    rewrite Z.mul_assoc.
    apply (pow_scale_le (Z.pos my * 9) (Z.pos mx) (ey - G) (ex - G));
      try (unfold G; lia).
    unfold W in Hlo. lia. }
  assert (Hq1 : 9 * 2 ^ (- (e' + n)) <= q / 2 ^ n).
  { apply Z.div_le_lower_bound; [lia|].
    rewrite Z.mul_assoc, (Z.mul_comm _ 9), <- Z.mul_assoc,
      <- Z.pow_add_r by lia.
    replace (n + - (e' + n)) with (- e') by lia. exact Hq9. }
  assert (E9 : W 9 0 = 9 * 2 ^ (- (e' + n)) * 2 ^ (e' + n - G)).
  { unfold W. rewrite <- Z.mul_assoc, <- Z.pow_add_r by (unfold G in *; lia).
    f_equal. f_equal. lia. }
  rewrite E9. unfold W.
  apply Z.mul_le_mono_nonneg_r.
  - pose proof (pow2_pos (e' + n - G) ltac:(unfold G in *; lia)). lia.
  - destruct Hq' as [-> | ->]; lia.
Qed.

Lemma nine_Mag : Mag false (#9)%js (W 9 0).
Proof. vm_compute. repeat split; reflexivity. Qed.

Lemma floor_ge_9 x w :
  Mag false x w -> W 9 0 <= w -> (Math_floor x >=? #9)%js = true.
Proof.
  intros Hx Hw. unfold ge. fold (le (#9)%js (Math_floor x)).
  assert (H9 : 0 < W 9 0) by (apply W_pos; unfold G; lia).
  destruct x as [s|s| |s m e]; try (exfalso; exact Hx).
  - cbn [Mag] in Hx. lia.
  - destruct Hx as [-> _]. reflexivity.
  - pose proof Hx as (-> & Hb & HW).
    cbn [Math_floor]. destruct (Z.leb_spec 0 e) as [He|He].
    + apply (Mag_le _ _ _ _ nine_Mag Hx Hw).
    + cbn [cond_Zopp]. rewrite Z.shiftr_div_pow2 by lia.
      destruct (bounded_range m e Hb) as (Hr & _).
      assert (H : 9 <= Z.pos m / 2 ^ (- e)).
      { apply Z.div_le_lower_bound; [apply pow2_pos; lia|].
        rewrite Z.mul_comm.
        replace (Z.pos m) with (Z.pos m * 2 ^ 0) by (rewrite Z.pow_0_r; lia).
        apply (pow_scale_le 9 (Z.pos m) (0 - G) (e - G) (- e) 0);
          try (unfold G; lia).
        rewrite <- HW in Hw. unfold W in Hw. exact Hw. }
      destruct (Z.pos m / 2 ^ (- e)) as [|p|p] eqn:Ep; try lia.
      cbn [binary_normalize].
      pose proof (binary_round_spec false p 0 ltac:(unfold G; lia)) as HM.
      apply (Mag_le _ _ _ _ nine_Mag HM).
      assert (E9 : roundValue (W 9 0) = W 9 0).
      { change (W 9 0) with (W (Z.pos 5066549580791808) (-49)).
        apply roundValue_bounded. reflexivity. }
      rewrite <- E9.
      apply roundValue_mono. split; [lia|]. apply W_mono; [unfold G; lia|lia].
Qed.

Lemma Mag_finite_pos x w :
  Mag false x w -> 0 < w < OVF ->
  exists m e, x = S754_finite false m e /\ bounded prec emax m e = true /\
              W (Z.pos m) e = w.
Proof.
  intros Hx Hw. destruct x as [s|s| |s m e]; try (exfalso; exact Hx).
  - cbn [Mag] in Hx. lia.
  - destruct Hx as [_ Hx]. lia.
  - destruct Hx as (-> & Hb & HW). eauto.
Qed.

Lemma tinyRange_Mag : Mag false tinyRange (90 * 2 ^ 1074).
Proof. vm_compute. repeat split; reflexivity. Qed.

(** *** Math.floor and array indices *)

Lemma roundValue_exact a k :
  0 <= a -> shiftOf (a * 2 ^ k) G <= k -> roundValue (a * 2 ^ k) = a * 2 ^ k.
Proof.
  intros Ha Hk. unfold roundValue. cbv zeta.
  set (n := shiftOf (a * 2 ^ k) G) in *.
  assert (Hn : 0 <= n) by (unfold n; rewrite shiftOf_G; lia).
  clearbody n.
  assert (E : a * 2 ^ k = a * 2 ^ (k - n) * 2 ^ n).
  { rewrite <- Z.mul_assoc, <- Z.pow_add_r by lia. f_equal. f_equal. lia. }
  rewrite E. now rewrite rne_exact.
Qed.

Lemma roundValue_integer p :
  0 < p < 2 ^ 53 -> roundValue (W p 0) = W p 0.
Proof.
  intros Hp. unfold W. apply roundValue_exact; [lia|].
  rewrite shiftOf_G, digits_shl by (unfold G; lia).
  pose proof (digits_lt_pow p 53 ltac:(lia) ltac:(lia) ltac:(lia)).
  unfold G. lia.
Qed.

Lemma Mag_lt x y wx wy :
  Mag false x wx -> Mag false y wy -> (x <? y)%js = true -> wx < wy.
Proof.
  intros Hx Hy Hlt. destruct (Z_lt_ge_dec wx wy) as [H|H]; [exact H|].
  pose proof (Mag_le _ _ _ _ Hy Hx ltac:(lia)) as Hle.
  apply NumberFacts.lt_not_ge in Hlt. unfold ge in Hlt. unfold le in Hle.
  congruence.
Qed.

Lemma le_false_lt x y :
  is_nan x = false -> is_nan y = false ->
  (y <=? x)%js = false -> (x <? y)%js = true.
Proof.
  intros Hx Hy. destruct (compare_some x y Hx Hy) as [c Hc].
  unfold lt, le, SFltb, SFleb. rewrite (NumberFacts.compare_antisym x y), Hc.
  destruct c; simpl; congruence.
Qed.

(** The array index named by a non-negative integer below nine. *)
Lemma array_index_small x p :
  Mag false x (W p 0) -> 0 < p < 9 ->
  array_index x = Some (Z.to_nat p).
Proof.
  intros Hx Hp.
  assert (HW : 0 < W p 0 < OVF).
  { split; [apply W_pos; unfold G; lia|].
    apply Z.le_lt_trans with (W (2 ^ 53) 0).
    - apply W_mono; [unfold G; lia|]. change (2 ^ 53) with 9007199254740992. lia.
    - rewrite W_pow by (unfold G; lia). rewrite OVF_eq.
      apply Z.pow_lt_mono_r; unfold G; lia. }
  destruct (Mag_finite_pos _ _ Hx HW) as (m & e & -> & Hb & Em).
  destruct (bounded_range m e Hb) as (He & Hm & Hn).
  cbn [array_index]. destruct (Z.leb_spec 0 e) as [He0|He0].
  - exfalso. destruct Hn as [Hn|Hn]; [lia|].
    assert (W (2 ^ 52) 0 <= W (Z.pos m) e).
    { apply Z.le_trans with (W (2 ^ 52) e).
      - apply W_mono_e; unfold G; lia.
      - apply W_mono; [unfold G; lia|exact Hn]. }
    rewrite Em in H.
    assert (W p 0 < W (2 ^ 52) 0).
    { unfold W. pose proof (pow2_pos (0 - G) ltac:(unfold G; lia)).
      change (2 ^ 52) with 4503599627370496. nia. }
    lia.
  - assert (Emp : Z.pos m = p * 2 ^ (- e)).
    { unfold W in Em.
      replace (0 - G) with ((- e) + (e - G)) in Em by lia.
      rewrite Z.pow_add_r, Z.mul_assoc in Em by (unfold G; lia).
      pose proof (pow2_pos (e - G) ltac:(unfold G; lia)). nia. }
    rewrite Z.land_ones, Z.shiftr_div_pow2 by lia.
    rewrite Emp, Z.mod_mul, Z.div_mul
      by (pose proof (pow2_pos (- e) ltac:(lia)); lia).
    cbn [Z.eqb andb].
    replace (p <? 4294967295) with true by (symmetry; apply Z.ltb_lt; lia).
    reflexivity.
Qed.

Lemma floor_below_nine x w :
  Mag false x w -> (Math_floor x <? #9)%js = true ->
  exists k, (k < 9)%nat /\ array_index (Math_floor x) = Some k.
Proof.
  intros Hx Hlt.
  destruct x as [s|s| |s m e]; try (exfalso; exact Hx).
  - exists O. split; [lia|reflexivity].
  - destruct Hx as [-> _]. discriminate Hlt.
  - pose proof Hx as (-> & Hb & HW).
    destruct (bounded_range m e Hb) as (He & Hm & Hn).
    cbn [Math_floor] in *. destruct (Z.leb_spec 0 e) as [He0|He0].
    + exfalso. pose proof (Mag_lt _ _ _ _ Hx nine_Mag Hlt) as H.
      destruct Hn as [Hn|Hn]; [lia|].
      assert (W (2 ^ 52) 0 <= w).
      { rewrite <- HW. apply Z.le_trans with (W (2 ^ 52) e).
        - apply W_mono_e; unfold G; lia.
        - apply W_mono; [unfold G; lia|exact Hn]. }
      assert (W 9 0 < W (2 ^ 52) 0).
      { unfold W. pose proof (pow2_pos (0 - G) ltac:(unfold G; lia)).
        change (2 ^ 52) with 4503599627370496. nia. }
      lia.
    + cbn [cond_Zopp] in *. rewrite Z.shiftr_div_pow2 in * by lia.
      assert (Hq : 0 <= Z.pos m / 2 ^ (- e) <= Z.pos m).
      { split; [apply Z.div_pos; [lia|apply pow2_pos; lia]|].
        apply Z.div_le_upper_bound; [apply pow2_pos; lia|].
        pose proof (pow2_pos (- e) ltac:(lia)). nia. }
      destruct (Z.pos m / 2 ^ (- e)) as [|p|p] eqn:Ep; try lia.
      * exists O. split; [lia|reflexivity].
      * cbn [binary_normalize] in *.
        pose proof (binary_round_spec false p 0 ltac:(unfold G; lia)) as HM.
        rewrite roundValue_integer in HM by lia.
        pose proof (Mag_lt _ _ _ _ HM nine_Mag Hlt) as H.
        assert (Z.pos p < 9).
        { unfold W in H. pose proof (pow2_pos (0 - G) ltac:(unfold G; lia)).
          nia. }
        exists (Z.to_nat (Z.pos p)). split; [lia|].
        apply array_index_small; [exact HM|lia].
Qed.

Lemma Mag_not_nan s x w : Mag s x w -> is_nan x = false.
Proof. destruct x; cbn [Mag]; try reflexivity. tauto. Qed.

Lemma floor_Mag x w :
  Mag false x w -> exists w', Mag false (Math_floor x) w'.
Proof.
  intros Hx. destruct x as [s|s| |s m e]; try (exfalso; exact Hx).
  - exists 0. reflexivity.
  - exists w. exact Hx.
  - pose proof Hx as (-> & Hb & HW). cbn [Math_floor].
    destruct (Z.leb_spec 0 e) as [He0|He0]; [eauto|].
    cbn [cond_Zopp]. rewrite Z.shiftr_div_pow2 by lia.
    assert (Hq : 0 <= Z.pos m / 2 ^ (- e)).
    { apply Z.div_pos; [lia|]. apply pow2_pos. lia. }
    destruct (Z.pos m / 2 ^ (- e)) as [|p|p] eqn:Ep; try lia.
    + exists 0. reflexivity.
    + cbn [binary_normalize]. eexists. apply binary_round_spec. unfold G; lia.
Qed.

Lemma div_nonneg_Mag x wx my ey :
  Mag false x wx -> is_finite x = true ->
  bounded prec emax my ey = true ->
  exists w, Mag false (x / S754_finite false my ey)%js w.
Proof.
  intros Hx Fx Hby. destruct x as [s|s| |s m e]; try discriminate Fx.
  - exists 0. reflexivity.
  - destruct Hx as (-> & Hbx & _).
    destruct (div_value m e my ey Hbx Hby)
      as (q & e' & q' & _ & _ & _ & _ & _ & _ & _ & HM).
    eauto.
Qed.

Lemma zero_Mag : Mag false (#0)%js 0.
Proof. reflexivity. Qed.

End RoundingFacts.

(** ** Validation *)

Module ValidationFacts.

Import JS MonteCarloSimulator Contract.

Lemma validateInputs_error_only (st : State) :
  exists msg, snd (validateInputs st) = setInputError msg st.
Proof.
  unfold validateInputs.
  repeat match goal with
         | |- context [if ?b then _ else _] => destruct b
         end; eexists; reflexivity.
Qed.

Lemma validateInputs_rejected_message (st : State) :
  fst (validateInputs st) = false ->
  inputError (snd (validateInputs st)) <> ""%string.
Proof.
  unfold validateInputs.
  repeat match goal with
         | |- context [if ?b then _ else _] => destruct b
         end; simpl; intros H; try discriminate H; intros E; discriminate E.
Qed.

Lemma validateInputs_accepted_message (st : State) :
  fst (validateInputs st) = true ->
  inputError (snd (validateInputs st)) = ""%string.
Proof.
  unfold validateInputs.
  repeat match goal with
         | |- context [if ?b then _ else _] => destruct b
         end; simpl; intros H; try discriminate H; reflexivity.
Qed.

Lemma validateInputs_false_iff (st : State) :
  fst (validateInputs st) = false <-> violatesPrecondition st.
Proof.
  unfold validateInputs, violatesPrecondition, negativeDuration, minAboveMax,
    trialsOutOfRange.
  destruct (minDuration (taskA st) <? #0)%js;
  destruct (maxDuration (taskA st) <? #0)%js;
  destruct (minDuration (taskB st) <? #0)%js;
  destruct (maxDuration (taskB st) <? #0)%js;
  destruct (minDuration (taskA st) >? maxDuration (taskA st))%js;
  destruct (minDuration (taskB st) >? maxDuration (taskB st))%js;
  destruct (availableHours st <=? #0)%js;
  destruct (trials st <? #100)%js;
  destruct (trials st >? #10000)%js;
  simpl; intuition congruence.
Qed.

(** On numbers, [y <= x] is the negation of [x < y]. *)
Lemma le_negb_lt (x y : number) :
  is_nan x = false -> is_nan y = false ->
  (y <=? x)%js = negb (x <? y)%js.
Proof.
  intros Hx Hy. destruct (x <? y)%js eqn:E; cbn [negb].
  - apply (NumberFacts.lt_not_ge x y E).
  - apply RoundingFacts.lt_false_le; assumption.
Qed.

Lemma lt_negb_le (x y : number) :
  is_nan x = false -> is_nan y = false ->
  (x <? y)%js = negb (y <=? x)%js.
Proof.
  intros Hx Hy. rewrite (le_negb_lt x y Hx Hy).
  destruct (x <? y)%js; reflexivity.
Qed.

(** Closes an equivalence both sides of which are refuted by an equation
    between distinct booleans. *)
Ltac rejected :=
  split; intros H;
  [discriminate H
  |repeat match goal with
          | H : _ /\ _ |- _ => destruct H
          end; discriminate].

Lemma validateInputs_true_iff (st : State) :
  inputsAreNumbers st ->
  (fst (validateInputs st) = true <-> meetsPrecondition st).
Proof.
  intros (N1 & N2 & N3 & N4 & N5 & N6).
  assert (Z0 : is_nan (#0)%js = false) by reflexivity.
  assert (Z1 : is_nan (#100)%js = false) by reflexivity.
  assert (Z2 : is_nan (#10000)%js = false) by reflexivity.
  unfold meetsPrecondition, durationsInOrder, validateInputs.
  change gt with (fun x y : number => (y <? x)%js). cbv beta.
  rewrite (le_negb_lt _ _ N1 Z0), (le_negb_lt _ _ N2 Z0),
    (le_negb_lt _ _ N3 Z0), (le_negb_lt _ _ N4 Z0),
    (le_negb_lt _ _ N2 N1), (le_negb_lt _ _ N4 N3),
    (lt_negb_le _ _ Z0 N5), (le_negb_lt _ _ N6 Z1), (le_negb_lt _ _ Z2 N6).
  destruct (minDuration (taskA st) <? #0)%js; cbn [orb negb fst];
    [rejected|].
  destruct (maxDuration (taskA st) <? #0)%js; cbn [orb negb fst];
    [rejected|].
  destruct (minDuration (taskB st) <? #0)%js; cbn [orb negb fst];
    [rejected|].
  destruct (maxDuration (taskB st) <? #0)%js; cbn [orb negb fst];
    [rejected|].
  destruct (maxDuration (taskA st) <? minDuration (taskA st))%js;
    cbn [orb negb fst]; [rejected|].
  destruct (maxDuration (taskB st) <? minDuration (taskB st))%js;
    cbn [orb negb fst]; [rejected|].
  destruct (availableHours st <=? #0)%js; cbn [orb negb fst]; [rejected|].
  destruct (trials st <? #100)%js; cbn [orb negb fst]; [rejected|].
  destruct (#10000 <? trials st)%js; cbn [orb negb fst]; [rejected|].
  split; [intros _|reflexivity]. repeat split; reflexivity.
Qed.

(** A trial count that is not a number passes every test of
    validateInputs: each comparison with NaN is false. *)
Example validateInputs_accepts_NaN_trials :
  let st := {| taskA := DEFAULT_TASK_A; taskB := DEFAULT_TASK_B;
               availableHours := DEFAULT_AVAILABLE_HOURS; trials := NaN;
               inputError := ""; result := None; isAnimating := false;
               animationProgress := (#0)%js |} in
  fst (validateInputs st) = true /\ ~ violatesPrecondition st /\
  ~ meetsPrecondition st.
Proof.
  cbv zeta. split; [vm_compute; reflexivity|]. split.
  - intros V. apply validateInputs_false_iff in V. vm_compute in V.
    discriminate V.
  - intros (_ & _ & _ & H & _). vm_compute in H. discriminate H.
Qed.

(** C3.  validateInputs returns false exactly when some duration of task
    A or task B is negative, or the minimum exceeds the maximum for
    either task, or the available hours are at most zero, or the trial
    count is below 100 or above 10000; on every other input it returns
    true.  When the six inputs are numbers, the accepted inputs are
    exactly those with 0 <= min <= max for both tasks, a positive
    threshold and a trial count within [100, 10000]. *)
Theorem validateInputs_rejects_exactly (st : State) :
  (fst (validateInputs st) = false <-> violatesPrecondition st) /\
  (fst (validateInputs st) = true <-> ~ violatesPrecondition st) /\
  (inputsAreNumbers st ->
   (fst (validateInputs st) = true <-> meetsPrecondition st)).
Proof.
  pose proof (validateInputs_false_iff st) as H.
  split; [exact H|].
  split; [|apply validateInputs_true_iff].
  destruct (fst (validateInputs st)); split; intros; try congruence.
  - intros V. apply H in V. discriminate V.
  - exfalso. tauto.
Qed.

End ValidationFacts.

(** ** runSimulation and the animation interval *)

Module RunFacts.

Import JS MonteCarloSimulator Contract.

Ltac world_simpl :=
  cbn [ui intervals nextIntervalId rng engineCalls running finished setUi
       setAnimationProgress setResult setIsAnimating setInputError
       animationProgress result isAnimating inputError taskA taskB
       availableHours trials find intervalId capturedTaskA capturedTaskB
       capturedAvailableHours capturedTrials fst snd].

Lemma progress_below_100 (k : nat) :
  (k < 25)%nat -> (progressAfter k >=? #100)%js = false.
Proof.
  intros Hk.
  assert (H : forallb (fun k => negb (progressAfter k >=? #100)%js) (seq 0 25)
              = true) by (vm_compute; reflexivity).
  rewrite forallb_forall in H.
  specialize (H k). rewrite in_seq in H.
  apply negb_true_iff, H. lia.
Qed.

Lemma progress_reaches_100 : (progressAfter 25 >=? #100)%js = true.
Proof. vm_compute. reflexivity. Qed.

Section WithEngine.

Context {Rng : Type}.
Variable engine :
  Task -> Task -> number -> number -> Rng -> SimulationResult * Rng.

Lemma runSimulation_rejected (w : @World Rng) :
  fst (validateInputs (ui w)) = false ->
  runSimulation w = setUi (snd (validateInputs (ui w))) w.
Proof.
  unfold runSimulation. destruct (validateInputs (ui w)) as [ok st]. simpl.
  intros ->. reflexivity.
Qed.

Lemma runSimulation_accepted (w : @World Rng) :
  fst (validateInputs (ui w)) = true ->
  runSimulation w = running w 0.
Proof.
  intros H. unfold runSimulation.
  pose proof (ValidationFacts.validateInputs_accepted_message _ H) as Hmsg.
  destruct (ValidationFacts.validateInputs_error_only (ui w)) as [msg Hst].
  destruct (validateInputs (ui w)) as [ok st]. simpl in *. subst ok st.
  simpl in Hmsg. subst msg. reflexivity.
Qed.

Lemma tick_running (w : @World Rng) (k : nat) :
  (k < 25)%nat ->
  tick engine (nextIntervalId w) (running w k) = running w (S k).
Proof.
  intros Hk. unfold tick. world_simpl. rewrite Nat.eqb_refl.
  rewrite (progress_below_100 k Hk). reflexivity.
Qed.

Lemma ticks_running (w : @World Rng) (k : nat) :
  (k <= 25)%nat ->
  ticks engine (nextIntervalId w) k (running w 0) = running w k.
Proof.
  induction k as [|k IH]; intros Hk; [reflexivity|].
  unfold ticks in *. rewrite Nat.iter_succ, IH by lia.
  apply tick_running. lia.
Qed.

Lemma clearInterval_fresh (id : nat) (ivs : list Interval) :
  (forall iv, In iv ivs -> (intervalId iv < id)%nat) ->
  clearInterval id ivs = ivs.
Proof.
  induction ivs as [|iv ivs IH]; intros H; [reflexivity|].
  simpl. destruct (Nat.eqb_spec (intervalId iv) id) as [E|E].
  - specialize (H iv (or_introl eq_refl)). lia.
  - simpl. f_equal. apply IH. intros iv' Hin. apply H. now right.
Qed.

Lemma find_fresh (id : nat) (ivs : list Interval) :
  (forall iv, In iv ivs -> (intervalId iv < id)%nat) ->
  find (fun iv => Nat.eqb (intervalId iv) id) ivs = None.
Proof.
  induction ivs as [|iv ivs IH]; intros H; [reflexivity|].
  simpl. destruct (Nat.eqb_spec (intervalId iv) id) as [E|E].
  - specialize (H iv (or_introl eq_refl)). lia.
  - apply IH. intros iv' Hin. apply H. now right.
Qed.

Lemma tick_finishes (w : @World Rng) :
  freshIds w ->
  tick engine (nextIntervalId w) (running w 25) = finished engine w.
Proof.
  intros Hfresh. unfold tick. world_simpl. rewrite Nat.eqb_refl.
  rewrite progress_reaches_100. unfold finished. cbv zeta. world_simpl.
  destruct (engine (taskA (ui w)) (taskB (ui w)) (availableHours (ui w))
              (trials (ui w)) (rng w)) as [r g]. world_simpl.
  unfold clearInterval. cbn [filter intervalId]. rewrite Nat.eqb_refl.
  cbn [negb]. fold (clearInterval (nextIntervalId w) (intervals w)).
  rewrite (clearInterval_fresh _ _ Hfresh). reflexivity.
Qed.

Lemma tick_finished (w : @World Rng) :
  freshIds w ->
  tick engine (nextIntervalId w) (finished engine w) = finished engine w.
Proof.
  intros Hfresh. unfold tick. world_simpl.
  rewrite (find_fresh _ _ Hfresh). reflexivity.
Qed.

Lemma ticks_split (id : nat) (n m : nat) (w : @World Rng) :
  ticks engine id (n + m) w = ticks engine id n (ticks engine id m w).
Proof. unfold ticks. apply Nat.iter_add. Qed.

Lemma ticks_finished (w : @World Rng) (n : nat) :
  freshIds w ->
  ticks engine (nextIntervalId w) n (finished engine w) = finished engine w.
Proof.
  intros Hfresh. induction n as [|n IH]; [reflexivity|].
  unfold ticks in *. rewrite Nat.iter_succ, IH.
  now apply tick_finished.
Qed.

Lemma ticks_after_26 (w : @World Rng) (n : nat) :
  freshIds w -> (26 <= n)%nat ->
  ticks engine (nextIntervalId w) n (running w 0) = finished engine w.
Proof.
  intros Hfresh Hn.
  replace n with ((n - 26) + (1 + 25))%nat by lia.
  rewrite ticks_split, ticks_split, (ticks_running w 25) by lia.
  change (ticks engine (nextIntervalId w) 1 (running w 25))
    with (tick engine (nextIntervalId w) (running w 25)).
  rewrite tick_finishes by assumption.
  now apply ticks_finished.
Qed.

Lemma tick_no_interval (id : nat) (w : @World Rng) :
  intervals w = [] -> tick engine id w = w.
Proof. intros H. unfold tick. rewrite H. reflexivity. Qed.

Lemma ticks_no_interval (ids : list nat) (w : @World Rng) :
  intervals w = [] ->
  fold_left (fun w id => tick engine id w) ids w = w.
Proof.
  intros H. induction ids as [|id ids IH]; [reflexivity|].
  simpl. rewrite tick_no_interval by assumption. exact IH.
Qed.

(** C4.  On inputs that violate a precondition, runSimulation leaves a
    non-empty error message, draws nothing from the random source, does
    not call the engine, registers no interval and leaves the stored
    result as it was; if no interval was registered before, no later
    firing calls the engine or changes the result either. *)
Theorem runSimulation_invalid_inputs (w : @World Rng) :
  violatesPrecondition (ui w) ->
  let w' := runSimulation w in
  inputError (ui w') <> ""%string /\
  rng w' = rng w /\
  engineCalls w' = engineCalls w /\
  intervals w' = intervals w /\
  result (ui w') = result (ui w) /\
  (intervals w = [] ->
   forall ids,
     let w'' := fold_left (fun w id => tick engine id w) ids w' in
     rng w'' = rng w /\
     engineCalls w'' = engineCalls w /\
     result (ui w'') = result (ui w)).
Proof.
  intros V. apply ValidationFacts.validateInputs_false_iff in V.
  cbv zeta. rewrite (runSimulation_rejected w V).
  pose proof (ValidationFacts.validateInputs_rejected_message _ V) as Hmsg.
  destruct (ValidationFacts.validateInputs_error_only (ui w)) as [msg Hst].
  rewrite Hst in *. unfold setUi, setInputError in *. world_simpl.
  cbn [inputError] in Hmsg.
  repeat split; try assumption.
  all: rewrite ticks_no_interval by assumption; reflexivity.
Qed.

(** C9, as amended.  On accepted inputs runSimulation itself calls
    nothing: it registers the animation interval.  While the first 25
    firings of that interval raise the progress from 0 to 100 the engine
    is not called and the stored result is unchanged; the 26th firing
    calls the engine once, synchronously, with the inputs captured when
    runSimulation was called, stores its result and clears the interval;
    later firings change nothing.  The result stored is the engine's
    output on the captured inputs and the random source, whatever the
    progress. *)
Theorem engine_called_when_animation_completes (w : @World Rng) :
  fst (validateInputs (ui w)) = true ->
  freshIds w ->
  let id := nextIntervalId w in
  let out := engine (taskA (ui w)) (taskB (ui w)) (availableHours (ui w))
               (trials (ui w)) (rng w) in
  (forall n, (n <= 25)%nat ->
     let w' := ticks engine id n (runSimulation w) in
     engineCalls w' = engineCalls w /\
     rng w' = rng w /\
     result (ui w') = result (ui w) /\
     animationProgress (ui w') = progressAfter n) /\
  (forall n, (26 <= n)%nat ->
     let w' := ticks engine id n (runSimulation w) in
     engineCalls w' =
       engineCalls w ++
       [{| argTaskA := taskA (ui w);
           argTaskB := taskB (ui w);
           argThreshold := availableHours (ui w);
           argTrials := trials (ui w) |}] /\
     rng w' = snd out /\
     result (ui w') = Some (fst out) /\
     isAnimating (ui w') = false /\
     intervals w' = intervals w).
Proof.
  intros Hok Hfresh. cbv zeta. rewrite (runSimulation_accepted w Hok).
  split; intros n Hn.
  - rewrite (ticks_running w n Hn). world_simpl. repeat split; reflexivity.
  - rewrite (ticks_after_26 w n Hfresh Hn). world_simpl.
    repeat split; reflexivity.
Qed.

Lemma freshIds_runSimulation (w : @World Rng) :
  freshIds w -> freshIds (runSimulation w).
Proof.
  intros H. unfold runSimulation.
  destruct (validateInputs (ui w)) as [[|] st]; cbn [negb];
    intros iv Hin; cbn [intervals nextIntervalId setUi] in *.
  - destruct Hin as [<-|Hin]; cbn [intervalId]; [lia|].
    specialize (H iv Hin). lia.
  - apply H, Hin.
Qed.

Lemma freshIds_tick (id : nat) (w : @World Rng) :
  freshIds w -> freshIds (tick engine id w).
Proof.
  intros H. unfold tick.
  destruct (find _ (intervals w)) as [iv0|]; [|exact H].
  destruct (animationProgress (ui w) >=? #100)%js.
  - destruct (engine _ _ _ _ _) as [r g].
    intros iv Hin. cbn [intervals nextIntervalId] in *.
    unfold clearInterval in Hin. apply filter_In in Hin. apply H, Hin.
  - exact H.
Qed.

End WithEngine.

(** Witnesses on the reference engine. *)

Lemma zeroTrials_violates :
  violatesPrecondition (ui ReferenceEngine.zeroTrialsWorld).
Proof.
  unfold violatesPrecondition, trialsOutOfRange.
  do 5 right. left. vm_compute. reflexivity.
Defined.

Lemma minAboveMax_violates :
  violatesPrecondition (ui ReferenceEngine.minAboveMaxWorld).
Proof.
  unfold violatesPrecondition, minAboveMax.
  do 2 right. left. vm_compute. reflexivity.
Defined.

Lemma initialWorld_accepted :
  fst (validateInputs (ui ReferenceEngine.initialWorld)) = true.
Proof. vm_compute. reflexivity. Defined.

Lemma initialWorld_fresh : freshIds ReferenceEngine.initialWorld.
Proof. intros iv []. Defined.

Lemma runSimulation_invalid_inputs_witness :
  violatesPrecondition (ui ReferenceEngine.zeroTrialsWorld) /\
  (let w := ReferenceEngine.zeroTrialsWorld in
   let w' := runSimulation w in
   inputError (ui w') <> ""%string /\
   rng w' = rng w /\
   engineCalls w' = engineCalls w /\
   intervals w' = intervals w /\
   result (ui w') = result (ui w) /\
   (intervals w = [] ->
    forall ids,
      let w'' :=
        fold_left
          (fun w id => tick ReferenceEngine.runMonteCarloSimulation id w)
          ids w' in
      rng w'' = rng w /\
      engineCalls w'' = engineCalls w /\
      result (ui w'') = result (ui w))).
Proof.
  split; [exact zeroTrials_violates|].
  exact (runSimulation_invalid_inputs ReferenceEngine.runMonteCarloSimulation
           ReferenceEngine.zeroTrialsWorld zeroTrials_violates).
Defined.

(** The second example of the specification: task A's minimum above its
    maximum. *)
Example runSimulation_minAboveMax :
  let w' := runSimulation ReferenceEngine.minAboveMaxWorld in
  inputError (ui w') =
    "Task A minimum duration must be less than or equal to maximum"%string /\
  engineCalls w' = [] /\ intervals w' = [] /\ result (ui w') = None /\
  rng w' = rng ReferenceEngine.minAboveMaxWorld.
Proof. vm_compute. repeat split; reflexivity. Qed.

Lemma engine_called_when_animation_completes_witness :
  fst (validateInputs (ui ReferenceEngine.initialWorld)) = true /\
  freshIds ReferenceEngine.initialWorld /\
  (let w := ReferenceEngine.initialWorld in
   let engine := ReferenceEngine.runMonteCarloSimulation in
   let id := nextIntervalId w in
   let out := engine (taskA (ui w)) (taskB (ui w)) (availableHours (ui w))
                (trials (ui w)) (rng w) in
   (forall n, (n <= 25)%nat ->
      let w' := ticks engine id n (runSimulation w) in
      engineCalls w' = engineCalls w /\
      rng w' = rng w /\
      result (ui w') = result (ui w) /\
      animationProgress (ui w') = progressAfter n) /\
   (forall n, (26 <= n)%nat ->
      let w' := ticks engine id n (runSimulation w) in
      engineCalls w' =
        engineCalls w ++
        [{| argTaskA := taskA (ui w);
            argTaskB := taskB (ui w);
            argThreshold := availableHours (ui w);
            argTrials := trials (ui w) |}] /\
      rng w' = snd out /\
      result (ui w') = Some (fst out) /\
      isAnimating (ui w') = false /\
      intervals w' = intervals w)).
Proof.
  split; [exact initialWorld_accepted|].
  split; [exact initialWorld_fresh|].
  exact (engine_called_when_animation_completes
           ReferenceEngine.runMonteCarloSimulation ReferenceEngine.initialWorld
           initialWorld_accepted initialWorld_fresh).
Defined.

(** C9, as stated, fails.  With the default inputs and the reference
    engine, runSimulation returns without having called the engine;
    25 firings of the animation interval later it has still not been
    called, and the 26th firing calls it.  The engine call is therefore
    not decoupled from the animation. *)
Lemma engine_call_waits_for_animation :
  let engine := ReferenceEngine.runMonteCarloSimulation in
  let w := ReferenceEngine.initialWorld in
  engineCalls (runSimulation w) = [] /\
  result (ui (runSimulation w)) = None /\
  engineCalls (ticks engine 0 25 (runSimulation w)) = [] /\
  result (ui (ticks engine 0 25 (runSimulation w))) = None /\
  List.length (engineCalls (ticks engine 0 26 (runSimulation w))) = 1%nat /\
  result (ui (ticks engine 0 26 (runSimulation w))) <> None /\
  ~ engineCallDecoupledFromAnimation engine.
Proof.
  cbv zeta.
  assert (H0 : engineCalls (runSimulation ReferenceEngine.initialWorld) = [])
    by (vm_compute; reflexivity).
  split; [exact H0|].
  split; [vm_compute; reflexivity|].
  split; [vm_compute; reflexivity|].
  split; [vm_compute; reflexivity|].
  split; [vm_compute; reflexivity|].
  split; [vm_compute; discriminate|].
  intros H.
  destruct (H ReferenceEngine.initialWorld initialWorld_accepted)
    as [[call Hcall] _].
  rewrite H0 in Hcall. discriminate Hcall.
Qed.

End RunFacts.

(** ** The interpretation banding *)

Module InterpretationFacts.

Import JS MonteCarloSimulator.

Lemma lit_0_8_value : lit_0_8 = (#8 / #10)%js.
Proof. vm_compute. reflexivity. Qed.

Lemma lit_0_5_value : lit_0_5 = (#5 / #10)%js.
Proof. vm_compute. reflexivity. Qed.

(** C8.  The band depends on the probability alone: at least 0.8 gives
    the high band, at least 0.5 and below 0.8 the moderate band, below
    0.5 the low band. *)
Theorem band_from_probability (r : SimulationResult) :
  ((probability r >=? lit_0_8)%js = true -> interpretationBand r = High) /\
  ((probability r >=? lit_0_5)%js = true ->
   (probability r <? lit_0_8)%js = true -> interpretationBand r = Moderate) /\
  ((probability r <? lit_0_5)%js = true -> interpretationBand r = Low) /\
  (forall r', probability r' = probability r ->
              interpretationBand r' = interpretationBand r).
Proof.
  unfold interpretationBand. repeat split.
  - intros ->. reflexivity.
  - intros H5 H8. rewrite (NumberFacts.lt_not_ge _ _ H8), H5. reflexivity.
  - intros H5.
    rewrite (NumberFacts.lt_not_ge _ _ H5).
    destruct (probability r >=? lit_0_8)%js eqn:H8; [|reflexivity].
    exfalso.
    assert (H : (lit_0_8 <? lit_0_5)%js = true)
      by (apply (NumberFacts.le_lt_trans _ (probability r)); assumption).
    vm_compute in H. discriminate H.
  - intros r' ->. reflexivity.
Qed.

End InterpretationFacts.

(** ** The histogram *)

Module HistogramFacts.

Import JS Rounding RoundingFacts MonteCarloSimulator Contract.

(** *** The array of counters *)

Lemma incrementAt_length (k : nat) (bins : list nat) :
  List.length (incrementAt k bins) = List.length bins.
Proof.
  revert k. induction bins as [|c bins IH]; intros [|k]; simpl; auto.
Qed.

Lemma increment_length (bins : list nat) (key : number) :
  List.length (increment bins key) = List.length bins.
Proof.
  unfold increment. destruct (array_index key); auto using incrementAt_length.
Qed.

Lemma fold_increment_length (f : number -> number) (ds : list number)
  (bins : list nat) :
  List.length (fold_left (fun bins d => increment bins (f d)) ds bins)
  = List.length bins.
Proof.
  revert bins. induction ds as [|d ds IH]; intros bins; simpl; [reflexivity|].
  rewrite IH. apply increment_length.
Qed.

Lemma fillBins_length (minD binSize : number) (ds : list number) :
  List.length (fillBins minD binSize ds) = 10%nat.
Proof. unfold fillBins. now rewrite fold_increment_length. Qed.

Lemma nth_incrementAt (j k : nat) (bins : list nat) :
  nth k (incrementAt j bins) O =
  (nth k bins O +
   (if Nat.eqb j k && Nat.ltb j (List.length bins) then 1 else 0))%nat.
Proof.
  revert j k. induction bins as [|c bins IH]; intros j k.
  - destruct j, k; simpl; rewrite ?andb_false_r; reflexivity.
  - destruct j as [|j], k as [|k]; simpl; try lia.
    rewrite IH. reflexivity.
Qed.

Lemma list_sum_incrementAt (j : nat) (bins : list nat) :
  list_sum (incrementAt j bins) =
  (list_sum bins + (if Nat.ltb j (List.length bins) then 1 else 0))%nat.
Proof.
  revert j. induction bins as [|c bins IH]; intros j.
  - destruct j; reflexivity.
  - destruct j as [|j]; simpl; try lia.
    rewrite IH. change (S j <? S (List.length bins))%nat
      with (j <? List.length bins)%nat.
    destruct (j <? List.length bins)%nat; lia.
Qed.

(** *** The bins returned *)

Lemma mapIndexed_length {A B : Type} (f : nat -> A -> B) (i : nat)
  (l : list A) :
  List.length (mapIndexed f i l) = List.length l.
Proof. revert i. induction l; intros; simpl; auto. Qed.

Lemma mapIndexed_nth_error {A B : Type} (f : nat -> A -> B) (i k : nat)
  (l : list A) :
  nth_error (mapIndexed f i l) k = option_map (f (i + k)%nat) (nth_error l k).
Proof.
  revert i k. induction l as [|a l IH]; intros i [|k]; simpl; try reflexivity.
  - now rewrite Nat.add_0_r.
  - rewrite IH. now rewrite Nat.add_succ_r.
Qed.

Lemma mapIndexed_map {A B C : Type} (f : nat -> A -> B) (g : B -> C)
  (h : A -> C) (i : nat) (l : list A) :
  (forall j a, g (f j a) = h a) ->
  map g (mapIndexed f i l) = map h l.
Proof.
  intros H. revert i. induction l as [|a l IH]; intros i; simpl;
    [reflexivity|]. now rewrite H, IH.
Qed.

Lemma getHistogramData_length (r : SimulationResult) :
  List.length (getHistogramData (Some r)) = 10%nat.
Proof.
  unfold getHistogramData. rewrite mapIndexed_length. apply fillBins_length.
Qed.

Lemma getHistogramData_counts (r : SimulationResult) :
  map count (getHistogramData (Some r)) =
  fillBins (Math_min (durations r))
    ((Math_max (durations r) - Math_min (durations r)) / numBins)%js
    (durations r).
Proof.
  unfold getHistogramData.
  rewrite (mapIndexed_map _ count (fun c => c)); [apply map_id|reflexivity].
Qed.

Lemma getHistogramData_nth (r : SimulationResult) (i : nat) :
  (i < 10)%nat ->
  let minD := Math_min (durations r) in
  let binSize := ((Math_max (durations r) - minD) / numBins)%js in
  nth_error (getHistogramData (Some r)) i =
  Some (makeBin r minD binSize i
          (nth i (fillBins minD binSize (durations r)) O)).
Proof.
  intros Hi. cbv zeta. unfold getHistogramData.
  rewrite mapIndexed_nth_error.
  rewrite (nth_error_nth' _ O) by (rewrite fillBins_length; exact Hi).
  reflexivity.
Qed.

(** *** Counting *)

Lemma fold_increment_nth (minD binSize : number) (k : nat)
  (ds : list number) (bins : list nat) :
  (k < List.length bins)%nat ->
  nth k
    (fold_left (fun bins d => increment bins (binIndex minD binSize d)) ds bins)
    O
  = (nth k bins O + samplesInBin minD binSize k ds)%nat.
Proof.
  revert bins. induction ds as [|d ds IH]; intros bins Hk.
  - simpl. unfold samplesInBin. simpl. lia.
  - cbn [fold_left]. rewrite IH by (now rewrite increment_length).
    unfold samplesInBin, increment. cbn [filter].
    destruct (array_index (binIndex minD binSize d)) as [j|].
    + rewrite nth_incrementAt.
      destruct (Nat.eqb_spec j k) as [->|Hjk]; cbn [andb List.length].
      * apply Nat.ltb_lt in Hk. rewrite Hk. lia.
      * lia.
    + lia.
Qed.

Lemma fillBins_nth (minD binSize : number) (k : nat) (ds : list number) :
  (k < 10)%nat ->
  nth k (fillBins minD binSize ds) O = samplesInBin minD binSize k ds.
Proof.
  intros Hk. unfold fillBins. rewrite fold_increment_nth.
  - destruct k as [|[|[|[|[|[|[|[|[|[|k]]]]]]]]]]; simpl; lia.
  - simpl. exact Hk.
Qed.

Lemma fold_increment_none (f : number -> number) (ds : list number)
  (bins : list nat) :
  (forall d, In d ds -> array_index (f d) = None) ->
  fold_left (fun bins d => increment bins (f d)) ds bins = bins.
Proof.
  revert bins. induction ds as [|d ds IH]; intros bins H; [reflexivity|].
  cbn [fold_left]. unfold increment at 2.
  rewrite (H d (or_introl eq_refl)). apply IH.
  intros d' Hin. apply H. now right.
Qed.

(** *** Identical durations *)

Lemma lt_irrefl (x : number) : (x <? x)%js = false.
Proof.
  destruct (x <? x)%js eqn:E; [|reflexivity].
  pose proof (NumberFacts.lt_not_ge _ _ E) as H.
  apply NumberFacts.lt_le in E. unfold ge in H. unfold le in E. congruence.
Qed.

Lemma min_step_Infinity (d : number) : min_step Infinity d = d.
Proof. destruct d as [[|]|[|]| |[|] m e]; reflexivity. Qed.

Lemma max_step_NegInfinity (d : number) : max_step NegInfinity d = d.
Proof. destruct d as [[|]|[|]| |[|] m e]; reflexivity. Qed.

Lemma min_step_same (d : number) : min_step d d = d.
Proof.
  unfold min_step. destruct (is_nan d) eqn:E.
  - destruct d; try discriminate E. reflexivity.
  - rewrite lt_irrefl. destruct d as [[|]|[|]| |[|] m e]; reflexivity.
Qed.

Lemma max_step_same (d : number) : max_step d d = d.
Proof.
  unfold max_step. destruct (is_nan d) eqn:E.
  - destruct d; try discriminate E. reflexivity.
  - unfold gt. fold (lt d d). rewrite lt_irrefl.
    destruct d as [[|]|[|]| |[|] m e]; reflexivity.
Qed.

Lemma fold_same (f : number -> number -> number) (d : number) (n : nat) :
  f d d = d -> fold_left f (repeat d n) d = d.
Proof.
  intros H. induction n as [|n IH]; [reflexivity|]. simpl. now rewrite H.
Qed.

Lemma Math_min_identical (d : number) (n : nat) :
  Math_min (repeat d (S n)) = d.
Proof.
  unfold Math_min. cbn [repeat fold_left]. rewrite min_step_Infinity.
  apply fold_same, min_step_same.
Qed.

Lemma Math_max_identical (d : number) (n : nat) :
  Math_max (repeat d (S n)) = d.
Proof.
  unfold Math_max. cbn [repeat fold_left]. rewrite max_step_NegInfinity.
  apply fold_same, max_step_same.
Qed.

(** A number minus itself is +0, or NaN when it is not finite. *)
Lemma sub_same (d : number) :
  (d - d)%js = S754_zero false \/ (d - d)%js = NaN.
Proof.
  destruct d as [[|]|[|]| |s m e]; cbn; auto.
  left. unfold sub, SFsub. rewrite Z.sub_diag. reflexivity.
Qed.

(** With all durations equal the bin size is +0 or NaN, the quotient of
    the index expression is 0/0 or involves NaN, and the index is NaN:
    it names no element of the array. *)
Lemma binIndex_identical (d : number) :
  binIndex d ((d - d) / numBins)%js d = NaN.
Proof.
  unfold binIndex.
  destruct (sub_same d) as [-> | ->]; reflexivity.
Qed.

Lemma fillBins_identical (d : number) (n : nat) :
  fillBins d ((d - d) / numBins)%js (repeat d n) = repeat O 10.
Proof.
  unfold fillBins. apply fold_increment_none.
  intros d' Hin. apply repeat_spec in Hin. subst d'.
  now rewrite binIndex_identical.
Qed.

Lemma identical_counts (d : number) (n : nat)
  (successes total p thr : number) :
  map count
    (getHistogramData (Some (Samples.identical d n successes total p thr)))
  = repeat O 10.
Proof.
  rewrite getHistogramData_counts.
  unfold Samples.identical. cbn [durations].
  rewrite Math_min_identical, Math_max_identical.
  apply fillBins_identical.
Qed.

(** C1.  When all durations are equal the binning terminates without a
    fault, but no sample is counted: every one of the ten bins, bin 0
    included, reports a count of 0. *)
Theorem identical_durations_fill_no_bin (d : number) (n : nat)
  (successes total p thr : number) :
  let r := Samples.identical d n successes total p thr in
  List.length (getHistogramData (Some r)) = 10%nat /\
  map count (getHistogramData (Some r)) = repeat O 10 /\
  nth O (map count (getHistogramData (Some r))) O <> List.length (durations r).
Proof.
  cbv zeta. rewrite identical_counts. split; [apply getHistogramData_length|].
  split; [reflexivity|].
  unfold Samples.identical. cbn [durations]. rewrite repeat_length.
  cbn. lia.
Qed.

(** C2.  When all durations are equal the bin counts sum to 0, not to
    the number of trials. *)
Theorem identical_durations_counts_sum_to_zero (d : number) (n : nat)
  (successes total p thr : number) :
  let r := Samples.identical d n successes total p thr in
  list_sum (map count (getHistogramData (Some r))) = O /\
  List.length (durations r) = S n.
Proof.
  cbv zeta. rewrite identical_counts. split; [reflexivity|].
  unfold Samples.identical. cbn [durations]. apply repeat_length.
Qed.

Example threeFives_counts :
  map count (getHistogramData (Some Samples.threeFives))
  = [0; 0; 0; 0; 0; 0; 0; 0; 0; 0]%nat.
Proof. vm_compute. reflexivity. Qed.

Example spread_counts :
  map count (getHistogramData (Some Samples.spread))
  = [1; 1; 1; 1; 1; 1; 1; 1; 1; 3]%nat.
Proof. vm_compute. reflexivity. Qed.

(** *** The index expression *)

Lemma nine : (numBins - #1)%js = (#9)%js.
Proof. vm_compute. reflexivity. Qed.

Lemma array_index_nine : array_index (#9)%js = Some 9%nat.
Proof. vm_compute. reflexivity. Qed.

Lemma compare_eq_finite (x : number) s m e :
  SFcompare (S754_finite s m e) x = Some Eq -> x = S754_finite s m e.
Proof.
  destruct x as [sx|sx| |sx mx ex].
  - destruct s; discriminate.
  - destruct s, sx; discriminate.
  - discriminate.
  - rewrite NumberFacts.compare_finite.
    pose proof (NumberFacts.lex_spec e m ex mx) as H.
    destruct s, sx; try discriminate;
      destruct (lex e m ex mx); try discriminate;
      destruct H as [-> ->]; reflexivity.
Qed.

(** The clamp: a floor of at least 9 gives index 9. *)
Lemma binIndex_clamped (minD binSize d : number) :
  (Math_floor (binQuotient minD binSize d) >=? #9)%js = true ->
  binIndex minD binSize d = (#9)%js.
Proof.
  unfold binIndex, binQuotient. rewrite nine.
  generalize (Math_floor ((d - minD) / binSize)%js). intros x Hx.
  unfold Math_min. cbn [fold_left]. rewrite min_step_Infinity.
  unfold min_step.
  destruct (is_nan x) eqn:En; [destruct x; discriminate|].
  change (is_nan #9)%js with false. cbv iota.
  destruct (#9 <? x)%js eqn:E9.
  - destruct x as [[|]|[|]| |[|] m e]; reflexivity.
  - unfold ge, SFleb in Hx. unfold lt, SFltb in E9.
    destruct (SFcompare (#9)%js x) as [[| |]|] eqn:Ec; try discriminate.
    apply compare_eq_finite in Ec. subst x. reflexivity.
Qed.

(** Below the clamp the index is the floor itself. *)
Lemma binIndex_unclamped (minD binSize d : number) :
  (Math_floor (binQuotient minD binSize d) <? #9)%js = true ->
  binIndex minD binSize d = Math_floor (binQuotient minD binSize d).
Proof.
  unfold binIndex, binQuotient. rewrite nine.
  generalize (Math_floor ((d - minD) / binSize)%js). intros x Hx.
  unfold Math_min. cbn [fold_left]. rewrite min_step_Infinity.
  unfold min_step.
  destruct (is_nan x) eqn:En; [destruct x; discriminate|].
  change (is_nan #9)%js with false. cbv iota.
  pose proof (NumberFacts.lt_not_ge _ _ Hx) as Hge.
  destruct (#9 <? x)%js eqn:E9.
  - apply NumberFacts.lt_le in E9. unfold ge in Hge. unfold le in E9.
    congruence.
  - destruct x as [[|]|[|]| |[|] m e]; reflexivity.
Qed.

(** A floor that is NaN gives the index NaN, which names no element. *)
Lemma binIndex_nan (minD binSize d : number) :
  is_nan (Math_floor (binQuotient minD binSize d)) = true ->
  array_index (binIndex minD binSize d) = None.
Proof.
  unfold binIndex, binQuotient.
  generalize (Math_floor ((d - minD) / binSize)%js). intros x Hx.
  destruct x; try discriminate Hx. reflexivity.
Qed.

(** *** Minimum, maximum and the bin end points *)

Lemma min_step_spec lowest x :
  is_nan lowest = false -> is_nan x = false ->
  (min_step lowest x = x \/ min_step lowest x = lowest) /\
  (min_step lowest x <=? lowest)%js = true.
Proof.
  intros Hl Hx. unfold min_step. rewrite Hl, Hx.
  assert (H : forall r, r = (if (x <? lowest)%js then x else lowest) ->
             (r = x \/ r = lowest) /\ (r <=? lowest)%js = true).
  { intros r ->. destruct (x <? lowest)%js eqn:E.
    - split; [now left|]. now apply NumberFacts.lt_le.
    - split; [now right|]. now apply le_refl. }
  destruct x as [[|]|sx| |sx mx ex], lowest as [[|]|sy| |sy my ey];
    try (apply H; reflexivity).
  split; [now left|reflexivity].
Qed.

Lemma max_step_spec highest x :
  is_nan highest = false -> is_nan x = false ->
  (max_step highest x = x \/ max_step highest x = highest) /\
  (highest <=? max_step highest x)%js = true.
Proof.
  intros Hl Hx. unfold max_step. rewrite Hl, Hx.
  assert (H : forall r, r = (if (x >? highest)%js then x else highest) ->
             (r = x \/ r = highest) /\ (highest <=? r)%js = true).
  { intros r ->. unfold gt. fold (lt highest x).
    destruct (highest <? x)%js eqn:E.
    - split; [now left|]. now apply NumberFacts.lt_le.
    - split; [now right|]. now apply le_refl. }
  destruct x as [[|]|sx| |sx mx ex], highest as [[|]|sy| |sy my ey];
    try (apply H; reflexivity).
  split; [now left|reflexivity].
Qed.

Lemma fold_min_spec ds acc :
  is_nan acc = false -> Forall (fun d => is_nan d = false) ds ->
  let r := fold_left min_step ds acc in
  (r = acc \/ In r ds) /\ (r <=? acc)%js = true.
Proof.
  revert acc. induction ds as [|d ds IH]; intros acc Ha Hds; cbv zeta.
  - split; [now left|now apply le_refl].
  - inversion Hds as [|? ? Hd Hds']; subst. cbn [fold_left].
    destruct (min_step_spec acc d Ha Hd) as [Hc Hle].
    assert (Hn : is_nan (min_step acc d) = false)
      by (destruct Hc as [-> | ->]; assumption).
    destruct (IH (min_step acc d) Hn Hds') as [Hin Hle'].
    split.
    + destruct Hin as [E|Hin]; [|right; now right].
      rewrite E. destruct Hc as [-> | ->]; [right; now left|now left].
    + eapply NumberFacts.le_trans; eassumption.
Qed.

Lemma fold_max_spec ds acc :
  is_nan acc = false -> Forall (fun d => is_nan d = false) ds ->
  let r := fold_left max_step ds acc in
  (r = acc \/ In r ds) /\ (acc <=? r)%js = true.
Proof.
  revert acc. induction ds as [|d ds IH]; intros acc Ha Hds; cbv zeta.
  - split; [now left|now apply le_refl].
  - inversion Hds as [|? ? Hd Hds']; subst. cbn [fold_left].
    destruct (max_step_spec acc d Ha Hd) as [Hc Hle].
    assert (Hn : is_nan (max_step acc d) = false)
      by (destruct Hc as [-> | ->]; assumption).
    destruct (IH (max_step acc d) Hn Hds') as [Hin Hle'].
    split.
    + destruct Hin as [E|Hin]; [|right; now right].
      rewrite E. destruct Hc as [-> | ->]; [right; now left|now left].
    + eapply NumberFacts.le_trans; eassumption.
Qed.

Lemma Math_min_max_spec ds :
  ds <> [] -> Forall (fun d => is_nan d = false) ds ->
  In (Math_min ds) ds /\ In (Math_max ds) ds /\
  (Math_min ds <=? Math_max ds)%js = true.
Proof.
  destruct ds as [|d ds]; [congruence|]. intros _ Hds.
  inversion Hds as [|? ? Hd Hds']; subst.
  unfold Math_min, Math_max. cbn [fold_left].
  rewrite min_step_Infinity, max_step_NegInfinity.
  destruct (fold_min_spec ds d Hd Hds') as [Hmin Hle1].
  destruct (fold_max_spec ds d Hd Hds') as [Hmax Hle2].
  cbv zeta in *. repeat split.
  - destruct Hmin as [-> |H]; [now left|now right].
  - destruct Hmax as [-> |H]; [now left|now right].
  - eapply NumberFacts.le_trans; eassumption.
Qed.

Lemma binEnd_Mag mn b wmn wb i :
  Mag false mn wmn -> Mag false b wb -> is_finite b = true ->
  (i < 10)%nat ->
  Mag false (binEndOf mn b i) (binEndValue wmn wb i).
Proof.
  intros Hmn Hb Fb Hi. destruct (of_nat_Mag i Hi) as [Hn Fn].
  unfold binEndOf, binStartOf, binEndValue.
  apply add_spec; [|exact Hb].
  apply add_spec; [exact Hmn|].
  now apply mul_spec.
Qed.

Lemma binEndValue_mono wmn wb i j :
  0 <= wmn -> 0 <= wb -> (i <= j)%nat ->
  binEndValue wmn wb i <= binEndValue wmn wb j.
Proof.
  intros Hmn Hb Hij. unfold binEndValue.
  assert (HW : 0 <= W (Z.of_nat i) 0 <= W (Z.of_nat j) 0).
  { unfold W. pose proof (pow2_pos (0 - G) ltac:(unfold G; lia)). nia. }
  pose proof (mulValue_nonneg _ wb (proj1 HW) Hb) as H0.
  pose proof (mulValue_mono _ _ wb HW Hb) as H1.
  pose proof (roundValue_nonneg _ H0) as H2.
  pose proof (roundValue_mono _ _ (conj H0 H1)) as H3.
  assert (H4 : 0 <= wmn + roundValue (mulValue (W (Z.of_nat i) 0) wb)) by lia.
  pose proof (roundValue_nonneg _ H4) as H5.
  pose proof (roundValue_mono
                (wmn + roundValue (mulValue (W (Z.of_nat i) 0) wb))
                (wmn + roundValue (mulValue (W (Z.of_nat j) 0) wb))
                ltac:(lia)) as H6.
  apply roundValue_mono. lia.
Qed.

Lemma binSize_Mag ds :
  ds <> [] -> Forall nonnegFinite ds ->
  exists wmn wb,
    Mag false (Math_min ds) wmn /\
    Mag false ((Math_max ds - Math_min ds) / numBins)%js wb /\
    is_finite ((Math_max ds - Math_min ds) / numBins)%js = true.
Proof.
  intros Hne Hds.
  assert (Hnan : Forall (fun d => is_nan d = false) ds).
  { eapply Forall_impl; [|exact Hds]. apply nonnegFinite_not_nan. }
  destruct (Math_min_max_spec ds Hne Hnan) as (Imin & Imax & Hle).
  rewrite Forall_forall in Hds.
  pose proof (Hds _ Imin) as Gmin. pose proof (Hds _ Imax) as Gmax.
  destruct (nonnegFinite_Mag _ Gmin) as [wmn Hmn].
  destruct (nonnegFinite_Mag _ Gmax) as [wmx Hmx].
  destruct Gmin as (_ & Fmin & _), Gmax as (_ & Fmax & _).
  pose proof (Mag_le_inv _ _ _ _ Hmn Hmx Fmin Fmax Hle) as Hw.
  pose proof (sub_spec _ _ _ _ Hmx Hmn Fmax Fmin Hw) as Hr.
  assert (Fr : is_finite (Math_max ds - Math_min ds)%js = true).
  { apply (Mag_lt_OVF_finite _ _ _ Hr).
    apply Z.le_lt_trans with (roundValue wmx).
    - apply roundValue_mono. pose proof (Mag_nonneg _ _ _ Hmn). lia.
    - pose proof (Mag_roundValue _ _ _ Hmx) as Hmx'.
      destruct (Math_max ds) as [s|s| |s m e]; try discriminate Fmax.
      + cbn [Mag] in Hmx. subst wmx. rewrite roundValue_0. apply OVF_pos.
      + pose proof Hmx' as [-> _]. apply Mag_finite_range in Hmx'. lia. }
  destruct (div_by_ten _ _ Hr Fr) as (wb & Hb & Fb).
  exists wmn, wb. auto.
Qed.

Lemma maximum_in_last_bin ds :
  ds <> [] -> Forall nonnegFinite ds ->
  (tinyRange <=? Math_max ds - Math_min ds)%js = true ->
  In (Math_max ds) ds /\
  binIndex (Math_min ds) ((Math_max ds - Math_min ds) / numBins)%js
    (Math_max ds) = (#9)%js.
Proof.
  intros Hne Hds Htiny.
  assert (Hnan : Forall (fun d => is_nan d = false) ds).
  { eapply Forall_impl; [|exact Hds]. apply nonnegFinite_not_nan. }
  destruct (Math_min_max_spec ds Hne Hnan) as (Imin & Imax & Hle).
  split; [exact Imax|].
  rewrite Forall_forall in Hds.
  pose proof (Hds _ Imin) as Gmin. pose proof (Hds _ Imax) as Gmax.
  destruct (nonnegFinite_Mag _ Gmin) as [wmn Hmn].
  destruct (nonnegFinite_Mag _ Gmax) as [wmx Hmx].
  destruct Gmin as (_ & Fmin & _), Gmax as (_ & Fmax & _).
  pose proof (Mag_le_inv _ _ _ _ Hmn Hmx Fmin Fmax Hle) as Hw.
  pose proof (sub_spec _ _ _ _ Hmx Hmn Fmax Fmin Hw) as Hr.
  assert (Hlt : roundValue (wmx - wmn) < OVF).
  { apply Z.le_lt_trans with (roundValue wmx).
    - apply roundValue_mono. pose proof (Mag_nonneg _ _ _ Hmn). lia.
    - pose proof (Mag_roundValue _ _ _ Hmx) as Hmx'.
      destruct (Math_max ds) as [s|s| |s m e]; try discriminate Fmax.
      + cbn [Mag] in Hmx. subst wmx. rewrite roundValue_0. apply OVF_pos.
      + pose proof Hmx' as [-> _]. apply Mag_finite_range in Hmx'. lia. }
  pose proof (Mag_lt_OVF_finite _ _ _ Hr Hlt) as Fr.
  pose proof (Mag_le_inv _ _ _ _ tinyRange_Mag Hr eq_refl Fr Htiny) as Ht.
  assert (Hpos : 0 < 90 * 2 ^ 1074) by (pose proof (pow2_pos 1074); lia).
  destruct (Mag_finite_pos _ _ Hr ltac:(lia)) as (mr & er & Er & Hbr & HWr).
  apply binIndex_clamped. unfold binQuotient.
  set (range := (Math_max ds - Math_min ds)%js) in *.
  rewrite Er. change numBins with (#10)%js.
  destruct (binSize_bounds mr er Hbr ltac:(lia)) as (wb & Hb & Hb9 & Hb16).
  assert (Hwb : 0 < wb < OVF).
  { pose proof (W_bounded_lt_OVF mr er Hbr). lia. }
  destruct (Mag_finite_pos _ _ Hb Hwb) as (mb & eb & Eb & Hbb & HWb).
  rewrite Eb.
  destruct (quotient_ge_9 mr er mb eb Hbr Hbb ltac:(lia) ltac:(lia))
    as (w & HQ & H9).
  apply (floor_ge_9 _ _ HQ H9).
Qed.

Lemma min_step_le_new lowest x :
  is_nan lowest = false -> is_nan x = false ->
  (min_step lowest x <=? x)%js = true.
Proof.
  intros Hl Hx. unfold min_step. rewrite Hl, Hx.
  assert (H : forall r, r = (if (x <? lowest)%js then x else lowest) ->
             (r <=? x)%js = true).
  { intros r ->. destruct (x <? lowest)%js eqn:E.
    - now apply le_refl.
    - now apply lt_false_le. }
  destruct x as [[|]|sx| |sx mx ex], lowest as [[|]|sy| |sy my ey];
    try (apply H; reflexivity).
  reflexivity.
Qed.

Lemma fold_min_lower ds acc :
  is_nan acc = false -> Forall (fun d => is_nan d = false) ds ->
  forall d, In d ds -> (fold_left min_step ds acc <=? d)%js = true.
Proof.
  revert acc. induction ds as [|d0 ds IH]; intros acc Ha Hds d Hin;
    [destruct Hin|].
  inversion Hds as [|? ? Hd Hds']; subst. cbn [fold_left].
  destruct (min_step_spec acc d0 Ha Hd) as [Hc _].
  assert (Hn : is_nan (min_step acc d0) = false)
    by (destruct Hc as [-> | ->]; assumption).
  destruct Hin as [<-|Hin].
  - destruct (fold_min_spec ds _ Hn Hds') as [_ Hle]. cbv zeta in Hle.
    eapply NumberFacts.le_trans; [exact Hle|].
    now apply min_step_le_new.
  - now apply IH.
Qed.

Lemma Math_min_lower ds :
  Forall (fun d => is_nan d = false) ds ->
  forall d, In d ds -> (Math_min ds <=? d)%js = true.
Proof.
  intros Hds d Hin. unfold Math_min.
  destruct ds as [|d0 ds]; [destruct Hin|].
  inversion Hds as [|? ? Hd Hds']; subst. cbn [fold_left].
  rewrite min_step_Infinity.
  destruct Hin as [<-|Hin].
  - destruct (fold_min_spec ds _ Hd Hds') as [_ Hle]. exact Hle.
  - now apply fold_min_lower.
Qed.

Lemma sample_index mn d wmn wd mb eb :
  Mag false mn wmn -> is_finite mn = true ->
  Mag false d wd -> is_finite d = true ->
  (mn <=? d)%js = true ->
  bounded prec emax mb eb = true ->
  exists k, (k <= 9)%nat /\
    array_index (binIndex mn (S754_finite false mb eb) d) = Some k.
Proof.
  intros Hmn Fmn Hd Fd Hle Hb.
  pose proof (Mag_le_inv _ _ _ _ Hmn Hd Fmn Fd Hle) as Hw.
  pose proof (sub_spec _ _ _ _ Hd Hmn Fd Fmn Hw) as Hx.
  assert (Fx : is_finite (d - mn)%js = true).
  { apply (Mag_lt_OVF_finite _ _ _ Hx).
    apply Z.le_lt_trans with (roundValue wd).
    - apply roundValue_mono. pose proof (Mag_nonneg _ _ _ Hmn). lia.
    - pose proof (Mag_roundValue _ _ _ Hd) as Hd'.
      destruct d as [s|s| |s m e]; try discriminate Fd.
      + cbn [Mag] in Hd. subst wd. rewrite roundValue_0. apply OVF_pos.
      + pose proof Hd' as [-> _]. apply Mag_finite_range in Hd'. lia. }
  destruct (div_nonneg_Mag _ _ mb eb Hx Fx Hb) as [wq HQ].
  destruct (floor_Mag _ _ HQ) as [wf HF].
  set (b := S754_finite false mb eb) in *.
  destruct (Math_floor (binQuotient mn b d) >=? #9)%js eqn:E.
  - exists 9%nat. split; [lia|].
    rewrite (binIndex_clamped _ _ _ E).
    apply array_index_nine.
  - assert (Hlt : (Math_floor (binQuotient mn b d) <? #9)%js = true).
    { apply le_false_lt; [exact (Mag_not_nan _ _ _ HF)|reflexivity|exact E]. }
    rewrite (binIndex_unclamped _ _ _ Hlt).
    destruct (floor_below_nine _ _ HQ Hlt) as (k & Hk & Ek).
    exists k. split; [lia|exact Ek].
Qed.

Lemma fold_increment_sum (f : number -> number) (ds : list number)
  (bins : list nat) :
  (forall d, In d ds ->
     exists k, (k < List.length bins)%nat /\ array_index (f d) = Some k) ->
  list_sum (fold_left (fun bins d => increment bins (f d)) ds bins)
  = (list_sum bins + List.length ds)%nat.
Proof.
  revert bins. induction ds as [|d ds IH]; intros bins H.
  - simpl. lia.
  - cbn [fold_left List.length]. rewrite IH.
    + destruct (H d (or_introl eq_refl)) as (k & Hk & Ek).
      unfold increment. rewrite Ek, list_sum_incrementAt.
      apply Nat.ltb_lt in Hk. rewrite Hk. lia.
    + intros d' Hin. rewrite increment_length.
      apply H. now right.
Qed.

Theorem every_sample_counted (ds : list number) :
  ds <> [] -> Forall nonnegFinite ds ->
  let mn := Math_min ds in
  let b := ((Math_max ds - mn) / numBins)%js in
  (#0 <? b)%js = true ->
  (forall d, In d ds ->
     exists k, (k <= 9)%nat /\ array_index (binIndex mn b d) = Some k) /\
  list_sum (fillBins mn b ds) = List.length ds.
Proof.
  intros Hne Hds mn b Hpos.
  destruct (binSize_Mag ds Hne Hds) as (wmn & wb & Hmn & Hb & Fb).
  fold mn in Hmn. fold mn b in Hb, Fb.
  assert (Hnan : Forall (fun d => is_nan d = false) ds).
  { eapply Forall_impl; [|exact Hds]. apply nonnegFinite_not_nan. }
  destruct (Math_min_max_spec ds Hne Hnan) as (Imin & _ & _).
  pose proof (Math_min_lower ds Hnan) as Hlow. fold mn in Hlow, Imin.
  rewrite Forall_forall in Hds.
  destruct (Hds _ Imin) as (_ & Fmn & _).
  assert (Eb : exists mb eb, b = S754_finite false mb eb /\
                             bounded prec emax mb eb = true).
  { destruct b as [s|s| |s m e]; try discriminate Fb.
    - discriminate Hpos.
    - destruct Hb as (-> & Hbb & _). eauto. }
  destruct Eb as (mb & eb & Eb & Hbb). rewrite Eb in *.
  assert (Hall : forall d, In d ds ->
            exists k, (k <= 9)%nat /\
              array_index (binIndex mn (S754_finite false mb eb) d) = Some k).
  { intros d Hin. destruct (nonnegFinite_Mag _ (Hds _ Hin)) as [wd Hd].
    destruct (Hds _ Hin) as (_ & Fd & _).
    exact (sample_index mn d wmn wd mb eb Hmn Fmn Hd Fd (Hlow d Hin) Hbb). }
  split; [exact Hall|].
  unfold fillBins. rewrite fold_increment_sum.
  - reflexivity.
  - intros d Hin. destruct (Hall d Hin) as (k & Hk & Ek).
    exists k. rewrite repeat_length. split; [lia|exact Ek].
Qed.

Lemma spread_nonnegFinite : Forall nonnegFinite (durations Samples.spread).
Proof. repeat constructor. Defined.

Lemma spread_not_empty : durations Samples.spread <> [].
Proof. discriminate. Defined.

(** On the spread sample the bin size is positive and the range is not
    tiny. *)
Example spread_premises :
  let r := Samples.spread in
  let minD := Math_min (durations r) in
  let maxD := Math_max (durations r) in
  (#0 <? (maxD - minD) / numBins)%js = true /\
  (tinyRange <=? maxD - minD)%js = true.
Proof. vm_compute. split; reflexivity. Qed.

(** In the spread sample the two durations at the maximum have quotient
    10 and are counted in bin 9. *)
Example spread_maximum_clamped :
  let r := Samples.spread in
  let minD := Math_min (durations r) in
  let binSize := ((Math_max (durations r) - minD) / numBins)%js in
  Math_max (durations r) = (#10)%js /\
  Math_floor (binQuotient minD binSize (#10)%js) = (#10)%js /\
  array_index (binIndex minD binSize (#10)%js) = Some 9%nat /\
  nth 9 (map count (getHistogramData (Some r))) O = 3%nat.
Proof. vm_compute. repeat split; reflexivity. Qed.

(** *** The flags and the percentages *)

Lemma mapIndexed_seq {A B : Type} (f : nat -> A -> B) (d : A) (i : nat)
  (l : list A) :
  mapIndexed f i l =
  map (fun k => f (i + k)%nat (nth k l d)) (seq 0 (List.length l)).
Proof.
  revert i. induction l as [|a l IH]; intros i; [reflexivity|].
  cbn [mapIndexed List.length]. rewrite <- cons_seq, <- seq_shift.
  cbn [map nth]. rewrite Nat.add_0_r, map_map, IH. f_equal.
  apply map_ext. intros k. now rewrite Nat.add_succ_r.
Qed.

Lemma getHistogramData_bins (r : SimulationResult) :
  let minD := Math_min (durations r) in
  let binSize := ((Math_max (durations r) - minD) / numBins)%js in
  getHistogramData (Some r) =
  map (fun i => makeBin r minD binSize i
                  (nth i (fillBins minD binSize (durations r)) O))
      (seq 0 10).
Proof.
  cbv zeta. unfold getHistogramData.
  rewrite (mapIndexed_seq _ O), fillBins_length. reflexivity.
Qed.

(** C6.  Bin i spans from minD + i * binSize to that start plus binSize,
    and is marked isSuccess exactly when this end point is at most the
    threshold.  A bin whose start is within the threshold and whose end
    is beyond it is marked failing.  The flags are determined by the
    minimum, the maximum and the threshold: two results that agree on
    these have the same flags, whatever their samples. *)
Theorem isSuccess_is_bin_end_within_threshold (r : SimulationResult) :
  let minD := Math_min (durations r) in
  let binSize := ((Math_max (durations r) - minD) / numBins)%js in
  map (fun b => (range b, isSuccess b)) (getHistogramData (Some r)) =
    map (fun i => ((binStartOf minD binSize i, binEndOf minD binSize i),
                   (binEndOf minD binSize i <=? threshold r)%js))
        (seq 0 10) /\
  (forall i b,
     nth_error (getHistogramData (Some r)) i = Some b ->
     (isSuccess b = true <->
      (binEndOf minD binSize i <=? threshold r)%js = true) /\
     ((binStartOf minD binSize i <=? threshold r)%js = true ->
      (threshold r <? binEndOf minD binSize i)%js = true ->
      isSuccess b = false)) /\
  (forall r',
     Math_min (durations r') = minD ->
     Math_max (durations r') = Math_max (durations r) ->
     threshold r' = threshold r ->
     map isSuccess (getHistogramData (Some r')) =
     map isSuccess (getHistogramData (Some r))).
Proof.
  cbv zeta. split; [|split].
  - rewrite getHistogramData_bins. cbv zeta. rewrite map_map. reflexivity.
  - intros i b Hb.
    assert (Hi : (i < 10)%nat).
    { rewrite <- (getHistogramData_length r). apply nth_error_Some.
      congruence. }
    rewrite (getHistogramData_nth r i Hi) in Hb. cbv zeta in Hb.
    injection Hb as <-. cbn [isSuccess makeBin].
    fold (binStartOf (Math_min (durations r))
            ((Math_max (durations r) - Math_min (durations r)) / numBins)%js i).
    fold (binEndOf (Math_min (durations r))
            ((Math_max (durations r) - Math_min (durations r)) / numBins)%js i).
    split; [reflexivity|].
    intros _ Hlt. apply NumberFacts.lt_not_ge in Hlt. exact Hlt.
  - intros r' Hmin Hmax Hthr.
    rewrite !getHistogramData_bins. cbv zeta. rewrite !map_map.
    rewrite Hmin, Hmax. apply map_ext. intros i.
    cbn [isSuccess makeBin]. now rewrite Hthr.
Qed.

Example spread_flags :
  map isSuccess (getHistogramData (Some Samples.spread))
  = [true; true; true; true; true; true; true; true; false; false].
Proof. vm_compute. reflexivity. Qed.

Lemma flags_nth (r : SimulationResult) (k : nat) :
  (k < 10)%nat ->
  let minD := Math_min (durations r) in
  let binSize := ((Math_max (durations r) - minD) / numBins)%js in
  nth k (map isSuccess (getHistogramData (Some r))) true =
  (binEndOf minD binSize k <=? threshold r)%js.
Proof.
  intros Hk. cbv zeta. rewrite getHistogramData_bins.
  cbv zeta. rewrite map_map. cbn [isSuccess makeBin].
  set (f := fun index : nat => (_ <=? threshold r)%js).
  rewrite (nth_indep _ true (f O)) by (rewrite length_map, length_seq; lia).
  rewrite (map_nth f), seq_nth by lia. reflexivity.
Qed.

End HistogramFacts.

(** ** Sessions: the form, the button and the intervals *)

Module InteractionFacts.

Import JS MonteCarloSimulator Contract Interaction.

(** The verdict of validateInputs depends on the four inputs only. *)
Lemma validateInputs_inputs (st st' : State) :
  taskA st = taskA st' -> taskB st = taskB st' ->
  availableHours st = availableHours st' -> trials st = trials st' ->
  fst (validateInputs st) = fst (validateInputs st').
Proof.
  intros HA HB HH HT. unfold validateInputs. rewrite HA, HB, HH, HT.
  repeat match goal with
         | |- context [if ?b then _ else _] => destruct b
         end; reflexivity.
Qed.

Lemma validateInputs_keeps_inputs (st : State) :
  let st' := snd (validateInputs st) in
  taskA st' = taskA st /\ taskB st' = taskB st /\
  availableHours st' = availableHours st /\ trials st' = trials st /\
  result st' = result st /\ isAnimating st' = isAnimating st /\
  animationProgress st' = animationProgress st.
Proof.
  destruct (ValidationFacts.validateInputs_error_only st) as [msg H].
  cbv zeta. rewrite H. repeat split; reflexivity.
Qed.

Lemma onChange_keeps (field : Field) (parsed : number) (st : State) :
  let st' := onChange field parsed st in
  trials st' = trials st /\ inputError st' = inputError st /\
  result st' = result st /\ isAnimating st' = isAnimating st /\
  animationProgress st' = animationProgress st.
Proof. destruct field; repeat split; reflexivity. Qed.

Lemma clearInterval_In (id : nat) (ivs : list Interval) (iv : Interval) :
  In iv (clearInterval id ivs) -> In iv ivs /\ intervalId iv <> id.
Proof.
  unfold clearInterval. rewrite filter_In. intros [H E]. split; [exact H|].
  apply negb_true_iff, Nat.eqb_neq in E. exact E.
Qed.

Lemma clearInterval_absent (id : nat) (ivs : list Interval) :
  ~ In id (map intervalId ivs) -> clearInterval id ivs = ivs.
Proof.
  induction ivs as [|a l IH]; [reflexivity|]. cbn [map In]. intros H.
  unfold clearInterval in *. cbn [filter].
  destruct (Nat.eqb_spec (intervalId a) id) as [E|E]; cbn [negb].
  - exfalso. apply H. left. exact E.
  - f_equal. apply IH. intros Hin. apply H. right. exact Hin.
Qed.

Lemma clearInterval_length (id : nat) (ivs : list Interval) (iv : Interval) :
  NoDup (map intervalId ivs) ->
  find (fun iv => Nat.eqb (intervalId iv) id) ivs = Some iv ->
  S (List.length (clearInterval id ivs)) = List.length ivs.
Proof.
  induction ivs as [|a l IH]; [discriminate|].
  cbn [map find]. intros ND F. inversion ND as [|x xs Hx ND']; subst.
  unfold clearInterval in *. cbn [filter].
  destruct (Nat.eqb_spec (intervalId a) id) as [E|E]; cbn [negb List.length].
  - f_equal. rewrite <- E.
    change (List.length (clearInterval (intervalId a) l) = List.length l).
    rewrite clearInterval_absent by exact Hx. reflexivity.
  - f_equal. apply IH; assumption.
Qed.

Lemma clearInterval_NoDup (id : nat) (ivs : list Interval) :
  NoDup (map intervalId ivs) -> NoDup (map intervalId (clearInterval id ivs)).
Proof.
  induction ivs as [|a l IH]; [intros H; exact H|].
  cbn [map]. intros ND. inversion ND as [|x xs Hx ND']; subst.
  unfold clearInterval in *. cbn [filter].
  destruct (negb (Nat.eqb (intervalId a) id)); [|apply IH; exact ND'].
  cbn [map]. constructor; [|apply IH; exact ND'].
  intros Hin. apply Hx. apply in_map_iff in Hin.
  destruct Hin as (iv & E & Hin). apply filter_In in Hin.
  apply in_map_iff. exists iv. tauto.
Qed.

Lemma progressAfter_value (k : nat) :
  (k <= 25)%nat -> progressAfter k = of_Z (4 * Z.of_nat k).
Proof.
  intros H.
  do 26 (destruct k as [|k]; [vm_compute; reflexivity|]).
  exfalso. lia.
Qed.

Lemma progressAfter_range (k : nat) :
  (k <= 25)%nat ->
  (#0 <=? progressAfter k)%js = true /\ (progressAfter k <=? #100)%js = true.
Proof.
  intros H.
  do 26 (destruct k as [|k]; [vm_compute; split; reflexivity|]).
  exfalso. lia.
Qed.

(** X19.  A text field shows what its handler stored: the parsed number,
    or 0 when the entry does not parse or is a zero.  A change leaves
    the other fields, the task names and the trial count as they were,
    and of two changes of the same field the later one wins. *)
Theorem field_shows_what_was_stored (field : Field) (parsed : number)
  (st : State) :
  let st' := onChange field parsed st in
  fieldValue field st' = orZero parsed /\
  (forall other, other <> field ->
     fieldValue other st' = fieldValue other st) /\
  name (taskA st') = name (taskA st) /\
  name (taskB st') = name (taskB st) /\
  trials st' = trials st /\
  (forall later, onChange field later st' = onChange field later st) /\
  (orZero parsed = parsed \/ orZero parsed = (#0)%js) /\
  orZero (orZero parsed) = orZero parsed.
Proof.
  cbv zeta. split; [destruct field; reflexivity|].
  split.
  { intros other H. destruct field, other; try reflexivity; congruence. }
  split; [destruct field; reflexivity|].
  split; [destruct field; reflexivity|].
  split; [destruct field; reflexivity|].
  split; [intros later; destruct field; reflexivity|].
  split; destruct parsed; auto.
Qed.

Section WithEngine.

Context {Rng : Type}.
Variable engine :
  Task -> Task -> number -> number -> Rng -> SimulationResult * Rng.

(** *** The engine is given accepted inputs only *)

Lemma runSimulation_acceptedOnly (w : @World Rng) :
  acceptedOnly w -> acceptedOnly (runSimulation w).
Proof.
  intros [Hi Hc]. unfold runSimulation.
  destruct (validateInputs (ui w)) as [ok st] eqn:E.
  destruct ok; cbn [negb]; split; cbn [intervals engineCalls setUi];
    try assumption.
  constructor; [|exact Hi].
  unfold accepted.
  rewrite (validateInputs_inputs _ (ui w)) by reflexivity.
  rewrite E. reflexivity.
Qed.

Lemma tick_acceptedOnly (id : nat) (w : @World Rng) :
  acceptedOnly w -> acceptedOnly (tick engine id w).
Proof.
  intros [Hi Hc]. unfold tick.
  destruct (find _ (intervals w)) as [iv|] eqn:F; [|split; assumption].
  apply find_some in F. destruct F as [Hin _].
  destruct (animationProgress (ui w) >=? #100)%js; [|split; assumption].
  destruct (engine _ _ _ _ _) as [r g'].
  split; cbn [intervals engineCalls].
  - rewrite Forall_forall in *. intros iv' H'.
    apply clearInterval_In in H'. apply Hi, H'.
  - apply Forall_app. split; [exact Hc|]. constructor; [|constructor].
    rewrite Forall_forall in Hi. exact (Hi iv Hin).
Qed.

Lemma step_acceptedOnly (e : Event) (w : @World Rng) :
  acceptedOnly w -> acceptedOnly (step engine e w).
Proof.
  intros H. destruct e; cbn [step].
  - exact H.
  - exact H.
  - apply runSimulation_acceptedOnly, H.
  - unfold click. destruct (isAnimating (ui w)); [exact H|].
    apply runSimulation_acceptedOnly, H.
  - apply tick_acceptedOnly, H.
Qed.

Lemma session_invariant (P : @World Rng -> Prop) :
  (forall e w, P w -> P (step engine e w)) ->
  forall es w, P w -> P (session engine es w).
Proof.
  intros Hstep es. unfold session.
  induction es as [|e es IH]; intros w H; [exact H|].
  cbn [fold_left]. apply IH, Hstep, H.
Qed.

(** X1.  Whatever happens after the first render, the engine is only
    ever called with inputs that validateInputs accepts: the inputs are
    validated when runSimulation captures them, and the call made at the
    end of the animation uses the captured ones, not the form's. *)
Theorem engine_receives_accepted_inputs_only (g : Rng) (es : list Event) :
  Forall (fun c => fst (validateInputs (callInputs c)) = true /\
                   ~ violatesPrecondition (callInputs c))
    (engineCalls (session engine es (unmounted g))).
Proof.
  assert (H : acceptedOnly (session engine es (unmounted g))).
  { apply session_invariant; [apply step_acceptedOnly|].
    split; constructor. }
  destruct H as [_ H]. rewrite Forall_forall in *. intros c Hc.
  specialize (H c Hc). split; [exact H|].
  intros V. apply ValidationFacts.validateInputs_false_iff in V.
  unfold accepted in H. congruence.
Qed.

(** *** One engine call for each registered interval *)

Lemma runSimulation_accounted (w : @World Rng) :
  accounted w -> accounted (runSimulation w).
Proof.
  intros (ND & Hf & Hn).
  split; [|split; [apply RunFacts.freshIds_runSimulation; exact Hf|]].
  - unfold runSimulation. destruct (validateInputs (ui w)) as [[|] st];
      cbn [negb intervals setUi map intervalId]; [|exact ND].
    constructor; [|exact ND].
    intros Hin. apply in_map_iff in Hin. destruct Hin as (iv & E & Hin).
    specialize (Hf iv Hin). lia.
  - unfold runSimulation. destruct (validateInputs (ui w)) as [[|] st];
      cbn [negb intervals engineCalls nextIntervalId setUi List.length];
      lia.
Qed.

Lemma tick_accounted (id : nat) (w : @World Rng) :
  accounted w -> accounted (tick engine id w).
Proof.
  intros (ND & Hf & Hn).
  split; [|split; [apply RunFacts.freshIds_tick; exact Hf|]].
  - unfold tick. destruct (find _ (intervals w)) as [iv|]; [|exact ND].
    destruct (animationProgress (ui w) >=? #100)%js; [|exact ND].
    destruct (engine _ _ _ _ _) as [r g']. cbn [intervals].
    apply clearInterval_NoDup, ND.
  - unfold tick. destruct (find _ (intervals w)) as [iv|] eqn:F; [|exact Hn].
    destruct (animationProgress (ui w) >=? #100)%js; [|exact Hn].
    destruct (engine _ _ _ _ _) as [r g'].
    cbn [intervals engineCalls nextIntervalId].
    pose proof (clearInterval_length id (intervals w) iv ND F) as L.
    rewrite length_app. cbn [List.length]. lia.
Qed.

Lemma step_accounted (e : Event) (w : @World Rng) :
  accounted w -> accounted (step engine e w).
Proof.
  intros H. destruct e; cbn [step].
  - exact H.
  - exact H.
  - apply runSimulation_accounted, H.
  - unfold click. destruct (isAnimating (ui w)); [exact H|].
    apply runSimulation_accounted, H.
  - apply tick_accounted, H.
Qed.

Lemma runSimulation_registers (w : @World Rng) :
  (nextIntervalId (runSimulation w) <= S (nextIntervalId w))%nat.
Proof.
  unfold runSimulation. destruct (validateInputs (ui w)) as [[|] st];
    cbn [negb nextIntervalId setUi]; lia.
Qed.

Lemma tick_registers (id : nat) (w : @World Rng) :
  nextIntervalId (tick engine id w) = nextIntervalId w.
Proof.
  unfold tick. destruct (find _ (intervals w)) as [iv|]; [|reflexivity].
  destruct (animationProgress (ui w) >=? #100)%js; [|reflexivity].
  destruct (engine _ _ _ _ _) as [r g']. reflexivity.
Qed.

Lemma session_registers (es : list Event) (w : @World Rng) :
  (nextIntervalId (session engine es w) <= nextIntervalId w + triggers es)%nat.
Proof.
  unfold session, triggers. revert w.
  induction es as [|e es IH]; intros w; [cbn; lia|].
  cbn [fold_left map]. specialize (IH (step engine e w)).
  change (list_sum (?a :: ?l)) with (a + list_sum l)%nat.
  assert (H : (nextIntervalId (step engine e w)
               <= nextIntervalId w
                  + match e with Run | Click => 1 | _ => 0 end)%nat).
  { destruct e; cbn [step].
    - cbn [nextIntervalId setUi]. lia.
    - cbn [nextIntervalId setUi]. lia.
    - pose proof (runSimulation_registers w). lia.
    - unfold click. destruct (isAnimating (ui w)); [lia|].
      pose proof (runSimulation_registers w). lia.
    - rewrite tick_registers. lia. }
  lia.
Qed.

(** X2.  Each interval that runSimulation registers makes one engine
    call, at the firing that clears it: at any moment the calls made and
    the intervals still registered add up to the intervals registered so
    far, also when several animations overlap.  The engine is therefore
    never called more often than runSimulation was. *)
Theorem one_engine_call_per_registered_interval (g : Rng)
  (es : list Event) :
  let w := session engine es (unmounted g) in
  (List.length (engineCalls w) + List.length (intervals w))%nat
  = nextIntervalId w /\
  (List.length (engineCalls w) <= triggers es)%nat /\
  NoDup (map intervalId (intervals w)).
Proof.
  assert (H : accounted (session engine es (unmounted g))).
  { apply session_invariant; [apply step_accounted|].
    split; [constructor|]. split; [intros iv []|reflexivity]. }
  destruct H as (ND & _ & Hn). cbv zeta.
  pose proof (session_registers es (unmounted g)) as R.
  cbn [unmounted nextIntervalId] in R.
  repeat split; [exact Hn|lia|exact ND].
Qed.

(** *** The progress shown *)

Lemma runSimulation_onTheBar (w : @World Rng) :
  onTheBar w -> onTheBar (runSimulation w).
Proof.
  intros H. unfold runSimulation.
  pose proof (validateInputs_keeps_inputs (ui w)) as K. cbv zeta in K.
  destruct (validateInputs (ui w)) as [[|] st]; cbn [negb snd] in *.
  - exists O. split; [lia|reflexivity].
  - destruct H as (k & Hk & E). exists k. split; [exact Hk|].
    cbn [ui setUi]. destruct K as (_ & _ & _ & _ & _ & _ & K).
    rewrite K. exact E.
Qed.

Lemma tick_onTheBar (id : nat) (w : @World Rng) :
  onTheBar w -> onTheBar (tick engine id w).
Proof.
  intros (k & Hk & E). unfold tick.
  destruct (find _ (intervals w)) as [iv|]; [|exists k; tauto].
  destruct (animationProgress (ui w) >=? #100)%js eqn:P.
  - destruct (engine _ _ _ _ _) as [r g']. exists 25%nat.
    split; [lia|]. cbn [ui animationProgress setAnimationProgress].
    vm_compute. reflexivity.
  - assert (k < 25)%nat as Hlt.
    { destruct (Nat.eq_dec k 25) as [->|]; [|lia].
      rewrite E, RunFacts.progress_reaches_100 in P. discriminate P. }
    exists (S k). split; [lia|].
    cbn [ui setUi animationProgress setAnimationProgress].
    rewrite E. reflexivity.
Qed.

Lemma step_onTheBar (e : Event) (w : @World Rng) :
  onTheBar w -> onTheBar (step engine e w).
Proof.
  intros H. destruct e; cbn [step].
  - destruct H as (k & Hk & E). exists k. split; [exact Hk|].
    cbn [ui setUi].
    destruct (onChange_keeps field parsed (ui w)) as (_ & _ & _ & _ & K).
    rewrite K. exact E.
  - exact H.
  - apply runSimulation_onTheBar, H.
  - unfold click. destruct (isAnimating (ui w)); [exact H|].
    apply runSimulation_onTheBar, H.
  - apply tick_onTheBar, H.
Qed.

(** X3.  The progress shown is always one of 0, 4, 8, ..., 100: the
    width of the bar never leaves the range from 0% to 100%, whatever
    the order of clicks, changes and firings, also when several
    intervals advance it at once. *)
Theorem progress_stays_on_the_bar (g : Rng) (es : list Event) :
  let p := animationProgress (ui (session engine es (unmounted g))) in
  (exists k, (k <= 25)%nat /\ p = of_Z (4 * Z.of_nat k)) /\
  (#0 <=? p)%js = true /\ (p <=? #100)%js = true.
Proof.
  assert (H : onTheBar (session engine es (unmounted g))).
  { apply session_invariant; [apply step_onTheBar|].
    exists O. split; [lia|reflexivity]. }
  destruct H as (k & Hk & E). cbv zeta. rewrite E. split.
  - exists k. split; [exact Hk|]. apply progressAfter_value, Hk.
  - apply progressAfter_range, Hk.
Qed.

(** *** Changes made while the animation runs *)

Lemma edit_keeps (e : Event) (st : State) :
  let st' := edit e st in
  inputError st' = inputError st /\ result st' = result st /\
  isAnimating st' = isAnimating st /\
  animationProgress st' = animationProgress st.
Proof. destruct e as [field ?| | | |]; try destruct field; repeat split. Qed.

Lemma edits_keeps (es : list Event) (st : State) :
  let st' := edits es st in
  inputError st' = inputError st /\ result st' = result st /\
  isAnimating st' = isAnimating st /\
  animationProgress st' = animationProgress st.
Proof.
  unfold edits. revert st. induction es as [|e es IH]; intros st.
  - repeat split.
  - cbn [fold_left]. cbv zeta in *.
    destruct (IH (edit e st)) as (A & B & C & D).
    destruct (edit_keeps e st) as (A' & B' & C' & D').
    cbv zeta in *. repeat split; congruence.
Qed.

Lemma edit_inputs (e : Event) (st st' : State) :
  taskA st = taskA st' -> taskB st = taskB st' ->
  availableHours st = availableHours st' -> trials st = trials st' ->
  taskA (edit e st) = taskA (edit e st') /\
  taskB (edit e st) = taskB (edit e st') /\
  availableHours (edit e st) = availableHours (edit e st') /\
  trials (edit e st) = trials (edit e st').
Proof.
  intros HA HB HH HT.
  destruct e as [field ?| | | |]; try destruct field;
    cbn [edit onChange onValueChange setTaskA setTaskB setAvailableHours
         setTrials taskA taskB availableHours trials];
    rewrite ?HA, ?HB; repeat split; assumption || reflexivity.
Qed.

Lemma edits_inputs (es : list Event) (st st' : State) :
  taskA st = taskA st' -> taskB st = taskB st' ->
  availableHours st = availableHours st' -> trials st = trials st' ->
  taskA (edits es st) = taskA (edits es st') /\
  taskB (edits es st) = taskB (edits es st') /\
  availableHours (edits es st) = availableHours (edits es st') /\
  trials (edits es st) = trials (edits es st').
Proof.
  unfold edits. revert st st'. induction es as [|e es IH]; intros st st'.
  - intros. repeat split; assumption.
  - intros HA HB HH HT. cbn [fold_left].
    destruct (edit_inputs e st st' HA HB HH HT) as (A & B & C & D).
    apply IH; assumption.
Qed.

(** A firing and a change commute: the callback reads the progress and
    its captured inputs, a change writes an input. *)
Lemma tick_edit (id : nat) (e : Event) (w : @World Rng) :
  tick engine id (setUi (edit e (ui w)) w) =
  setUi (edit e (ui (tick engine id w))) (tick engine id w).
Proof.
  unfold tick. cbn [intervals setUi ui rng engineCalls nextIntervalId].
  destruct (edit_keeps e (ui w)) as (_ & _ & _ & P). cbv zeta in P.
  rewrite P.
  destruct (find _ (intervals w)) as [iv|]; [|reflexivity].
  destruct (animationProgress (ui w) >=? #100)%js.
  - destruct (engine _ _ _ _ _) as [r g'].
    destruct e as [field ?| | | |]; try destruct field; reflexivity.
  - destruct e as [field ?| | | |]; try destruct field; reflexivity.
Qed.

Lemma ticks_edit (id : nat) (e : Event) (n : nat) (w : @World Rng) :
  ticks engine id n (setUi (edit e (ui w)) w) =
  setUi (edit e (ui (ticks engine id n w))) (ticks engine id n w).
Proof.
  unfold ticks. induction n as [|n IH]; [reflexivity|].
  rewrite !Nat.iter_succ. rewrite IH. apply tick_edit.
Qed.

Lemma setUi_ui (w : @World Rng) : setUi (ui w) w = w.
Proof. destruct w; reflexivity. Qed.

Lemma session_edits_and_fires (id : nat) (es : list Event)
  (w : @World Rng) :
  editsAndFires id es = true ->
  session engine es w = editWorld es (ticks engine id (fires id es) w).
Proof.
  unfold session, editWorld, edits, fires, editsAndFires.
  revert w. induction es as [|e es IH]; intros w H.
  - cbn. symmetry. apply setUi_ui.
  - cbn [forallb] in H. apply andb_true_iff in H. destruct H as [He H].
    cbn [fold_left map list_sum]. rewrite (IH _ H).
    set (n := list_sum (map (firesOf id) es)).
    destruct e as [field parsed|value| | |j]; try discriminate He.
    + change (step engine (Change field parsed) w)
        with (setUi (edit (Change field parsed) (ui w)) w).
      rewrite ticks_edit. reflexivity.
    + change (step engine (Slide value) w)
        with (setUi (edit (Slide value) (ui w)) w).
      rewrite ticks_edit. reflexivity.
    + apply Nat.eqb_eq in He. subst j. cbn [firesOf step edit].
      rewrite Nat.eqb_refl.
      change (list_sum (1%nat :: map (firesOf id) es)) with (S n).
      unfold ticks. rewrite Nat.iter_succ_r. reflexivity.
Qed.

(** X4.  The inputs that reach the engine are those of the moment
    runSimulation was called.  While the interval it registered fires
    and the fields and the slider are changed in any order, the form
    shows the changed inputs; the engine is not called during the first
    25 firings, and the 26th calls it once with the inputs captured at
    the start, so that the stored result is the one of the old inputs. *)
Theorem changes_during_animation_do_not_reach_engine (w : @World Rng)
  (es : list Event) :
  fst (validateInputs (ui w)) = true ->
  freshIds w ->
  editsAndFires (nextIntervalId w) es = true ->
  let n := fires (nextIntervalId w) es in
  let w' := session engine es (runSimulation w) in
  let out := engine (taskA (ui w)) (taskB (ui w)) (availableHours (ui w))
               (trials (ui w)) (rng w) in
  (taskA (ui w') = taskA (edits es (ui w)) /\
   taskB (ui w') = taskB (edits es (ui w)) /\
   availableHours (ui w') = availableHours (edits es (ui w)) /\
   trials (ui w') = trials (edits es (ui w))) /\
  ((n <= 25)%nat ->
   engineCalls w' = engineCalls w /\
   result (ui w') = result (ui w) /\
   isAnimating (ui w') = true) /\
  ((26 <= n)%nat ->
   engineCalls w' =
     engineCalls w ++
     [{| argTaskA := taskA (ui w);
         argTaskB := taskB (ui w);
         argThreshold := availableHours (ui w);
         argTrials := trials (ui w) |}] /\
   result (ui w') = Some (fst out) /\
   rng w' = snd out /\
   isAnimating (ui w') = false).
Proof.
  intros Hok Hfresh Hes. cbv zeta.
  rewrite (session_edits_and_fires (nextIntervalId w) es _ Hes).
  rewrite (RunFacts.runSimulation_accepted w Hok).
  set (n := fires (nextIntervalId w) es).
  unfold editWorld. cbn [ui setUi engineCalls rng].
  split; [|split].
  - destruct (Nat.le_gt_cases n 25) as [Hn|Hn].
    + rewrite (RunFacts.ticks_running engine w n Hn).
      apply edits_inputs; reflexivity.
    + rewrite (RunFacts.ticks_after_26 engine w n Hfresh Hn).
      apply edits_inputs; reflexivity.
  - intros Hn. rewrite (RunFacts.ticks_running engine w n Hn).
    destruct (edits_keeps es (ui (running w n))) as (_ & R & A & _).
    cbv zeta in *. rewrite R, A. repeat split; reflexivity.
  - intros Hn. rewrite (RunFacts.ticks_after_26 engine w n Hfresh Hn).
    destruct (edits_keeps es (ui (finished engine w))) as (_ & R & A & _).
    cbv zeta in *. rewrite R, A. repeat split; reflexivity.
Qed.

(** *** The button while an animation runs *)

Lemma runSimulation_oneAnimation (w : @World Rng) :
  isAnimating (ui w) = false -> intervals w = [] ->
  oneAnimation (runSimulation w).
Proof.
  intros A I. unfold runSimulation.
  pose proof (validateInputs_keeps_inputs (ui w)) as K. cbv zeta in K.
  destruct (validateInputs (ui w)) as [[|] st]; cbn [negb snd] in *.
  - left. cbn [ui intervals isAnimating setAnimationProgress setIsAnimating].
    split; [reflexivity|]. rewrite I. eexists. reflexivity.
  - right. cbn [ui intervals setUi]. split; [|exact I].
    destruct K as (_ & _ & _ & _ & _ & K & _). congruence.
Qed.

Lemma tick_oneAnimation (id : nat) (w : @World Rng) :
  oneAnimation w -> oneAnimation (tick engine id w).
Proof.
  intros H. unfold tick.
  destruct (find _ (intervals w)) as [iv|] eqn:F; [|exact H].
  destruct H as [[A [iv0 I]]|[A I]]; [|rewrite I in F; discriminate F].
  destruct (animationProgress (ui w) >=? #100)%js.
  - destruct (engine _ _ _ _ _) as [r g']. right.
    cbn [ui intervals isAnimating setAnimationProgress setResult
         setIsAnimating].
    split; [reflexivity|]. rewrite I in *. cbn [find] in F.
    unfold clearInterval. cbn [filter].
    destruct (Nat.eqb (intervalId iv0) id); [reflexivity|discriminate F].
  - left. cbn [ui intervals setUi isAnimating setAnimationProgress].
    split; [exact A|]. exists iv0. exact I.
Qed.

Lemma session_oneAnimation (es : list Event) (w : @World Rng) :
  viaButton es = true -> oneAnimation w ->
  oneAnimation (session engine es w).
Proof.
  unfold session, viaButton. revert w.
  induction es as [|e es IH]; intros w V H; [exact H|].
  cbn [forallb] in V. apply andb_true_iff in V. destruct V as [Ve V].
  cbn [fold_left]. apply IH; [exact V|].
  destruct e as [field parsed|value| | |id]; cbn [step].
  - destruct (onChange_keeps field parsed (ui w)) as (_ & _ & _ & K & _).
    unfold oneAnimation in *. cbn [ui intervals setUi]. cbv zeta in K.
    rewrite K. exact H.
  - exact H.
  - discriminate Ve.
  - unfold click. destruct (isAnimating (ui w)) eqn:A; [exact H|].
    destruct H as [[A' _]|[_ I]]; [congruence|].
    apply runSimulation_oneAnimation; assumption.
  - apply tick_oneAnimation, H.
Qed.

(** X5.  After the mount, while runSimulation is reached through the
    button only, at most one interval is registered at any time, and one
    is registered exactly while [isAnimating] is set and the button
    disabled; every earlier interval has made its engine call. *)
Theorem button_starts_one_animation_at_a_time (g : Rng)
  (es : list Event) :
  viaButton es = true ->
  let w := session engine es (mounted g) in
  (List.length (intervals w) <= 1)%nat /\
  (isAnimating (ui w) = true <-> intervals w <> []) /\
  (List.length (engineCalls w) + (if isAnimating (ui w) then 1 else 0))%nat
  = nextIntervalId w.
Proof.
  intros V. cbv zeta.
  assert (H : oneAnimation (session engine es (mounted g))).
  { apply session_oneAnimation; [exact V|].
    apply runSimulation_oneAnimation; reflexivity. }
  assert (C : accounted (session engine es (mounted g))).
  { change (session engine es (mounted g))
      with (session engine (Run :: es) (unmounted g)).
    apply session_invariant; [apply step_accounted|].
    split; [constructor|]. split; [intros iv []|reflexivity]. }
  destruct C as (_ & _ & C).
  destruct H as [[A [iv I]]|[A I]]; rewrite A, I in *; cbn [List.length] in *.
  - split; [lia|]. split; [|exact C]. split; [discriminate|reflexivity].
  - split; [lia|]. split; [|exact C]. split; [discriminate|].
    intros H. exfalso. apply H. reflexivity.
Qed.

(** *** The text fields hold numbers *)

Lemma orZero_number (x : number) : is_nan (orZero x) = false.
Proof. destruct x; reflexivity. Qed.

Lemma tick_keeps_inputs (id : nat) (w : @World Rng) :
  let w' := tick engine id w in
  taskA (ui w') = taskA (ui w) /\ taskB (ui w') = taskB (ui w) /\
  availableHours (ui w') = availableHours (ui w) /\
  trials (ui w') = trials (ui w).
Proof.
  unfold tick. destruct (find _ (intervals w)) as [iv|]; [|repeat split].
  destruct (animationProgress (ui w) >=? #100)%js; [|repeat split].
  destruct (engine _ _ _ _ _) as [r g']. repeat split.
Qed.

Lemma runSimulation_keeps_inputs (w : @World Rng) :
  let w' := runSimulation w in
  taskA (ui w') = taskA (ui w) /\ taskB (ui w') = taskB (ui w) /\
  availableHours (ui w') = availableHours (ui w) /\
  trials (ui w') = trials (ui w).
Proof.
  unfold runSimulation.
  pose proof (validateInputs_keeps_inputs (ui w)) as K. cbv zeta in K.
  destruct (validateInputs (ui w)) as [[|] st]; cbn [negb snd] in *;
    cbn [ui setUi taskA taskB availableHours trials setAnimationProgress
         setIsAnimating]; tauto.
Qed.

Lemma step_textInputsAreNumbers (e : Event) (w : @World Rng) :
  textInputsAreNumbers (ui w) -> textInputsAreNumbers (ui (step engine e w)).
Proof.
  unfold textInputsAreNumbers. intros (A1 & A2 & B1 & B2 & H).
  destruct e as [field parsed|value| | |id]; cbn [step].
  - pose proof (orZero_number parsed) as Z.
    destruct field; cbn; repeat split; assumption.
  - cbn. repeat split; assumption.
  - destruct (runSimulation_keeps_inputs w) as (EA & EB & EH & _).
    cbv zeta in *. rewrite EA, EB, EH. repeat split; assumption.
  - unfold click. destruct (isAnimating (ui w)); [repeat split; assumption|].
    destruct (runSimulation_keeps_inputs w) as (EA & EB & EH & _).
    cbv zeta in *. rewrite EA, EB, EH. repeat split; assumption.
  - destruct (tick_keeps_inputs id w) as (EA & EB & EH & _).
    cbv zeta in *. rewrite EA, EB, EH. repeat split; assumption.
Qed.

(** X6.  Whatever the text fields are given, the durations and the
    threshold of the form are never NaN: an entry that does not parse,
    like a zero, is stored as 0.  With a trial count that is a number,
    validateInputs then accepts the form exactly when 0 <= min <= max
    for both tasks, the threshold is positive and the trial count lies
    within [100, 10000]. *)
Theorem text_fields_hold_numbers (g : Rng) (es : list Event) :
  let st := ui (session engine es (unmounted g)) in
  textInputsAreNumbers st /\
  (is_nan (trials st) = false ->
   (fst (validateInputs st) = true <-> meetsPrecondition st)).
Proof.
  assert (H : textInputsAreNumbers (ui (session engine es (unmounted g)))).
  { apply (session_invariant (fun w => textInputsAreNumbers (ui w)));
      [apply step_textInputsAreNumbers|].
    repeat split. }
  cbv zeta. split; [exact H|]. intros T.
  apply ValidationFacts.validateInputs_true_iff.
  unfold inputsAreNumbers, textInputsAreNumbers in *. tauto.
Qed.

End WithEngine.

(** Witnesses on the reference engine. *)

Lemma changes_during_animation_do_not_reach_engine_witness :
  let engine := ReferenceEngine.runMonteCarloSimulation in
  let w := ReferenceEngine.initialWorld in
  let es := [Fire 0; Change TaskAMinimum (#3)%js; Fire 0; Slide (#200)%js] in
  fst (validateInputs (ui w)) = true /\
  freshIds w /\
  editsAndFires (nextIntervalId w) es = true /\
  (let n := fires (nextIntervalId w) es in
   let w' := session engine es (runSimulation w) in
   let out := engine (taskA (ui w)) (taskB (ui w)) (availableHours (ui w))
                (trials (ui w)) (rng w) in
   (taskA (ui w') = taskA (edits es (ui w)) /\
    taskB (ui w') = taskB (edits es (ui w)) /\
    availableHours (ui w') = availableHours (edits es (ui w)) /\
    trials (ui w') = trials (edits es (ui w))) /\
   ((n <= 25)%nat ->
    engineCalls w' = engineCalls w /\
    result (ui w') = result (ui w) /\
    isAnimating (ui w') = true) /\
   ((26 <= n)%nat ->
    engineCalls w' =
      engineCalls w ++
      [{| argTaskA := taskA (ui w);
          argTaskB := taskB (ui w);
          argThreshold := availableHours (ui w);
          argTrials := trials (ui w) |}] /\
    result (ui w') = Some (fst out) /\
    rng w' = snd out /\
    isAnimating (ui w') = false)).
Proof.
  cbv zeta.
  split; [exact RunFacts.initialWorld_accepted|].
  split; [exact RunFacts.initialWorld_fresh|].
  split; [reflexivity|].
  exact (changes_during_animation_do_not_reach_engine
           ReferenceEngine.runMonteCarloSimulation
           ReferenceEngine.initialWorld
           [Fire 0; Change TaskAMinimum (#3)%js; Fire 0; Slide (#200)%js]
           RunFacts.initialWorld_accepted RunFacts.initialWorld_fresh
           eq_refl).
Defined.

Lemma button_starts_one_animation_at_a_time_witness :
  let engine := ReferenceEngine.runMonteCarloSimulation in
  let es := [Click; Fire 0; Change AvailableHours (#9)%js; Click] in
  viaButton es = true /\
  (let w := session engine es (mounted 42) in
   (List.length (intervals w) <= 1)%nat /\
   (isAnimating (ui w) = true <-> intervals w <> []) /\
   (List.length (engineCalls w) + (if isAnimating (ui w) then 1 else 0))%nat
   = nextIntervalId w).
Proof.
  cbv zeta. split; [reflexivity|].
  exact (button_starts_one_animation_at_a_time
           ReferenceEngine.runMonteCarloSimulation 42
           [Click; Fire 0; Change AvailableHours (#9)%js; Click] eq_refl).
Defined.

End InteractionFacts.

(** ** The message of validateInputs *)

Module MessageFacts.

Import JS MonteCarloSimulator Contract.

(** X7.  validateInputs touches the error message and nothing else.  The
    message is empty exactly when the inputs are accepted, so that an
    accepted run clears the message of an earlier rejection, and each of
    the six messages is set only for inputs that show the fault it
    names, the faults being looked for in the order task A negative,
    task B negative, task A reversed, task B reversed, threshold, trial
    count. *)
Theorem validateInputs_message_names_the_fault (st : State) :
  let msg := inputError (snd (validateInputs st)) in
  snd (validateInputs st) = setInputError msg st /\
  (fst (validateInputs st) = true <-> msg = ""%string) /\
  (msg = "Task A durations must be positive"%string <->
   negativeDuration (taskA st)) /\
  (msg = "Task B durations must be positive"%string <->
   ~ negativeDuration (taskA st) /\ negativeDuration (taskB st)) /\
  (msg = "Task A minimum duration must be less than or equal to maximum"%string
   -> minAboveMax (taskA st)) /\
  (msg = "Task B minimum duration must be less than or equal to maximum"%string
   -> minAboveMax (taskB st)) /\
  (msg = "Available hours must be positive"%string ->
   (availableHours st <=? #0)%js = true) /\
  (msg = "Number of trials must be between 100 and 10,000"%string ->
   trialsOutOfRange (trials st)).
Proof.
  unfold validateInputs, negativeDuration, minAboveMax, trialsOutOfRange.
  destruct (minDuration (taskA st) <? #0)%js;
  destruct (maxDuration (taskA st) <? #0)%js;
  cbn [orb fst snd inputError setInputError];
  try (repeat split; intros; try discriminate; try tauto; intuition discriminate).
  destruct (minDuration (taskB st) <? #0)%js;
  destruct (maxDuration (taskB st) <? #0)%js;
  cbn [orb fst snd inputError setInputError];
  try (repeat split; intros; try discriminate; try tauto; intuition discriminate).
  destruct (minDuration (taskA st) >? maxDuration (taskA st))%js;
  cbn [orb fst snd inputError setInputError];
  try (repeat split; intros; try discriminate; try tauto; intuition discriminate).
  destruct (minDuration (taskB st) >? maxDuration (taskB st))%js;
  cbn [orb fst snd inputError setInputError];
  try (repeat split; intros; try discriminate; try tauto; intuition discriminate).
  destruct (availableHours st <=? #0)%js;
  cbn [orb fst snd inputError setInputError];
  try (repeat split; intros; try discriminate; try tauto; intuition discriminate).
  destruct (trials st <? #100)%js;
  destruct (trials st >? #10000)%js;
  cbn [orb fst snd inputError setInputError];
  repeat split; intros; try discriminate; try tauto; intuition discriminate.
Qed.

End MessageFacts.

(** ** The shape of the histogram *)

Module HistogramShape.

Import JS Rounding RoundingFacts MonteCarloSimulator Contract Rendering.

Lemma empty_bin_ends (i : nat) :
  (i < 10)%nat ->
  let minD := Math_min [] in
  let binSize := ((Math_max [] - minD) / numBins)%js in
  binStartOf minD binSize i = NaN /\ binEndOf minD binSize i = NaN.
Proof.
  intros H.
  do 10 (destruct i as [|i]; [vm_compute; split; reflexivity|]).
  exfalso. lia.
Qed.

(** X8.  With no durations at all the minimum is Infinity and the
    maximum -Infinity; the binning still returns ten bins, each with
    count 0, with NaN as both end points and marked failing, whatever
    the threshold. *)
Theorem empty_durations_give_ten_empty_failing_bins
  (successes total p thr : number) :
  let r := {| durations := []; successCount := successes;
              totalTrials := total; probability := p; threshold := thr |} in
  getHistogramData (Some r) =
  repeat {| range := (NaN, NaN); count := O;
            percentage := (#0 / total * #100)%js;
            isSuccess := false |} 10.
Proof.
  cbv zeta. rewrite HistogramFacts.getHistogramData_bins.
  cbn [durations threshold totalTrials].
  change (repeat ?b 10) with (map (fun _ : nat => b) (seq 0 10)).
  apply map_ext_in. intros i Hi. apply in_seq in Hi.
  destruct (empty_bin_ends i ltac:(lia)) as [Hs He]. cbv zeta in Hs, He.
  unfold makeBin. cbn [threshold totalTrials].
  change (Math_min [] + of_nat i * ((Math_max [] - Math_min []) / numBins))%js
    with (binStartOf (Math_min []) ((Math_max [] - Math_min []) / numBins)%js i).
  change (binStartOf (Math_min []) ((Math_max [] - Math_min []) / numBins)%js i
          + (Math_max [] - Math_min []) / numBins)%js
    with (binEndOf (Math_min []) ((Math_max [] - Math_min []) / numBins)%js i).
  rewrite Hs, He.
  replace (nth i (fillBins (Math_min []) ((Math_max [] - Math_min []) / numBins)%js [])
             O) with O.
  - reflexivity.
  - unfold fillBins. cbn [fold_left].
    do 10 (destruct i as [|i]; [reflexivity|]). exfalso. lia.
Qed.

(** X9.  When the bin size is positive every sample is counted once: the
    ten counts add up to the number of durations. *)
Theorem counts_sum_to_the_number_of_samples (r : SimulationResult) :
  durations r <> [] ->
  Forall nonnegFinite (durations r) ->
  (#0 <? (Math_max (durations r) - Math_min (durations r)) / numBins)%js
  = true ->
  list_sum (map count (getHistogramData (Some r)))
  = List.length (durations r).
Proof.
  intros Hne Hds Hb. rewrite HistogramFacts.getHistogramData_counts.
  apply (HistogramFacts.every_sample_counted (durations r) Hne Hds Hb).
Qed.

Lemma counts_sum_to_the_number_of_samples_witness :
  let r := Samples.spread in
  durations r <> [] /\
  Forall nonnegFinite (durations r) /\
  (#0 <? (Math_max (durations r) - Math_min (durations r)) / numBins)%js
  = true /\
  list_sum (map count (getHistogramData (Some r)))
  = List.length (durations r).
Proof.
  cbv zeta.
  split; [exact HistogramFacts.spread_not_empty|].
  split; [exact HistogramFacts.spread_nonnegFinite|].
  split; [vm_compute; reflexivity|].
  apply (counts_sum_to_the_number_of_samples Samples.spread).
  - exact HistogramFacts.spread_not_empty.
  - exact HistogramFacts.spread_nonnegFinite.
  - vm_compute. reflexivity.
Defined.

Lemma binStart_Mag mn b wmn wb i :
  Mag false mn wmn -> Mag false b wb -> is_finite b = true ->
  (i < 10)%nat ->
  Mag false (binStartOf mn b i)
    (roundValue (wmn + roundValue (mulValue (W (Z.of_nat i) 0) wb))).
Proof.
  intros Hmn Hb Fb Hi. destruct (of_nat_Mag i Hi) as [Hn Fn].
  unfold binStartOf.
  apply add_spec; [exact Hmn|].
  now apply mul_spec.
Qed.

Lemma W_nat_mono (i j : nat) :
  (i <= j)%nat -> 0 <= W (Z.of_nat i) 0 <= W (Z.of_nat j) 0.
Proof.
  intros H. unfold W.
  pose proof (pow2_pos (0 - G) ltac:(unfold G; lia)). nia.
Qed.

(** X10.  The bins of finite non-negative durations are ordered
    intervals: no bin starts below the minimum duration, the first one
    starts at it, each bin ends no earlier than it starts, and a later
    bin starts no earlier than an earlier one. *)
Theorem bins_are_ordered_intervals (r : SimulationResult) (i j : nat)
  (bi bj : Bin) :
  durations r <> [] ->
  Forall nonnegFinite (durations r) ->
  (i <= j)%nat ->
  nth_error (getHistogramData (Some r)) i = Some bi ->
  nth_error (getHistogramData (Some r)) j = Some bj ->
  let minD := Math_min (durations r) in
  (minD <=? fst (range bi))%js = true /\
  (fst (range bi) <=? snd (range bi))%js = true /\
  (fst (range bi) <=? fst (range bj))%js = true /\
  (i = O -> (fst (range bi) <=? minD)%js = true).
Proof.
  intros Hne Hds Hij Hi Hj.
  assert (Lj : (j < 10)%nat).
  { rewrite <- (HistogramFacts.getHistogramData_length r).
    apply nth_error_Some. congruence. }
  assert (Li : (i < 10)%nat) by lia.
  rewrite (HistogramFacts.getHistogramData_nth r i Li) in Hi.
  rewrite (HistogramFacts.getHistogramData_nth r j Lj) in Hj.
  injection Hi as <-. injection Hj as <-.
  cbv zeta. unfold makeBin. cbn [range fst snd].
  set (minD := Math_min (durations r)).
  set (binSize := ((Math_max (durations r) - minD) / numBins)%js).
  change (minD + of_nat i * binSize)%js with (binStartOf minD binSize i).
  change (minD + of_nat j * binSize)%js with (binStartOf minD binSize j).
  destruct (HistogramFacts.binSize_Mag (durations r) Hne Hds)
    as (wmn & wb & Hmn & Hb & Fb).
  fold minD in Hmn. fold minD binSize in Hb, Fb.
  pose proof (Mag_nonneg _ _ _ Hmn) as Pmn.
  pose proof (Mag_nonneg _ _ _ Hb) as Pb.
  pose proof (binStart_Mag minD binSize wmn wb i Hmn Hb Fb Li) as Si.
  pose proof (binStart_Mag minD binSize wmn wb j Hmn Hb Fb Lj) as Sj.
  set (vi := roundValue (mulValue (W (Z.of_nat i) 0) wb)) in *.
  set (vj := roundValue (mulValue (W (Z.of_nat j) 0) wb)) in *.
  assert (Pi : 0 <= vi).
  { apply roundValue_nonneg, mulValue_nonneg; [apply (W_nat_mono 0 i)|]; lia. }
  assert (Pij : vi <= vj).
  { apply roundValue_mono. split.
    - apply mulValue_nonneg; [apply (W_nat_mono 0 i)|]; lia.
    - apply mulValue_mono; [|exact Pb].
      split; [apply (W_nat_mono 0 i)|apply (W_nat_mono i j)]; lia. }
  pose proof (roundValue_nonneg (wmn + vi) ltac:(lia)) as Psi.
  split; [|split; [|split]].
  - apply (Mag_le _ _ _ _ (Mag_roundValue _ _ _ Hmn) Si).
    apply roundValue_mono. lia.
  - apply (Mag_le _ _ _ _ (Mag_roundValue _ _ _ Si)
             (add_spec _ _ _ _ Si Hb)).
    apply roundValue_mono. lia.
  - apply (Mag_le _ _ _ _ Si Sj). apply roundValue_mono. lia.
  - intros ->. apply (Mag_le _ _ _ _ Si (Mag_roundValue _ _ _ Hmn)).
    assert (E : vi = 0).
    { unfold vi. change (W (Z.of_nat 0) 0) with 0.
      unfold mulValue. rewrite Z.mul_0_l. apply roundValue_0. }
    rewrite E, Z.add_0_r. lia.
Qed.

Lemma bins_are_ordered_intervals_witness :
  let r := Samples.spread in
  let bin (k : nat) := nth k (getHistogramData (Some r))
                         {| range := (NaN, NaN); count := O;
                            percentage := NaN; isSuccess := false |} in
  durations r <> [] /\
  Forall nonnegFinite (durations r) /\
  (0 <= 3)%nat /\
  nth_error (getHistogramData (Some r)) 0 = Some (bin 0%nat) /\
  nth_error (getHistogramData (Some r)) 3 = Some (bin 3%nat) /\
  (let minD := Math_min (durations r) in
   (minD <=? fst (range (bin 0%nat)))%js = true /\
   (fst (range (bin 0%nat)) <=? snd (range (bin 0%nat)))%js = true /\
   (fst (range (bin 0%nat)) <=? fst (range (bin 3%nat)))%js = true /\
   (O = O -> (fst (range (bin 0%nat)) <=? minD)%js = true)).
Proof.
  cbv zeta.
  split; [exact HistogramFacts.spread_not_empty|].
  split; [exact HistogramFacts.spread_nonnegFinite|].
  split; [lia|].
  split; [vm_compute; reflexivity|].
  split; [vm_compute; reflexivity|].
  apply (bins_are_ordered_intervals Samples.spread 0 3).
  - exact HistogramFacts.spread_not_empty.
  - exact HistogramFacts.spread_nonnegFinite.
  - lia.
  - vm_compute. reflexivity.
  - vm_compute. reflexivity.
Defined.

(** X11.  Raising the threshold never turns a bin marked as succeeding
    into a failing one. *)
Theorem raising_the_threshold_keeps_success (r : SimulationResult)
  (t : number) (i : nat) :
  (threshold r <=? t)%js = true ->
  nth i (map isSuccess (getHistogramData (Some r))) false = true ->
  nth i (map isSuccess (getHistogramData (Some (withThreshold t r)))) false
  = true.
Proof.
  intros Ht Hi.
  assert (Li : (i < 10)%nat).
  { destruct (Nat.lt_ge_cases i 10) as [L|L]; [exact L|].
    rewrite nth_overflow in Hi; [discriminate Hi|].
    rewrite length_map, HistogramFacts.getHistogramData_length. exact L. }
  rewrite (nth_indep _ false true) in Hi
    by (rewrite length_map, HistogramFacts.getHistogramData_length; exact Li).
  rewrite (nth_indep _ false true)
    by (rewrite length_map, HistogramFacts.getHistogramData_length; exact Li).
  rewrite (HistogramFacts.flags_nth r i Li) in Hi.
  rewrite (HistogramFacts.flags_nth (withThreshold t r) i Li).
  cbn [withThreshold durations threshold].
  eapply NumberFacts.le_trans; eassumption.
Qed.

Lemma raising_the_threshold_keeps_success_witness :
  let r := Samples.spread in
  (threshold r <=? #9)%js = true /\
  nth 7 (map isSuccess (getHistogramData (Some r))) false = true /\
  nth 7 (map isSuccess (getHistogramData (Some (withThreshold (#9)%js r))))
    false = true.
Proof.
  cbv zeta.
  split; [vm_compute; reflexivity|].
  split; [vm_compute; reflexivity|].
  apply (raising_the_threshold_keeps_success Samples.spread (#9)%js 7).
  - vm_compute. reflexivity.
  - vm_compute. reflexivity.
Defined.

End HistogramShape.

(** ** The order of the bands *)

Module BandFacts.

Import JS MonteCarloSimulator Rendering.

(** X12.  A result with a higher probability never gets a lower band. *)
Theorem higher_probability_never_lowers_the_band (r r' : SimulationResult) :
  (probability r <=? probability r')%js = true ->
  (bandRank (interpretationBand r) <= bandRank (interpretationBand r'))%nat.
Proof.
  intros H. unfold interpretationBand.
  assert (T : forall l, (probability r >=? l)%js = true ->
                        (probability r' >=? l)%js = true).
  { intros l A. exact (NumberFacts.le_trans l _ _ A H). }
  destruct (probability r >=? lit_0_8)%js eqn:A.
  - rewrite (T _ A). cbn. lia.
  - destruct (probability r >=? lit_0_5)%js eqn:B.
    + rewrite (T _ B).
      destruct (probability r' >=? lit_0_8)%js; cbn; lia.
    + destruct (probability r' >=? lit_0_8)%js; [cbn; lia|].
      destruct (probability r' >=? lit_0_5)%js; cbn; lia.
Qed.

Lemma higher_probability_never_lowers_the_band_witness :
  (probability Samples.spread <=? probability Samples.threeFives)%js = true /\
  (bandRank (interpretationBand Samples.spread)
   <= bandRank (interpretationBand Samples.threeFives))%nat.
Proof.
  split; [vm_compute; reflexivity|].
  apply (higher_probability_never_lowers_the_band
           Samples.spread Samples.threeFives).
  vm_compute. reflexivity.
Defined.

End BandFacts.

(** ** The navigation bar *)

Module NavBarFacts.

Import NavBar.

Local Open Scope string_scope.

Lemma itemClass_highlighted (active : bool) :
  String.eqb (itemClass active) (itemClass true) = active.
Proof. destruct active; vm_compute; reflexivity. Qed.

Lemma logo_not_highlighted :
  String.eqb logoClass (itemClass true) = false.
Proof. vm_compute. reflexivity. Qed.

(** X13.  The bar has four links.  The logo, which also leads to "/", is
    never highlighted; each of the three navigation links is highlighted
    exactly when [location.pathname] is its target.  So at most one link
    is highlighted, none when the path is not one of the three targets,
    and on "/" the highlighted link is Home. *)
Theorem at_most_one_link_is_highlighted (pathname : string) :
  map label (NavBar pathname)
  = ["AlgoWizard"; "Home"; "Las Vegas"; "Monte Carlo"] /\
  (forall l, In l (NavBar pathname) ->
     (highlighted l = true <->
      pathname = to l /\ label l <> "AlgoWizard")) /\
  (List.length (filter highlighted (NavBar pathname)) <= 1)%nat /\
  (pathname <> "/" -> pathname <> "/las-vegas" ->
   pathname <> "/monte-carlo" -> filter highlighted (NavBar pathname) = []) /\
  (pathname = "/" ->
   map label (filter highlighted (NavBar pathname)) = ["Home"]).
Proof.
  split; [reflexivity|].
  split.
  { intros l Hl. cbn [NavBar In] in Hl.
    destruct Hl as [<-|[<-|[<-|[<-|[]]]]];
      unfold highlighted; cbn [className to label];
      rewrite ?itemClass_highlighted, ?logo_not_highlighted,
        ?String.eqb_eq.
    - split; [discriminate|]. intros [_ H]. now contradiction H.
    - split; [intros H; split; [exact H|discriminate]|now intros [H _]].
    - split; [intros H; split; [exact H|discriminate]|now intros [H _]].
    - split; [intros H; split; [exact H|discriminate]|now intros [H _]]. }
  unfold NavBar. cbn [filter]. unfold highlighted. cbn [className].
  rewrite !itemClass_highlighted, logo_not_highlighted.
  destruct (String.eqb_spec pathname "/") as [E1|N1].
  { subst pathname. cbn.
    split; [lia|]. split; [congruence|]. reflexivity. }
  destruct (String.eqb_spec pathname "/las-vegas") as [E2|N2].
  { subst pathname. cbn.
    split; [lia|]. split; [congruence|]. discriminate. }
  destruct (String.eqb_spec pathname "/monte-carlo") as [E3|N3].
  { subst pathname. cbn.
    split; [lia|]. split; [congruence|]. discriminate. }
  cbn. split; [lia|]. split; [reflexivity|]. intros E. contradiction.
Qed.

End NavBarFacts.

(** ** Quotients of counts *)

Module QuotientFacts.

Import JS Rounding RoundingFacts.

Lemma pow_scale_lt a b x y x' y' :
  0 <= x -> 0 <= y -> 0 <= x' -> 0 <= y' -> x - y = x' - y' ->
  a * 2 ^ x < b * 2 ^ y -> a * 2 ^ x' < b * 2 ^ y'.
Proof.
  intros Hx Hy Hx' Hy' E H.
  destruct (Z_lt_ge_dec (a * 2 ^ x') (b * 2 ^ y')) as [L|L]; [exact L|].
  exfalso.
  pose proof (pow_scale_le b a y' x' y x Hy' Hx' Hy Hx ltac:(lia) ltac:(lia)).
  lia.
Qed.

(** A quotient of a number by a larger one is at most one. *)
Lemma div_lt_one mx ex my ey :
  bounded prec emax mx ex = true -> bounded prec emax my ey = true ->
  W (Z.pos mx) ex < W (Z.pos my) ey ->
  exists w,
    Mag false (S754_finite false mx ex / S754_finite false my ey)%js w /\
    w <= W 1 0.
Proof.
  intros Hbx Hby Hlt.
  destruct (div_value mx ex my ey Hbx Hby)
    as (q & e' & q' & Hn & Hs & HG & Ee' & Eq & Hd & Hq' & HM).
  exists (W q' (e' + shiftOf q e')). split; [exact HM|].
  destruct (bounded_range mx ex Hbx) as (Hex & _).
  destruct (bounded_range my ey Hby) as (Hey & _).
  set (k := digits (Z.pos mx) + ex - (digits (Z.pos my) + ey)) in *.
  assert (Hk : k <= 0).
  { pose proof (W_digits_bounds (Z.pos mx) ex ltac:(lia) ltac:(unfold G; lia))
      as [Hx1 _].
    pose proof (W_digits_bounds (Z.pos my) ey ltac:(lia) ltac:(unfold G; lia))
      as [_ Hy2].
    assert (H : 2 ^ (digits (Z.pos mx) - 1 + ex - G)
                < 2 ^ (digits (Z.pos my) + ey - G)) by lia.
    apply Z.pow_lt_mono_r_iff in H;
      [|lia|pose proof (digits_pos (Z.pos my)); unfold G; lia].
    unfold k. lia. }
  rewrite fexp_eq in Ee'.
  assert (He' : e' <= -53) by lia.
  set (n := shiftOf q e') in *.
  assert (HE : e' + n <= -52).
  { unfold n, shiftOf. rewrite fexp_eq. lia. }
  assert (HP : 0 < 2 ^ n) by (apply pow2_pos; lia).
  assert (Hq1 : q < 2 ^ (- e')).
  { rewrite Eq. apply Z.div_lt_upper_bound; [lia|].
    apply (pow_scale_lt (Z.pos mx) (Z.pos my) (ex - G) (ey - G));
      try (unfold G; lia).
    unfold W in Hlt. exact Hlt. }
  assert (Hq2 : q / 2 ^ n < 2 ^ (- (e' + n))).
  { apply Z.div_lt_upper_bound; [lia|].
    rewrite <- Z.pow_add_r by lia.
    replace (n + - (e' + n)) with (- e') by lia. exact Hq1. }
  assert (E1 : W 1 0 = 2 ^ (- (e' + n)) * 2 ^ (e' + n - G)).
  { unfold W. rewrite <- Z.pow_add_r by (unfold G in *; lia).
    rewrite Z.mul_1_l. f_equal. lia. }
  rewrite E1. unfold W.
  apply Z.mul_le_mono_nonneg_r.
  - pose proof (pow2_pos (e' + n - G) ltac:(unfold G in *; lia)). lia.
  - destruct Hq' as [-> | ->]; lia.
Qed.

(** A positive number divided by itself is one. *)
Lemma div_self m e :
  (S754_finite false m e / S754_finite false m e)%js = (#1)%js.
Proof.
  unfold div, SFdiv, SFdiv_core_binary.
  rewrite !Z.sub_diag.
  change (Z.min (SpecFloat.fexp prec emax 0) 0) with (-53).
  change (0 - -53) with 53. cbv iota.
  rewrite Z.shiftl_mul_pow2 by lia.
  assert (E : Z.div_eucl (Z.pos m * 2 ^ 53) (Z.pos m) = (2 ^ 53, 0)).
  { pose proof (Z_div_mod (Z.pos m * 2 ^ 53) (Z.pos m) ltac:(lia)) as H.
    destruct (Z.div_eucl (Z.pos m * 2 ^ 53) (Z.pos m)) as [q r].
    destruct H as [H1 H2].
    assert (r = 0 /\ q = 2 ^ 53) as [-> ->]; [|reflexivity].
    assert (Hr : Z.pos m * (2 ^ 53 - q) = r) by lia.
    assert (2 ^ 53 - q = 0) by nia. lia. }
  rewrite E. cbn [xorb].
  assert (L : new_location (Z.pos m) 0 = loc_Exact).
  { unfold new_location, new_location_even, new_location_odd.
    destruct (Z.even (Z.pos m)); reflexivity. }
  rewrite L. vm_compute. reflexivity.
Qed.

(** Integers below 2^53 are numbers. *)
Lemma of_nat_exact (n : nat) :
  0 < Z.of_nat n < 2 ^ 53 ->
  exists m e, of_nat n = S754_finite false m e /\
              bounded prec emax m e = true /\
              W (Z.pos m) e = W (Z.of_nat n) 0.
Proof.
  intros Hn.
  assert (HM : Mag false (of_nat n) (W (Z.of_nat n) 0)).
  { unfold of_nat, of_Z, binary_normalize.
    destruct (Z.of_nat n) as [|p|p] eqn:E; try lia.
    rewrite <- (roundValue_integer (Z.pos p) Hn).
    apply binary_round_spec. unfold G. lia. }
  apply (Mag_finite_pos _ _ HM).
  split; [apply W_pos; unfold G; lia|].
  apply Z.le_lt_trans with (W (2 ^ 53) 0).
  - apply W_mono; [unfold G; lia|]. lia.
  - rewrite W_pow by (unfold G; lia). rewrite OVF_eq.
    apply Z.pow_lt_mono_r; unfold G; lia.
Qed.

Lemma of_nat_0 : of_nat 0 = S754_zero false.
Proof. reflexivity. Qed.

Lemma of_nat_Mag_exact (n : nat) :
  Z.of_nat n < 2 ^ 53 ->
  Mag false (of_nat n) (W (Z.of_nat n) 0) /\ is_finite (of_nat n) = true.
Proof.
  intros Hn. destruct n as [|n].
  - split; reflexivity.
  - destruct (of_nat_exact (S n) ltac:(lia)) as (m & e & E & Hb & HW).
    rewrite E. split; [|reflexivity]. cbn [Mag]. auto.
Qed.

Lemma hundred_Mag : Mag false (#100)%js (W 100 0).
Proof. vm_compute. repeat split; reflexivity. Qed.

Lemma mulValue_hundred w : 0 <= w -> mulValue w (W 100 0) = 100 * w.
Proof.
  intros Hw. unfold mulValue, W. change (0 - G) with 2148.
  rewrite Z.mul_assoc, Z.div_mul by (apply Z.pow_nonzero; lia). lia.
Qed.

(** A percentage of a fraction of at most one is at most 100. *)
Lemma percent_le_hundred x w :
  Mag false x w -> w <= W 1 0 ->
  (#0 <=? x * #100)%js = true /\ (x * #100 <=? #100)%js = true.
Proof.
  intros Hx Hw.
  assert (F : is_finite x = true).
  { apply (Mag_lt_OVF_finite _ _ _ Hx).
    apply Z.le_lt_trans with (W 1 0); [exact Hw|].
    change 1 with (2 ^ 0) at 1.
    rewrite W_pow by (unfold G; lia). rewrite OVF_eq.
    apply Z.pow_lt_mono_r; unfold G; lia. }
  pose proof (Mag_nonneg _ _ _ Hx) as P.
  pose proof (mul_spec _ _ _ _ Hx hundred_Mag F eq_refl) as HM.
  rewrite mulValue_hundred in HM by exact P.
  split.
  - apply (Mag_le _ _ _ _ zero_Mag HM). apply roundValue_nonneg. lia.
  - apply (Mag_le _ _ _ _ HM hundred_Mag).
    rewrite <- (roundValue_integer 100) by lia.
    apply roundValue_mono. unfold W in *. lia.
Qed.

(** The percentage that a count is of a total: between 0 and 100, and
    100 for the total itself. *)
Lemma percentage_of_count (c T : nat) :
  (c <= T)%nat -> (0 < T)%nat -> Z.of_nat T < 2 ^ 53 ->
  let p := (of_nat c / of_nat T * #100)%js in
  (#0 <=? p)%js = true /\ (p <=? #100)%js = true /\
  (c = T -> p = (#100)%js).
Proof.
  intros Hc HT Hb. cbv zeta.
  destruct (of_nat_exact T ltac:(lia)) as (mt & et & Et & Bt & Wt).
  rewrite Et.
  destruct (Nat.eq_dec c 0) as [->|NZ].
  - change (of_nat 0) with (S754_zero false).
    repeat split; try reflexivity. intros <-. lia.
  - destruct (of_nat_exact c ltac:(lia)) as (mc & ec & Ec & Bc & Wc).
    rewrite Ec.
    destruct (Nat.eq_dec c T) as [E|NE].
    + assert (S754_finite false mc ec = S754_finite false mt et) as ->
        by (rewrite <- Ec, <- Et, E; reflexivity).
      rewrite div_self. repeat split; vm_compute; reflexivity.
    + assert (Hlt : W (Z.pos mc) ec < W (Z.pos mt) et).
      { rewrite Wc, Wt. unfold W.
        pose proof (pow2_pos (0 - G) ltac:(unfold G; lia)). nia. }
      destruct (div_lt_one mc ec mt et Bc Bt Hlt) as (w & HM & Hw).
      destruct (percent_le_hundred _ _ HM Hw) as [H0 H100].
      repeat split; [exact H0|exact H100|].
      intros E. contradiction.
Qed.

End QuotientFacts.

(** ** The heights of the bars *)

Module BarFacts.

Import JS Rounding RoundingFacts MonteCarloSimulator Contract Rendering.
Import QuotientFacts.

Lemma max_step_le_new highest x :
  is_nan highest = false -> is_nan x = false ->
  (x <=? max_step highest x)%js = true.
Proof.
  intros Hl Hx. unfold max_step. rewrite Hl, Hx.
  assert (H : forall r, r = (if (x >? highest)%js then x else highest) ->
             (x <=? r)%js = true).
  { intros r ->. unfold gt. fold (lt highest x).
    destruct (highest <? x)%js eqn:E.
    - now apply le_refl.
    - now apply lt_false_le. }
  destruct x as [[|]|sx| |sx mx ex], highest as [[|]|sy| |sy my ey];
    try (apply H; reflexivity).
  reflexivity.
Qed.

Lemma fold_max_upper ds acc :
  is_nan acc = false -> Forall (fun d => is_nan d = false) ds ->
  forall d, In d ds -> (d <=? fold_left max_step ds acc)%js = true.
Proof.
  revert acc. induction ds as [|d0 ds IH]; intros acc Ha Hds d Hin;
    [destruct Hin|].
  inversion Hds as [|? ? Hd Hds']; subst. cbn [fold_left].
  destruct (HistogramFacts.max_step_spec acc d0 Ha Hd) as [Hc _].
  assert (Hn : is_nan (max_step acc d0) = false)
    by (destruct Hc as [-> | ->]; assumption).
  destruct Hin as [<-|Hin].
  - destruct (HistogramFacts.fold_max_spec ds _ Hn Hds') as [_ Hle].
    cbv zeta in Hle.
    eapply NumberFacts.le_trans; [|exact Hle].
    now apply max_step_le_new.
  - now apply IH.
Qed.

Lemma Math_max_upper ds :
  Forall (fun d => is_nan d = false) ds ->
  forall d, In d ds -> (d <=? Math_max ds)%js = true.
Proof.
  intros Hds d Hin. unfold Math_max.
  apply fold_max_upper; [reflexivity|exact Hds|exact Hin].
Qed.

Lemma W_nat_le (a b : nat) :
  W (Z.of_nat a) 0 <= W (Z.of_nat b) 0 -> (a <= b)%nat.
Proof.
  unfold W. pose proof (pow2_pos (0 - G) ltac:(unfold G; lia)). nia.
Qed.

(** [maxBinCount] is the largest count. *)
Lemma maxBinCount_spec (data : list Bin) :
  data <> [] ->
  Forall (fun b => Z.of_nat (count b) < 2 ^ 53) data ->
  exists top, In top data /\
    maxBinCount data = of_nat (count top) /\
    forall b, In b data -> (count b <= count top)%nat.
Proof.
  intros Hne Hb. unfold maxBinCount.
  destruct data as [|b0 data']; [congruence|].
  cbn [List.length Nat.ltb Nat.leb]. set (data := b0 :: data') in *.
  set (ds := map (fun bin => of_nat (count bin)) data).
  assert (Hnan : Forall (fun d => is_nan d = false) ds).
  { unfold ds. rewrite Forall_map. eapply Forall_impl; [|exact Hb].
    intros b H. cbv beta in H.
    destruct (of_nat_Mag_exact _ H) as [HM _].
    apply (Mag_not_nan _ _ _ HM). }
  assert (Hds : ds <> []) by (unfold ds, data; discriminate).
  destruct (HistogramFacts.Math_min_max_spec ds Hds Hnan) as (_ & Imax & _).
  unfold ds in Imax. apply in_map_iff in Imax.
  destruct Imax as (top & Etop & Itop). fold ds in Etop.
  exists top. split; [exact Itop|]. split; [symmetry; exact Etop|].
  intros b Ib. rewrite Forall_forall in Hb.
  assert (Hle : (of_nat (count b) <=? Math_max ds)%js = true).
  { apply Math_max_upper; [exact Hnan|].
    unfold ds. apply in_map_iff. exists b. auto. }
  rewrite <- Etop in Hle.
  destruct (of_nat_Mag_exact _ (Hb b Ib)) as [Mb Fb].
  destruct (of_nat_Mag_exact _ (Hb top Itop)) as [Mt Ft].
  apply W_nat_le. apply (Mag_le_inv _ _ _ _ Mb Mt Fb Ft Hle).
Qed.

Lemma barHeight_range (data : list Bin) (bin : Bin) :
  Forall (fun b => Z.of_nat (count b) < 2 ^ 53) data ->
  (exists b, In b data /\ (0 < count b)%nat) ->
  In bin data ->
  let h := barHeight (maxBinCount data) bin in
  (#0 <=? h)%js = true /\ (h <=? #100)%js = true /\
  ((forall b, In b data -> (count b <= count bin)%nat) -> h = (#100)%js).
Proof.
  intros Hb (b1 & I1 & P1) Ibin. cbv zeta.
  assert (Hne : data <> []) by (intros ->; destruct Ibin).
  destruct (maxBinCount_spec data Hne Hb) as (top & Itop & Emax & Htop).
  rewrite Emax. unfold barHeight.
  pose proof (Htop _ I1) as T1. pose proof (Htop _ Ibin) as Tb.
  rewrite Forall_forall in Hb.
  destruct (percentage_of_count (count bin) (count top) Tb ltac:(lia)
              (Hb top Itop)) as (H0 & H100 & He).
  repeat split; [exact H0|exact H100|].
  intros H. apply He. specialize (H _ Itop). lia.
Qed.

Lemma count_le_samples (r : SimulationResult) (b : Bin) :
  In b (getHistogramData (Some r)) ->
  (count b <= List.length (durations r))%nat.
Proof.
  intros Hin.
  assert (Hc : In (count b) (map count (getHistogramData (Some r))))
    by (apply in_map; exact Hin).
  rewrite HistogramFacts.getHistogramData_counts in Hc.
  apply (In_nth _ _ O) in Hc. destruct Hc as (k & Hk & E).
  rewrite HistogramFacts.fillBins_length in Hk.
  rewrite HistogramFacts.fillBins_nth in E by exact Hk.
  rewrite <- E. unfold samplesInBin. apply filter_length_le.
Qed.

Lemma list_sum_positive (l : list nat) :
  list_sum l <> O -> exists n, In n l /\ (0 < n)%nat.
Proof.
  induction l as [|a l IH]; [intros H; exfalso; apply H; reflexivity|].
  intros H. change (a + list_sum l <> 0)%nat in H. destruct a as [|a].
  - destruct (IH H) as (n & Hn & Pn). exists n. split; [now right|exact Pn].
  - exists (S a). split; [now left|lia].
Qed.

Lemma list_sum_zero (l : list nat) :
  list_sum l = O -> forall n, In n l -> n = O.
Proof.
  induction l as [|a l IH]; [intros _ n []|].
  intros H. change (a + list_sum l = 0)%nat in H.
  intros n [<-|Hn]; [lia|].
  apply IH; [lia|exact Hn].
Qed.

(** X14.  When at least one sample was counted, the height of every bar
    lies between 0 and 100 percent, and a bar that holds the largest
    count is exactly 100 percent high.  The counts are taken to be below
    2^53, as the length of an array is. *)
Theorem bar_heights_are_percentages (r : SimulationResult) (bin : Bin) :
  Z.of_nat (List.length (durations r)) < 2 ^ 53 ->
  list_sum (map count (histogramData (Some r))) <> O ->
  In bin (histogramData (Some r)) ->
  let h := barHeight (maxBinCount (histogramData (Some r))) bin in
  (#0 <=? h)%js = true /\ (h <=? #100)%js = true /\
  ((forall b, In b (histogramData (Some r)) -> (count b <= count bin)%nat) ->
   h = (#100)%js).
Proof.
  intros Hlen Hsum Hin. cbn [histogramData] in *.
  apply barHeight_range; [| |exact Hin].
  - rewrite Forall_forall. intros b Hb.
    pose proof (count_le_samples r b Hb). lia.
  - destruct (list_sum_positive _ Hsum) as (n & Hn & Pn).
    apply in_map_iff in Hn. destruct Hn as (b & <- & Hb).
    exists b. split; assumption.
Qed.

Lemma bar_heights_are_percentages_witness :
  let r := Samples.spread in
  let bin := nth 9 (histogramData (Some r))
               {| range := (NaN, NaN); count := O;
                  percentage := NaN; isSuccess := false |} in
  Z.of_nat (List.length (durations r)) < 2 ^ 53 /\
  list_sum (map count (histogramData (Some r))) <> O /\
  In bin (histogramData (Some r)) /\
  (let h := barHeight (maxBinCount (histogramData (Some r))) bin in
   (#0 <=? h)%js = true /\ (h <=? #100)%js = true /\
   ((forall b, In b (histogramData (Some r)) -> (count b <= count bin)%nat) ->
    h = (#100)%js)).
Proof.
  cbv zeta.
  assert (L : Z.of_nat (List.length (durations Samples.spread)) < 2 ^ 53)
    by (vm_compute; reflexivity).
  assert (S : list_sum (map count (histogramData (Some Samples.spread))) <> O)
    by (vm_compute; discriminate).
  assert (I : In (nth 9 (histogramData (Some Samples.spread))
                    {| range := (NaN, NaN); count := O;
                       percentage := NaN; isSuccess := false |})
                (histogramData (Some Samples.spread))).
  { apply nth_In. cbn [histogramData].
    rewrite HistogramFacts.getHistogramData_length. lia. }
  split; [exact L|]. split; [exact S|]. split; [exact I|].
  exact (bar_heights_are_percentages Samples.spread _ L S I).
Defined.

(** X15.  When no sample was counted, as happens when all durations are
    equal or there are none, [maxBinCount] is 0 and the height of every
    bar is 0 / 0 * 100, which is NaN. *)
Theorem uncounted_samples_leave_bars_without_height (r : SimulationResult)
  (bin : Bin) :
  list_sum (map count (histogramData (Some r))) = O ->
  In bin (histogramData (Some r)) ->
  maxBinCount (histogramData (Some r)) = (#0)%js /\
  barHeight (maxBinCount (histogramData (Some r))) bin = NaN.
Proof.
  intros Hsum Hin. cbn [histogramData] in *.
  pose proof (list_sum_zero _ Hsum) as Hz.
  assert (E : maxBinCount (getHistogramData (Some r)) = (#0)%js).
  { unfold maxBinCount.
    rewrite HistogramFacts.getHistogramData_length.
    cbn [Nat.ltb Nat.leb].
    rewrite (map_ext_in _ (fun _ => (#0)%js)).
    - rewrite map_const, HistogramFacts.getHistogramData_length.
      apply (HistogramFacts.Math_max_identical (#0)%js 9).
    - intros b Hb. rewrite (Hz (count b)) by (apply in_map; exact Hb).
      reflexivity. }
  split; [exact E|]. rewrite E. unfold barHeight.
  rewrite (Hz (count bin)) by (apply in_map; exact Hin).
  vm_compute. reflexivity.
Qed.

Lemma uncounted_samples_leave_bars_without_height_witness :
  let r := Samples.threeFives in
  let bin := nth 0 (histogramData (Some r))
               {| range := (NaN, NaN); count := O;
                  percentage := NaN; isSuccess := false |} in
  list_sum (map count (histogramData (Some r))) = O /\
  In bin (histogramData (Some r)) /\
  maxBinCount (histogramData (Some r)) = (#0)%js /\
  barHeight (maxBinCount (histogramData (Some r))) bin = NaN.
Proof.
  cbv zeta.
  assert (S : list_sum (map count (histogramData (Some Samples.threeFives)))
              = O) by (vm_compute; reflexivity).
  assert (I : In (nth 0 (histogramData (Some Samples.threeFives))
                    {| range := (NaN, NaN); count := O;
                       percentage := NaN; isSuccess := false |})
                (histogramData (Some Samples.threeFives))).
  { apply nth_In. cbn [histogramData].
    rewrite HistogramFacts.getHistogramData_length. lia. }
  split; [exact S|]. split; [exact I|].
  exact (uncounted_samples_leave_bars_without_height
           Samples.threeFives _ S I).
Defined.

End BarFacts.

(** ** The first and the last bin, percentages, and NaN among the
       durations *)

Module BinningEdgeFacts.

Import JS Rounding RoundingFacts MonteCarloSimulator Contract Rendering.
Import QuotientFacts.

Lemma sub_self_finite (d : number) :
  is_finite d = true -> (d - d)%js = S754_zero false.
Proof.
  destruct d as [[|]|[|]| |s m e]; intros F; try discriminate F;
    try reflexivity.
  unfold sub, SFsub. rewrite Z.sub_diag. reflexivity.
Qed.

(** The index of a sample equal to the minimum, for a positive finite
    bin size. *)
Lemma binIndex_minimum (mn : number) mb eb :
  is_finite mn = true ->
  array_index (binIndex mn (S754_finite false mb eb) mn) = Some O.
Proof.
  intros F. unfold binIndex. rewrite (sub_self_finite mn F).
  vm_compute. reflexivity.
Qed.

Lemma filter_witness {A : Type} (f : A -> bool) (x : A) (l : list A) :
  In x l -> f x = true -> (0 < List.length (filter f l))%nat.
Proof.
  intros Hin Hf.
  assert (H : In x (filter f l)) by (apply filter_In; auto).
  destruct (filter f l); [destruct H|cbn; lia].
Qed.

(** X16.  When the range of finite non-negative durations is not tiny,
    the first and the last bar are never empty: the minimum is counted
    in bin 0 and the maximum in bin 9. *)
Theorem first_and_last_bin_are_not_empty (r : SimulationResult) :
  durations r <> [] ->
  Forall nonnegFinite (durations r) ->
  (tinyRange <=? Math_max (durations r) - Math_min (durations r))%js = true ->
  let minD := Math_min (durations r) in
  let maxD := Math_max (durations r) in
  let binSize := ((maxD - minD) / numBins)%js in
  let counts := map count (getHistogramData (Some r)) in
  array_index (binIndex minD binSize minD) = Some 0%nat /\
  array_index (binIndex minD binSize maxD) = Some 9%nat /\
  (0 < nth 0 counts O)%nat /\ (0 < nth 9 counts O)%nat.
Proof.
  intros Hne Hds Htiny. cbv zeta.
  set (ds := durations r) in *.
  assert (Hnan : Forall (fun d => is_nan d = false) ds).
  { eapply Forall_impl; [|exact Hds]. apply nonnegFinite_not_nan. }
  destruct (HistogramFacts.Math_min_max_spec ds Hne Hnan)
    as (Imin & Imax & Hle).
  destruct (HistogramFacts.maximum_in_last_bin ds Hne Hds Htiny)
    as [_ E9].
  pose proof Hds as Hds'. rewrite Forall_forall in Hds'.
  pose proof (Hds' _ Imin) as Gmin. pose proof (Hds' _ Imax) as Gmax.
  destruct (nonnegFinite_Mag _ Gmin) as [wmn Hmn].
  destruct (nonnegFinite_Mag _ Gmax) as [wmx Hmx].
  destruct Gmin as (_ & Fmin & _), Gmax as (_ & Fmax & _).
  pose proof (Mag_le_inv _ _ _ _ Hmn Hmx Fmin Fmax Hle) as Hw.
  pose proof (sub_spec _ _ _ _ Hmx Hmn Fmax Fmin Hw) as Hr.
  assert (Hlt : roundValue (wmx - wmn) < OVF).
  { apply Z.le_lt_trans with (roundValue wmx).
    - apply roundValue_mono. pose proof (Mag_nonneg _ _ _ Hmn). lia.
    - pose proof (Mag_roundValue _ _ _ Hmx) as Hmx'.
      destruct (Math_max ds) as [s|s| |s m e]; try discriminate Fmax.
      + cbn [Mag] in Hmx. subst wmx. rewrite roundValue_0. apply OVF_pos.
      + pose proof Hmx' as [-> _]. apply Mag_finite_range in Hmx'. lia. }
  pose proof (Mag_lt_OVF_finite _ _ _ Hr Hlt) as Fr.
  pose proof (Mag_le_inv _ _ _ _ tinyRange_Mag Hr eq_refl Fr Htiny) as Ht.
  assert (Hpos : 0 < 90 * 2 ^ 1074) by (pose proof (pow2_pos 1074); lia).
  destruct (Mag_finite_pos _ _ Hr ltac:(lia)) as (mr & er & Er & Hbr & HWr).
  destruct (binSize_bounds mr er Hbr ltac:(lia)) as (wb & Hb & Hb9 & Hb16).
  assert (Hwb : 0 < wb < OVF).
  { pose proof (W_bounded_lt_OVF mr er Hbr). lia. }
  destruct (Mag_finite_pos _ _ Hb Hwb) as (mb & eb & Eb & Hbb & HWb).
  assert (E0 : array_index
                 (binIndex (Math_min ds)
                    ((Math_max ds - Math_min ds) / numBins)%js (Math_min ds))
               = Some 0%nat).
  { rewrite Er. change numBins with (#10)%js. rewrite Eb.
    apply binIndex_minimum, Fmin. }
  assert (E9' : array_index
                  (binIndex (Math_min ds)
                     ((Math_max ds - Math_min ds) / numBins)%js (Math_max ds))
                = Some 9%nat).
  { rewrite E9. apply HistogramFacts.array_index_nine. }
  split; [exact E0|]. split; [exact E9'|].
  rewrite HistogramFacts.getHistogramData_counts. fold ds.
  rewrite !HistogramFacts.fillBins_nth by lia.
  unfold samplesInBin. split.
  - apply (filter_witness _ (Math_min ds)); [exact Imin|].
    rewrite E0. reflexivity.
  - apply (filter_witness _ (Math_max ds)); [exact Imax|].
    rewrite E9'. reflexivity.
Qed.

Lemma first_and_last_bin_are_not_empty_witness :
  let r := Samples.spread in
  durations r <> [] /\
  Forall nonnegFinite (durations r) /\
  (tinyRange <=? Math_max (durations r) - Math_min (durations r))%js = true /\
  (let minD := Math_min (durations r) in
   let maxD := Math_max (durations r) in
   let binSize := ((maxD - minD) / numBins)%js in
   let counts := map count (getHistogramData (Some r)) in
   array_index (binIndex minD binSize minD) = Some 0%nat /\
   array_index (binIndex minD binSize maxD) = Some 9%nat /\
   (0 < nth 0 counts O)%nat /\ (0 < nth 9 counts O)%nat).
Proof.
  cbv zeta.
  split; [exact HistogramFacts.spread_not_empty|].
  split; [exact HistogramFacts.spread_nonnegFinite|].
  split; [vm_compute; reflexivity|].
  apply (first_and_last_bin_are_not_empty Samples.spread).
  - exact HistogramFacts.spread_not_empty.
  - exact HistogramFacts.spread_nonnegFinite.
  - vm_compute. reflexivity.
Defined.

Lemma count_le_durations (r : SimulationResult) (b : Bin) :
  In b (getHistogramData (Some r)) ->
  (count b <= List.length (durations r))%nat /\
  percentage b = (of_nat (count b) / totalTrials r * #100)%js.
Proof.
  intros Hin. rewrite HistogramFacts.getHistogramData_bins in Hin.
  cbv zeta in Hin. apply in_map_iff in Hin.
  destruct Hin as (i & <- & Hi). apply in_seq in Hi.
  unfold makeBin. cbn [count percentage]. split; [|reflexivity].
  rewrite HistogramFacts.fillBins_nth by lia.
  unfold samplesInBin. apply filter_length_le.
Qed.

(** X17.  When the result's totalTrials is the number of its durations:
    with at least one duration the percentage of every bin lies between
    0 and 100, and it is 100 for a bin that holds every sample; with no
    duration every percentage is 0 / 0 * 100, which is NaN. *)
Theorem percentages_lie_between_0_and_100 (r : SimulationResult)
  (bin : Bin) :
  totalTrials r = of_nat (List.length (durations r)) ->
  Z.of_nat (List.length (durations r)) < 2 ^ 53 ->
  In bin (getHistogramData (Some r)) ->
  (durations r <> [] ->
   (#0 <=? percentage bin)%js = true /\
   (percentage bin <=? #100)%js = true /\
   (count bin = List.length (durations r) -> percentage bin = (#100)%js)) /\
  (durations r = [] -> percentage bin = NaN).
Proof.
  intros ET Hlen Hin.
  destruct (count_le_durations r bin Hin) as [Hc Ep].
  rewrite Ep, ET. split.
  - intros Hne. apply percentage_of_count; [exact Hc| |exact Hlen].
    destruct (durations r); [congruence|cbn; lia].
  - intros E. rewrite E in Hc |- *. cbn [List.length] in Hc |- *.
    assert (E0 : count bin = O) by lia. rewrite E0.
    vm_compute. reflexivity.
Qed.

Lemma percentages_lie_between_0_and_100_witness :
  let r := Samples.spread in
  let bin := nth 9 (getHistogramData (Some r))
               {| range := (NaN, NaN); count := O;
                  percentage := NaN; isSuccess := false |} in
  totalTrials r = of_nat (List.length (durations r)) /\
  Z.of_nat (List.length (durations r)) < 2 ^ 53 /\
  In bin (getHistogramData (Some r)) /\
  (#0 <=? percentage bin)%js = true /\
  (percentage bin <=? #100)%js = true.
Proof.
  cbv zeta.
  assert (I : In (nth 9 (getHistogramData (Some Samples.spread))
                    {| range := (NaN, NaN); count := O;
                       percentage := NaN; isSuccess := false |})
                (getHistogramData (Some Samples.spread))).
  { apply nth_In. rewrite HistogramFacts.getHistogramData_length. lia. }
  split; [reflexivity|].
  split; [vm_compute; reflexivity|].
  split; [exact I|].
  destruct (percentages_lie_between_0_and_100 Samples.spread _ eq_refl
              eq_refl I) as [H _].
  destruct (H HistogramFacts.spread_not_empty) as (H0 & H100 & _).
  split; [exact H0|exact H100].
Defined.

(** *** NaN among the durations *)

Lemma min_step_NaN_left (x : number) : min_step NaN x = NaN.
Proof. reflexivity. Qed.

Lemma fold_min_NaN (ds : list number) : fold_left min_step ds NaN = NaN.
Proof. induction ds as [|d ds IH]; [reflexivity|exact IH]. Qed.

Lemma min_step_NaN_right (lowest : number) : min_step lowest NaN = NaN.
Proof. unfold min_step. destruct (is_nan lowest); reflexivity. Qed.

Lemma fold_min_absorbs_NaN (ds : list number) (acc : number) :
  In NaN ds -> fold_left min_step ds acc = NaN.
Proof.
  revert acc. induction ds as [|d ds IH]; intros acc []; cbn [fold_left].
  - subst d. rewrite min_step_NaN_right. apply fold_min_NaN.
  - now apply IH.
Qed.

Lemma binIndex_NaN_minimum (binSize d : number) :
  array_index (binIndex NaN binSize d) = None.
Proof.
  apply HistogramFacts.binIndex_nan. unfold binQuotient.
  destruct d as [[|]|[|]| |s m e], binSize as [[|]|[|]| |s' m' e'];
    reflexivity.
Qed.

Lemma binEnd_NaN_minimum (binSize : number) (i : nat) :
  binEndOf NaN binSize i = NaN.
Proof. reflexivity. Qed.

(** X18.  One NaN among the durations empties the histogram: the minimum
    is then NaN, no sample is counted, and every bin is marked failing. *)
Theorem nan_duration_empties_the_histogram (r : SimulationResult) :
  In NaN (durations r) ->
  map count (getHistogramData (Some r)) = repeat O 10 /\
  map isSuccess (getHistogramData (Some r)) = repeat false 10.
Proof.
  intros Hin.
  assert (Emin : Math_min (durations r) = NaN)
    by (apply fold_min_absorbs_NaN, Hin).
  split.
  - rewrite HistogramFacts.getHistogramData_counts, Emin.
    unfold fillBins. apply HistogramFacts.fold_increment_none.
    intros d _. apply binIndex_NaN_minimum.
  - rewrite HistogramFacts.getHistogramData_bins. cbv zeta.
    rewrite map_map, Emin.
    change (repeat false 10) with (map (fun _ : nat => false) (seq 0 10)).
    apply map_ext. intros i. reflexivity.
Qed.

Lemma nan_duration_empties_the_histogram_witness :
  let r := {| durations := [#1; NaN; #2]%js; successCount := (#2)%js;
              totalTrials := (#3)%js; probability := (#2 / #3)%js;
              threshold := (#8)%js |} in
  In NaN (durations r) /\
  map count (getHistogramData (Some r)) = repeat O 10 /\
  map isSuccess (getHistogramData (Some r)) = repeat false 10.
Proof.
  cbv zeta. split; [right; left; reflexivity|].
  apply nan_duration_empties_the_histogram. right. left. reflexivity.
Defined.

End BinningEdgeFacts.

(** ** Numbers of either sign *)

Module SignedFacts.

Import JS Rounding RoundingFacts MonteCarloSimulator Contract.

(** *** Signed values *)

Lemma finiteNumber_Fin (d : number) : finiteNumber d -> Fin d.
Proof.
  intros [Hv Hf]. destruct d as [s|s| |s m e]; try discriminate Hf.
  - exact I.
  - exact Hv.
Qed.

Lemma W_cond_Zopp (s : bool) (a e : Z) :
  W (cond_Zopp s a) e = cond_Zopp s (W a e).
Proof. unfold W. destruct s; cbn [cond_Zopp]; lia. Qed.

Lemma Rnd_zero (s : bool) : Rnd (S754_zero s) 0.
Proof. unfold Rnd. cbn [Z.leb Z.compare]. cbn [Mag]. apply roundValue_0. Qed.

(** A number of the format is its own value rounded. *)
Lemma Rnd_self (x : number) : Fin x -> Rnd x (signedValue x).
Proof.
  destruct x as [s|s| |s m e]; cbn [Fin signedValue]; try tauto.
  - intros _. apply Rnd_zero.
  - intros Hb. destruct (bounded_range m e Hb) as (He & _).
    pose proof (W_pos (Z.pos m) e ltac:(lia) ltac:(unfold G; lia)) as HW.
    unfold Rnd. destruct s; cbn [cond_Zopp].
    + destruct (Z.leb_spec 0 (- W (Z.pos m) e)); [lia|].
      rewrite Z.opp_involutive, roundValue_bounded by exact Hb.
      cbn [Mag]. auto.
    + destruct (Z.leb_spec 0 (W (Z.pos m) e)); [|lia].
      rewrite roundValue_bounded by exact Hb. cbn [Mag]. auto.
Qed.

Lemma Rnd_opp (s : bool) (m : positive) (e : Z) (v : Z) :
  bounded prec emax m e = true ->
  v = cond_Zopp s (W (Z.pos m) e) ->
  Rnd (S754_finite s m e) v.
Proof. intros Hb ->. apply (Rnd_self (S754_finite s m e)). exact Hb. Qed.

(** [binary_normalize] rounds the signed integer it is given. *)
Lemma normalize_Rnd (z e : Z) (szero : bool) :
  G <= e -> Rnd (binary_normalize prec emax z e szero) (W z e).
Proof.
  intros He. pose proof (pow2_pos (e - G) ltac:(lia)) as HP.
  destruct z as [|p|p]; cbn [binary_normalize].
  - change (W 0 e) with 0. apply Rnd_zero.
  - unfold Rnd. destruct (Z.leb_spec 0 (W (Z.pos p) e)) as [_|H].
    + apply binary_round_spec, He.
    + unfold W in H. nia.
  - unfold Rnd. destruct (Z.leb_spec 0 (W (Z.neg p) e)) as [H|_].
    + unfold W in H. nia.
    + replace (- W (Z.neg p) e) with (W (Z.pos p) e) by (unfold W; lia).
      apply binary_round_spec, He.
Qed.

Lemma Rnd_not_nan (x : number) (v : Z) : Rnd x v -> is_nan x = false.
Proof.
  unfold Rnd. destruct (0 <=? v); apply Mag_not_nan.
Qed.

(** The sum of two numbers of the format is the sum of their values,
    rounded. *)
Lemma add_Rnd (x y : number) :
  Fin x -> Fin y -> Rnd (x + y)%js (signedValue x + signedValue y).
Proof.
  intros Hx Hy.
  destruct x as [sx|sx| |sx mx ex], y as [sy|sy| |sy my ey];
    try (exfalso; exact Hx); try (exfalso; exact Hy).
  - cbn [signedValue]. destruct sx, sy; apply Rnd_zero.
  - cbn [signedValue]. rewrite Z.add_0_l.
    apply (Rnd_self (S754_finite sy my ey)), Hy.
  - cbn [signedValue]. rewrite Z.add_0_r.
    apply (Rnd_self (S754_finite sx mx ex)), Hx.
  - cbn [Fin] in Hx, Hy.
    destruct (bounded_range mx ex Hx) as (Hex & _).
    destruct (bounded_range my ey Hy) as (Hey & _).
    unfold add, SFadd. cbn [signedValue].
    set (ez := Z.min ex ey).
    rewrite <- (W_aligned mx ex ez), <- (W_aligned my ey ez)
      by (unfold ez, G; lia).
    rewrite <- !W_cond_Zopp, <- W_add.
    apply normalize_Rnd. unfold ez, G. lia.
Qed.

(** The difference likewise. *)
Lemma sub_Rnd (x y : number) :
  Fin x -> Fin y -> Rnd (x - y)%js (signedValue x - signedValue y).
Proof.
  intros Hx Hy.
  destruct x as [sx|sx| |sx mx ex], y as [sy|sy| |sy my ey];
    try (exfalso; exact Hx); try (exfalso; exact Hy).
  - cbn [signedValue]. destruct sx, sy; apply Rnd_zero.
  - cbn [signedValue Fin] in *. unfold sub, SFsub.
    apply Rnd_opp; [exact Hy|]. destruct sy; cbn [negb cond_Zopp]; lia.
  - cbn [signedValue]. rewrite Z.sub_0_r.
    apply (Rnd_self (S754_finite sx mx ex)), Hx.
  - cbn [Fin] in Hx, Hy.
    destruct (bounded_range mx ex Hx) as (Hex & _).
    destruct (bounded_range my ey Hy) as (Hey & _).
    unfold sub, SFsub. cbn [signedValue].
    set (ez := Z.min ex ey).
    rewrite <- (W_aligned mx ex ez), <- (W_aligned my ey ez)
      by (unfold ez, G; lia).
    rewrite <- !W_cond_Zopp, <- W_sub.
    apply normalize_Rnd. unfold ez, G. lia.
Qed.

(** *** The order of signed numbers *)

Lemma sround_mono (v v' : Z) : v <= v' -> sround v <= sround v'.
Proof.
  intros H. unfold sround.
  destruct (Z.leb_spec 0 v), (Z.leb_spec 0 v'); try lia.
  - apply roundValue_mono. lia.
  - pose proof (roundValue_nonneg (- v) ltac:(lia)).
    pose proof (roundValue_nonneg v' ltac:(lia)). lia.
  - pose proof (roundValue_mono (- v') (- v) ltac:(lia)). lia.
Qed.

Lemma Mag_le_neg (x y : number) (wx wy : Z) :
  Mag true x wx -> Mag true y wy -> wy <= wx -> (x <=? y)%js = true.
Proof.
  intros Hx Hy Hle. pose proof OVF_pos as HO. unfold le, SFleb.
  destruct x as [sx|sx| |sx mx ex], y as [sy|sy| |sy my ey];
    try (exfalso; exact Hx); try (exfalso; exact Hy).
  - reflexivity.
  - exfalso. destruct Hy as [-> Hy]. cbn [Mag] in Hx. lia.
  - exfalso. pose proof Hy as [-> _]. apply Mag_finite_range in Hy.
    cbn [Mag] in Hx. lia.
  - destruct Hx as [-> _]. reflexivity.
  - destruct Hx as [-> _], Hy as [-> _]. reflexivity.
  - destruct Hx as [-> _], Hy as [-> _]. reflexivity.
  - destruct Hx as [-> _]. reflexivity.
  - exfalso. pose proof Hx as [-> _]. apply Mag_finite_range in Hx.
    destruct Hy as [_ Hy]. lia.
  - destruct Hx as (-> & Hbx & <-), Hy as (-> & Hby & <-).
    rewrite NumberFacts.compare_finite, (lex_W _ _ _ _ Hbx Hby).
    destruct (Z.compare_spec (W (Z.pos mx) ex) (W (Z.pos my) ey));
      try reflexivity. lia.
Qed.

Lemma neg_le_nonneg (x y : number) (wx wy : Z) :
  Mag true x wx -> Mag false y wy -> (x <=? y)%js = true.
Proof.
  intros Hx Hy. unfold le, SFleb.
  destruct x as [sx|sx| |sx mx ex], y as [sy|sy| |sy my ey];
    try (exfalso; exact Hx); try (exfalso; exact Hy);
    cbn [Mag] in Hx, Hy;
    repeat match goal with
           | H : _ /\ _ |- _ => destruct H as [? ?]
           end;
    subst; reflexivity.
Qed.

(** Numbers that round values in order are in order. *)
Lemma Rnd_le (x y : number) (v v' : Z) :
  Rnd x v -> Rnd y v' -> v <= v' -> (x <=? y)%js = true.
Proof.
  unfold Rnd. intros Hx Hy Hle.
  destruct (Z.leb_spec 0 v), (Z.leb_spec 0 v'); try lia.
  - apply (Mag_le _ _ _ _ Hx Hy). apply roundValue_mono. lia.
  - apply (neg_le_nonneg _ _ _ _ Hx Hy).
  - apply (Mag_le_neg _ _ _ _ Hx Hy). apply roundValue_mono. lia.
Qed.

(** Numbers of the format in order have values in order. *)
Lemma Fin_le_inv (x y : number) :
  Fin x -> Fin y -> (x <=? y)%js = true -> signedValue x <= signedValue y.
Proof.
  intros Hx Hy. unfold le, SFleb.
  destruct x as [sx|sx| |sx mx ex], y as [sy|sy| |sy my ey];
    try (exfalso; exact Hx); try (exfalso; exact Hy);
    cbn [Fin signedValue] in *.
  - lia.
  - destruct (bounded_range my ey Hy) as (He & _).
    pose proof (W_pos (Z.pos my) ey ltac:(lia) ltac:(unfold G; lia)).
    destruct sy; cbn [cond_Zopp]; intros Hc; [discriminate Hc|lia].
  - destruct (bounded_range mx ex Hx) as (He & _).
    pose proof (W_pos (Z.pos mx) ex ltac:(lia) ltac:(unfold G; lia)).
    destruct sx; cbn [cond_Zopp]; intros Hc; [lia|discriminate Hc].
  - destruct (bounded_range mx ex Hx) as (Hex & _).
    destruct (bounded_range my ey Hy) as (Hey & _).
    pose proof (W_pos (Z.pos mx) ex ltac:(lia) ltac:(unfold G; lia)).
    pose proof (W_pos (Z.pos my) ey ltac:(lia) ltac:(unfold G; lia)).
    rewrite NumberFacts.compare_finite, (lex_W _ _ _ _ Hx Hy).
    destruct sx, sy; cbn [cond_Zopp];
      destruct (Z.compare_spec (W (Z.pos mx) ex) (W (Z.pos my) ey));
      cbn [CompOpp]; intros Hc; try discriminate Hc; lia.
Qed.

Lemma le_Infinity (x : number) :
  is_nan x = false -> (x <=? Infinity)%js = true.
Proof.
  destruct x as [s|[|]| |[|] m e]; try discriminate; reflexivity.
Qed.

(** *** What a rounded value tells about the number *)

(** A finite number that rounds [v] is of the format and has the value
    [sround v]. *)
Lemma Rnd_finite (x : number) (v : Z) :
  Rnd x v -> is_finite x = true -> Fin x /\ signedValue x = sround v.
Proof.
  unfold Rnd, sround. intros Hx Fx.
  destruct x as [s|s| |s m e]; try discriminate Fx;
    destruct (0 <=? v); cbn [Mag Fin signedValue] in *.
  - split; [exact I|now symmetry].
  - split; [exact I|lia].
  - destruct Hx as (-> & Hb & <-). split; [exact Hb|reflexivity].
  - destruct Hx as (-> & Hb & <-). split; [exact Hb|reflexivity].
Qed.

(** Rounding a value that is not below the value of a number of the
    format never gives -Infinity. *)
Lemma Rnd_not_NegInfinity (x m : number) (v : Z) :
  Rnd x v -> Fin m -> signedValue m <= v -> x <> NegInfinity.
Proof.
  unfold Rnd. intros Hx Hm Hle ->.
  destruct (Z.leb_spec 0 v) as [H|H].
  - destruct Hx as [Hx _]. discriminate Hx.
  - destruct Hx as [_ Hx].
    destruct m as [s|s| |s mm e]; cbn [Fin signedValue] in *; try lia;
      try contradiction.
    destruct (bounded_range mm e Hm) as (He & _).
    pose proof (W_pos (Z.pos mm) e ltac:(lia) ltac:(unfold G; lia)).
    destruct s; cbn [cond_Zopp] in Hle; [|lia].
    pose proof (roundValue_mono (- v) (W (Z.pos mm) e) ltac:(lia)) as Hr.
    rewrite (roundValue_bounded mm e Hm) in Hr.
    pose proof (W_bounded_lt_OVF mm e Hm). lia.
Qed.

(** A finite number that is not negative is of the format, and its
    value is its magnitude. *)
Lemma Mag_Fin (x : number) (w : Z) :
  Mag false x w -> is_finite x = true ->
  Fin x /\ signedValue x = w /\ w < OVF.
Proof.
  intros Hx Fx. destruct x as [s|s| |s m e]; try discriminate Fx.
  - cbn [Mag] in Hx. subst w.
    split; [exact I|]. split; [reflexivity|]. exact OVF_pos.
  - destruct Hx as (-> & Hb & <-). cbn [Fin signedValue cond_Zopp].
    split; [exact Hb|]. split; [reflexivity|].
    apply W_bounded_lt_OVF, Hb.
Qed.

(** A number that is not finite and not negative is Infinity. *)
Lemma Mag_not_finite (x : number) (w : Z) :
  Mag false x w -> is_finite x = false -> x = Infinity.
Proof.
  destruct x as [s|s| |s m e]; cbn [Mag is_finite]; try discriminate.
  - intros [-> _] _. reflexivity.
  - tauto.
Qed.

Lemma add_Infinity_r (x : number) : Fin x -> (x + Infinity)%js = Infinity.
Proof. destruct x as [s|s| |s m e]; cbn [Fin]; try tauto; reflexivity. Qed.

Lemma add_Infinity_l (y : number) : Fin y -> (Infinity + y)%js = Infinity.
Proof. destruct y as [s|s| |s m e]; cbn [Fin]; try tauto; reflexivity. Qed.

(** *** Finite durations *)

Lemma finiteNumber_not_nan (d : number) : finiteNumber d -> is_nan d = false.
Proof. intros [_ Hf]. destruct d; try discriminate Hf; reflexivity. Qed.

Lemma finite_not_nan (ds : list number) :
  Forall finiteNumber ds -> Forall (fun d => is_nan d = false) ds.
Proof. apply Forall_impl, finiteNumber_not_nan. Qed.

(** A number of the format that is not negative is its own rounding,
    below the overflow. *)
Lemma Fin_nonneg (x : number) :
  Fin x -> 0 <= signedValue x ->
  roundValue (signedValue x) = signedValue x /\ signedValue x < OVF.
Proof.
  destruct x as [s|s| |s m e]; cbn [Fin signedValue]; try tauto.
  - intros _ _. split; [apply roundValue_0|apply OVF_pos].
  - intros Hb Hv. destruct (bounded_range m e Hb) as (He & _).
    pose proof (W_pos (Z.pos m) e ltac:(lia) ltac:(unfold G; lia)).
    destruct s; cbn [cond_Zopp] in *; [lia|].
    split; [now apply roundValue_bounded|now apply W_bounded_lt_OVF].
Qed.

(** The minimum and the maximum of finite durations are of the format,
    in this order, and their difference is the difference of their
    values, rounded. *)
Lemma finite_range (ds : list number) :
  ds <> [] -> Forall finiteNumber ds ->
  Fin (Math_min ds) /\ Fin (Math_max ds) /\
  signedValue (Math_min ds) <= signedValue (Math_max ds) /\
  Mag false (Math_max ds - Math_min ds)%js
    (roundValue (signedValue (Math_max ds) - signedValue (Math_min ds))).
Proof.
  intros Hne Hds.
  destruct (HistogramFacts.Math_min_max_spec ds Hne (finite_not_nan _ Hds))
    as (Imin & Imax & Hle).
  rewrite Forall_forall in Hds.
  pose proof (finiteNumber_Fin _ (Hds _ Imin)) as Bmin.
  pose proof (finiteNumber_Fin _ (Hds _ Imax)) as Bmax.
  pose proof (Fin_le_inv _ _ Bmin Bmax Hle) as Hv.
  split; [exact Bmin|]. split; [exact Bmax|]. split; [exact Hv|].
  pose proof (sub_Rnd _ _ Bmax Bmin) as Rr. unfold Rnd in Rr.
  destruct (Z.leb_spec 0 (signedValue (Math_max ds)
                          - signedValue (Math_min ds))) as [_|H]; [|lia].
  exact Rr.
Qed.

(** With a finite range the bin size is a finite number that is not
    negative. *)
Lemma finite_binSize (ds : list number) :
  ds <> [] -> Forall finiteNumber ds ->
  is_finite (Math_max ds - Math_min ds)%js = true ->
  exists wb,
    Mag false ((Math_max ds - Math_min ds) / numBins)%js wb /\
    is_finite ((Math_max ds - Math_min ds) / numBins)%js = true.
Proof.
  intros Hne Hds Fr.
  destruct (finite_range ds Hne Hds) as (_ & _ & _ & Hr).
  change numBins with (#10)%js.
  exact (div_by_ten _ _ Hr Fr).
Qed.

(** Durations that are finite and not negative are finite durations
    with a finite range. *)
Lemma nonnegFinite_range (ds : list number) :
  ds <> [] -> Forall nonnegFinite ds ->
  Forall finiteNumber ds /\
  is_finite (Math_max ds - Math_min ds)%js = true.
Proof.
  intros Hne Hds.
  assert (Hf : Forall finiteNumber ds).
  { eapply Forall_impl; [|exact Hds]. intros d (Hv & Hf & _). now split. }
  split; [exact Hf|].
  destruct (finite_range ds Hne Hf) as (Bmin & Bmax & Hv & Hr).
  destruct (HistogramFacts.Math_min_max_spec ds Hne (finite_not_nan _ Hf))
    as (Imin & _ & _).
  rewrite Forall_forall in Hds. destruct (Hds _ Imin) as (_ & _ & Hge).
  assert (H0 : 0 <= signedValue (Math_min ds)).
  { change 0 with (signedValue (#0)%js).
    apply Fin_le_inv; [exact I|exact Bmin|exact Hge]. }
  destruct (Fin_nonneg _ Bmax ltac:(lia)) as [Er Ho].
  apply (Mag_lt_OVF_finite _ _ _ Hr).
  apply Z.le_lt_trans with (roundValue (signedValue (Math_max ds))).
  - apply roundValue_mono. lia.
  - lia.
Qed.

End SignedFacts.

(** ** The index of a sample and of the maximum *)

Module ClampFacts.

Import JS Rounding RoundingFacts MonteCarloSimulator Contract TinyRanges.
Import SignedFacts.

Lemma units_checked :
  forallb unitChecked (map Pos.of_nat (seq 1 89)) = true.
Proof. vm_compute. reflexivity. Qed.

Lemma unit_checked (k : positive) : (k < 90)%positive -> unitChecked k = true.
Proof.
  intros Hk. pose proof units_checked as H. rewrite forallb_forall in H.
  apply H. rewrite <- (Pos2Nat.id k). apply in_map, in_seq. lia.
Qed.

Lemma exceptional_spec (k : positive) :
  exceptional k = true <-> In (unit k) exceptionalRanges.
Proof.
  unfold exceptional, exceptionalRanges. rewrite existsb_exists, in_map_iff.
  split.
  - intros (x & Hin & E). apply Pos.eqb_eq in E. subst x.
    exists k. split; [reflexivity|exact Hin].
  - intros (x & E & Hin). injection E as ->.
    exists k. split; [exact Hin|apply Pos.eqb_refl].
Qed.

(** A positive range is at least 90 units, or a number of units below
    90. *)
Lemma range_cases (x : number) (w : Z) :
  Mag false x w -> 0 < w < OVF ->
  (tinyRange <=? x)%js = true \/
  exists k, (k < 90)%positive /\ x = unit k.
Proof.
  intros Hx Hw.
  destruct (Z_lt_ge_dec w (90 * 2 ^ 1074)) as [Hlt|Hge].
  - right.
    destruct (Mag_finite_pos _ _ Hx Hw) as (m & e & -> & Hb & HW).
    destruct (bounded_range _ _ Hb) as (He & Hm & Hc).
    assert (Ee : e = -1074).
    { destruct Hc as [Hc|Hc]; [exact Hc|exfalso].
      unfold W, G in HW.
      assert (2 ^ 1074 <= 2 ^ (e - -2148))
        by (apply Z.pow_le_mono_r; lia).
      pose proof (pow2_pos 1074).
      assert (2 ^ 52 = 4503599627370496) by reflexivity. nia. }
    subst e. exists m. split; [|reflexivity].
    unfold W, G in HW. change (-1074 - -2148) with 1074 in HW.
    pose proof (pow2_pos 1074). nia.
  - left. apply (Mag_le _ _ _ _ tinyRange_Mag Hx). lia.
Qed.

(** The clamp on a floor of at least 9. *)
Lemma clamp_nine (x : number) :
  (x >=? #9)%js = true -> Math_min [x; #9]%js = (#9)%js.
Proof.
  intros Hx. unfold Math_min. cbn [fold_left].
  rewrite HistogramFacts.min_step_Infinity.
  unfold min_step.
  destruct (is_nan x) eqn:En; [destruct x; discriminate|].
  change (is_nan #9)%js with false. cbv iota.
  destruct (#9 <? x)%js eqn:E9.
  - destruct x as [[|]|[|]| |[|] m e]; reflexivity.
  - unfold ge, SFleb in Hx. unfold lt, SFltb in E9.
    destruct (SFcompare (#9)%js x) as [[| |]|] eqn:Ec; try discriminate.
    apply HistogramFacts.compare_eq_finite in Ec. subst x. reflexivity.
Qed.

(** The index of the maximum for a range below 90 units. *)
Lemma unit_range_index (k : positive) :
  (k < 90)%positive ->
  (array_index
     (Math_min [Math_floor (unit k / (unit k / numBins)); #9]%js)
   = Some 9%nat <->
   ~ In (unit k) exceptionalRanges) /\
  (~ In (unit k) exceptionalRanges ->
   (Math_floor (unit k / (unit k / numBins)) >=? #9)%js = true).
Proof.
  intros Hk. pose proof (unit_checked k Hk) as Hc.
  unfold unitChecked in Hc. cbv zeta in Hc. rewrite <- exceptional_spec.
  destruct (exceptional k).
  - split.
    + split; [intros E9|intros N; now contradiction N].
      rewrite E9 in Hc. discriminate Hc.
    + intros N. now contradiction N.
  - split; [|intros _; exact Hc].
    split; [intros _; discriminate|intros _].
    rewrite (clamp_nine _ Hc). apply HistogramFacts.array_index_nine.
Qed.

(** A range of at least 90 units is not exceptional. *)
Lemma tinyRange_not_exceptional (x : number) :
  (tinyRange <=? x)%js = true -> ~ In x exceptionalRanges.
Proof.
  intros Htiny Hin. unfold exceptionalRanges in Hin.
  apply in_map_iff in Hin. destruct Hin as (k & <- & Hin).
  cbn [exceptionalMultiples In] in Hin.
  repeat (destruct Hin as [<-|Hin]; [discriminate Htiny|]).
  exact Hin.
Qed.

(** For a range of at least 90 units the quotient of the maximum is at
    least 9. *)
Lemma tiny_quotient (x : number) (w : Z) :
  Mag false x w -> is_finite x = true -> (tinyRange <=? x)%js = true ->
  (Math_floor (x / (x / numBins)) >=? #9)%js = true.
Proof.
  intros Hx Fx Htiny.
  pose proof (Mag_le_inv _ _ _ _ tinyRange_Mag Hx eq_refl Fx Htiny) as Ht.
  assert (Hpos : 0 < 90 * 2 ^ 1074) by (pose proof (pow2_pos 1074); lia).
  destruct (Mag_Fin _ _ Hx Fx) as (_ & _ & Ho).
  destruct (Mag_finite_pos _ _ Hx ltac:(lia)) as (mr & er & -> & Hbr & HWr).
  change numBins with (#10)%js.
  destruct (binSize_bounds mr er Hbr ltac:(lia)) as (wb & Hb & Hb9 & Hb16).
  assert (Hwb : 0 < wb < OVF).
  { pose proof (W_bounded_lt_OVF mr er Hbr). lia. }
  destruct (Mag_finite_pos _ _ Hb Hwb) as (mb & eb & Eb & Hbb & HWb).
  rewrite Eb.
  destruct (quotient_ge_9 mr er mb eb Hbr Hbb ltac:(lia) ltac:(lia))
    as (w' & HQ & H9).
  apply (floor_ge_9 _ _ HQ H9).
Qed.

(** With a finite positive range the maximum has index 9 unless the
    range is one of the eight exceptional ones. *)
Lemma maximum_index (ds : list number) :
  ds <> [] -> Forall finiteNumber ds ->
  is_finite (Math_max ds - Math_min ds)%js = true ->
  (#0 <? Math_max ds - Math_min ds)%js = true ->
  (array_index
     (Math_min [Math_floor ((Math_max ds - Math_min ds)
                            / ((Math_max ds - Math_min ds) / numBins));
                #9]%js)
   = Some 9%nat <->
   ~ In (Math_max ds - Math_min ds)%js exceptionalRanges) /\
  (~ In (Math_max ds - Math_min ds)%js exceptionalRanges ->
   (Math_floor ((Math_max ds - Math_min ds)
                / ((Math_max ds - Math_min ds) / numBins)) >=? #9)%js
   = true).
Proof.
  intros Hne Hds Fr Hpos.
  destruct (finite_range ds Hne Hds) as (_ & _ & _ & Hr).
  destruct (Mag_Fin _ _ Hr Fr) as (_ & _ & Hw).
  pose proof (Mag_lt _ _ _ _ zero_Mag Hr Hpos) as Hw0.
  destruct (range_cases _ _ Hr (conj Hw0 Hw)) as [Htiny|(k & Hk & Ek)].
  - (* at least 90 units *)
    pose proof (tinyRange_not_exceptional _ Htiny) as Hnot.
    pose proof (tiny_quotient _ _ Hr Fr Htiny) as H9.
    split.
    + split; [intros _; exact Hnot|intros _].
      rewrite (clamp_nine _ H9). apply HistogramFacts.array_index_nine.
    + intros _. exact H9.
  - (* fewer than 90 units *)
    rewrite Ek. exact (unit_range_index k Hk).
Qed.

(** A sample whose distance from the minimum is a number that is not
    negative has an index from 0 to 9. *)
Lemma index_of_distance (mn d : number) (w : Z) (mb : positive) (eb : Z) :
  Mag false (d - mn)%js w ->
  bounded prec emax mb eb = true ->
  exists k, (k <= 9)%nat /\
    array_index (binIndex mn (S754_finite false mb eb) d) = Some k.
Proof.
  intros Hx Hb.
  assert (HQ : exists wq,
             Mag false (binQuotient mn (S754_finite false mb eb) d) wq).
  { unfold binQuotient.
    destruct (is_finite (d - mn)%js) eqn:Fx.
    - exact (div_nonneg_Mag _ _ mb eb Hx Fx Hb).
    - rewrite (Mag_not_finite _ _ Hx Fx). exists OVF.
      split; [reflexivity|lia]. }
  destruct HQ as [wq HQ].
  destruct (floor_Mag _ _ HQ) as [wf HF].
  set (b := S754_finite false mb eb) in *.
  destruct (Math_floor (binQuotient mn b d) >=? #9)%js eqn:E.
  - exists 9%nat. split; [lia|].
    rewrite (HistogramFacts.binIndex_clamped _ _ _ E).
    apply HistogramFacts.array_index_nine.
  - assert (Hlt : (Math_floor (binQuotient mn b d) <? #9)%js = true).
    { apply le_false_lt; [exact (Mag_not_nan _ _ _ HF)|reflexivity|exact E]. }
    rewrite (HistogramFacts.binIndex_unclamped _ _ _ Hlt).
    destruct (floor_below_nine _ _ HQ Hlt) as (k & Hk & Ek).
    exists k. split; [lia|exact Ek].
Qed.

(** With finite durations and a positive bin size every sample has an
    index from 0 to 9. *)
Lemma finite_sample_index (ds : list number) :
  ds <> [] -> Forall finiteNumber ds ->
  is_finite (Math_max ds - Math_min ds)%js = true ->
  (#0 <? (Math_max ds - Math_min ds) / numBins)%js = true ->
  forall s, In s ds ->
    exists k, (k <= 9)%nat /\
      array_index
        (binIndex (Math_min ds) ((Math_max ds - Math_min ds) / numBins)%js s)
      = Some k.
Proof.
  intros Hne Hds Fr Hpos s Hs.
  destruct (finite_range ds Hne Hds) as (Bmin & _ & _ & _).
  destruct (finite_binSize ds Hne Hds Fr) as (wb & Hb & Fb).
  pose proof (HistogramFacts.Math_min_lower ds (finite_not_nan _ Hds) s Hs)
    as Hlow.
  rewrite Forall_forall in Hds.
  pose proof (finiteNumber_Fin _ (Hds _ Hs)) as Bs.
  pose proof (Fin_le_inv _ _ Bmin Bs Hlow) as Hv.
  pose proof (sub_Rnd _ _ Bs Bmin) as Rx. unfold Rnd in Rx.
  destruct (Z.leb_spec 0 (signedValue s - signedValue (Math_min ds)))
    as [_|H]; [|lia].
  destruct ((Math_max ds - Math_min ds) / numBins)%js
    as [sb|sb| |sb mb eb] eqn:Eb; try discriminate Fb.
  - discriminate Hpos.
  - destruct Hb as (-> & Hbb & _).
    exact (index_of_distance _ _ _ mb eb Rx Hbb).
Qed.

(** C5.  The ten counts are the numbers of samples whose index
    min(floor((s - minD) / binSize), 9) names the bin.  For finite
    durations with a finite range (as durations that are not negative
    have): the minimum and the maximum are samples and bound every
    sample; every sample has an index from 0 to 9 when the bin size is
    positive; and, when the durations are not all equal, the maximum
    has index 9 exactly when the range is not one of eight multiples of
    2^-1074; outside these eight its quotient is at least 9, so that
    the clamp decides. *)
Theorem samples_binned_by_clamped_floor (r : SimulationResult) :
  let ds := durations r in
  let minD := Math_min ds in
  let maxD := Math_max ds in
  let binSize := ((maxD - minD) / numBins)%js in
  let index s := Math_min [Math_floor ((s - minD) / binSize); #9]%js in
  let counts := map count (getHistogramData (Some r)) in
  List.length counts = 10%nat /\
  (forall k, (k < 10)%nat ->
     nth k counts O =
     List.length
       (filter (fun s => match array_index (index s) with
                         | Some j => Nat.eqb j k
                         | None => false
                         end) ds)) /\
  (ds <> [] -> Forall finiteNumber ds -> is_finite (maxD - minD)%js = true ->
   In minD ds /\ In maxD ds /\
   (forall s, In s ds ->
      (minD <=? s)%js = true /\ (s <=? maxD)%js = true) /\
   ((#0 <? binSize)%js = true ->
    forall s, In s ds ->
      exists k, (k <= 9)%nat /\ array_index (index s) = Some k) /\
   ((#0 <? maxD - minD)%js = true ->
    (array_index (index maxD) = Some 9%nat <->
     ~ In (maxD - minD)%js exceptionalRanges) /\
    (~ In (maxD - minD)%js exceptionalRanges ->
     (Math_floor ((maxD - minD) / binSize) >=? #9)%js = true))) /\
  (ds <> [] -> Forall nonnegFinite ds ->
   Forall finiteNumber ds /\ is_finite (maxD - minD)%js = true).
Proof.
  intros ds minD maxD binSize index counts.
  assert (Ei : forall s, index s = binIndex minD binSize s).
  { intros s. unfold index, binIndex. now rewrite HistogramFacts.nine. }
  split; [unfold counts; rewrite length_map;
          apply HistogramFacts.getHistogramData_length|].
  split.
  { intros k Hk. unfold counts.
    rewrite HistogramFacts.getHistogramData_counts.
    fold ds minD maxD binSize.
    rewrite HistogramFacts.fillBins_nth by exact Hk.
    unfold samplesInBin. reflexivity. }
  split; [|apply nonnegFinite_range].
  intros Hne Hds Fr.
  pose proof (finite_not_nan _ Hds) as Hnan.
  destruct (HistogramFacts.Math_min_max_spec ds Hne Hnan)
    as (Imin & Imax & _).
  split; [exact Imin|]. split; [exact Imax|].
  split.
  { intros s Hs. split.
    - apply HistogramFacts.Math_min_lower; assumption.
    - apply BarFacts.Math_max_upper; assumption. }
  split.
  { intros Hb s Hs. rewrite Ei.
    exact (finite_sample_index ds Hne Hds Fr Hb s Hs). }
  intros Hpos. exact (maximum_index ds Hne Hds Fr Hpos).
Qed.

(** The premises of C5 hold on the spread sample, whose maximum 10 has
    quotient 10 and index 9, and on durations of both signs. *)
Lemma samples_binned_by_clamped_floor_witness :
  let r := Samples.spread in
  let ds := durations r in
  let minD := Math_min ds in
  let maxD := Math_max ds in
  let binSize := ((maxD - minD) / numBins)%js in
  let index s := Math_min [Math_floor ((s - minD) / binSize); #9]%js in
  ds <> [] /\ Forall finiteNumber ds /\
  is_finite (maxD - minD)%js = true /\
  (#0 <? binSize)%js = true /\ (#0 <? maxD - minD)%js = true /\
  ~ In (maxD - minD)%js exceptionalRanges /\
  array_index (index maxD) = Some 9%nat /\
  (forall s, In s ds ->
     exists k, (k <= 9)%nat /\ array_index (index s) = Some k).
Proof.
  cbv zeta.
  assert (N : ~ In (Math_max (durations Samples.spread)
                    - Math_min (durations Samples.spread))%js
                exceptionalRanges).
  { vm_compute. intros H.
    repeat (destruct H as [H|H]; [discriminate H|]). exact H. }
  assert (F : Forall finiteNumber (durations Samples.spread))
    by (repeat constructor).
  destruct (samples_binned_by_clamped_floor Samples.spread)
    as (_ & _ & H & _).
  destruct (H HistogramFacts.spread_not_empty F eq_refl)
    as (_ & _ & _ & Hall & Hmax).
  destruct (Hmax eq_refl) as [[_ H9] _].
  split; [exact HistogramFacts.spread_not_empty|].
  split; [exact F|]. split; [reflexivity|].
  split; [reflexivity|]. split; [reflexivity|].
  split; [exact N|]. split; [exact (H9 N)|exact (Hall eq_refl)].
Defined.

(** With the durations -3, 2 and 7 the range is 10 and the samples have
    the indices 0, 5 and 9. *)
Example signed_durations_binned :
  let r := {| durations := [#(-3); #2; #7]%js; successCount := (#2)%js;
              totalTrials := (#3)%js; probability := (#2 / #3)%js;
              threshold := (#5)%js |} in
  map count (getHistogramData (Some r)) = [1; 0; 0; 0; 0; 1; 0; 0; 0; 1]%nat.
Proof. vm_compute. reflexivity. Qed.

(** A maximum outside the last bin: with the durations 0 and
    6 * 2^-1074 the bin size rounds to 2^-1074, the quotient of the
    maximum is 6, and the maximum is counted in bin 6. *)
Lemma tiny_range_maximum_in_bin_six :
  let r := {| durations := [#0; S754_finite false 6 (-1074)]%js;
              successCount := (#2)%js; totalTrials := (#2)%js;
              probability := (#1)%js; threshold := (#8)%js |} in
  let minD := Math_min (durations r) in
  let maxD := Math_max (durations r) in
  let binSize := ((maxD - minD) / numBins)%js in
  durations r <> [] /\
  maxD = S754_finite false 6 (-1074) /\
  binSize = S754_finite false 1 (-1074) /\
  binIndex minD binSize maxD = (#6)%js /\
  map count (getHistogramData (Some r)) = [1; 0; 0; 0; 0; 0; 1; 0; 0; 0]%nat /\
  ~ maximumInLastBin r /\
  ~ (forall r, durations r <> [] -> maximumInLastBin r).
Proof.
  cbv zeta.
  assert (N : ~ maximumInLastBin
                  {| durations := [#0; S754_finite false 6 (-1074)]%js;
                     successCount := (#2)%js; totalTrials := (#2)%js;
                     probability := (#1)%js; threshold := (#8)%js |}).
  { unfold maximumInLastBin. vm_compute. discriminate. }
  split; [discriminate|].
  split; [vm_compute; reflexivity|].
  split; [vm_compute; reflexivity|].
  split; [vm_compute; reflexivity|].
  split; [vm_compute; reflexivity|].
  split; [exact N|].
  intros H. apply N, H. discriminate.
Qed.

End ClampFacts.

(** ** The order of the bin ends *)

Module FlagFacts.

Import JS Rounding RoundingFacts MonteCarloSimulator Contract SignedFacts.

(** *** The end of a bin as a function of the offset of its start *)

Section BinEnd.

Variables mn b : number.
Variable wb : Z.
Hypothesis Hmn : Fin mn.
Hypothesis Hb : Mag false b wb.
Hypothesis Fb : is_finite b = true.

Lemma offset_not_nan (t : number) (wt : Z) :
  Mag false t wt -> is_nan (mn + t + b)%js = false.
Proof.
  intros Ht. destruct (Mag_Fin _ _ Hb Fb) as (Bb & _ & _).
  assert (Hs : is_nan (mn + t)%js = false).
  { destruct (is_finite t) eqn:Ft.
    - destruct (Mag_Fin _ _ Ht Ft) as (Bt & _ & _).
      apply (Rnd_not_nan _ _ (add_Rnd _ _ Hmn Bt)).
    - rewrite (Mag_not_finite _ _ Ht Ft), add_Infinity_r by exact Hmn.
      reflexivity. }
  destruct (is_finite (mn + t)%js) eqn:Fs.
  - assert (Bs : Fin (mn + t)%js).
    { destruct (is_finite t) eqn:Ft.
      - destruct (Mag_Fin _ _ Ht Ft) as (Bt & _ & _).
        apply (Rnd_finite _ _ (add_Rnd _ _ Hmn Bt) Fs).
      - rewrite (Mag_not_finite _ _ Ht Ft), add_Infinity_r in Fs
          by exact Hmn. discriminate Fs. }
    apply (Rnd_not_nan _ _ (add_Rnd _ _ Bs Bb)).
  - destruct (mn + t)%js as [s|s| |s m e]; try discriminate.
    destruct b as [sb|sb| |sb mb eb]; try discriminate Fb; reflexivity.
Qed.

(** A larger offset gives an end that is not smaller. *)
Lemma offset_mono (t t' : number) (wt wt' : Z) :
  Mag false t wt -> Mag false t' wt' -> wt <= wt' ->
  (mn + t + b <=? mn + t' + b)%js = true.
Proof.
  intros Ht Ht' Hle.
  destruct (Mag_Fin _ _ Hb Fb) as (Bb & Eb & _).
  pose proof (offset_not_nan t wt Ht) as Hn.
  destruct (is_finite t') eqn:Ft'.
  2:{ rewrite (Mag_not_finite _ _ Ht' Ft'), add_Infinity_r by exact Hmn.
      rewrite add_Infinity_l by exact Bb. now apply le_Infinity. }
  destruct (Mag_Fin _ _ Ht' Ft') as (Bt' & Et' & Ot').
  assert (Ft : is_finite t = true)
    by (apply (Mag_lt_OVF_finite _ _ _ Ht); lia).
  destruct (Mag_Fin _ _ Ht Ft) as (Bt & Et & _).
  pose proof (add_Rnd _ _ Hmn Bt) as Rs.
  pose proof (add_Rnd _ _ Hmn Bt') as Rs'.
  rewrite Et in Rs. rewrite Et' in Rs'.
  pose proof (Mag_nonneg _ _ _ Ht) as Pt.
  assert (Ns' : (mn + t')%js <> NegInfinity)
    by (apply (Rnd_not_NegInfinity _ mn _ Rs' Hmn); lia).
  assert (Ns : (mn + t)%js <> NegInfinity)
    by (apply (Rnd_not_NegInfinity _ mn _ Rs Hmn); lia).
  destruct (is_finite (mn + t')%js) eqn:Fs'.
  2:{ assert (E : (mn + t')%js = Infinity).
      { pose proof (Rnd_not_nan _ _ Rs') as N.
        destruct (mn + t')%js as [s|[|]| |s m e]; try discriminate;
          [now contradiction Ns'|reflexivity]. }
      rewrite E, add_Infinity_l by exact Bb. now apply le_Infinity. }
  assert (Fs : is_finite (mn + t)%js = true).
  { pose proof (Rnd_not_nan _ _ Rs) as N.
    destruct (mn + t)%js as [s|[|]| |s m e] eqn:E; try discriminate;
      try reflexivity; [now contradiction Ns|exfalso].
    unfold Rnd in Rs, Rs'.
    destruct (Z.leb_spec 0 (signedValue mn + wt)) as [P|P].
    - destruct Rs as [_ Rs].
      destruct (Z.leb_spec 0 (signedValue mn + wt')) as [P'|P']; [|lia].
      destruct (Mag_Fin _ _ Rs' Fs') as (_ & _ & O).
      pose proof (roundValue_mono (signedValue mn + wt)
                    (signedValue mn + wt') ltac:(lia)). lia.
    - destruct Rs as [Rs _]. discriminate Rs. }
  destruct (Rnd_finite _ _ Rs Fs) as [Bs Es].
  destruct (Rnd_finite _ _ Rs' Fs') as [Bs' Es'].
  apply (Rnd_le _ _ _ _ (add_Rnd _ _ Bs Bb) (add_Rnd _ _ Bs' Bb)).
  rewrite Es, Es'.
  pose proof (sround_mono (signedValue mn + wt) (signedValue mn + wt')
                ltac:(lia)). lia.
Qed.

(** The ends of the bins are in the order of the bins. *)
Lemma binEnd_mono (i j : nat) :
  (i <= j < 10)%nat ->
  (binEndOf mn b i <=? binEndOf mn b j)%js = true.
Proof.
  intros Hij. unfold binEndOf, binStartOf.
  destruct (of_nat_Mag i ltac:(lia)) as [Hi Fi].
  destruct (of_nat_Mag j ltac:(lia)) as [Hj Fj].
  apply (offset_mono _ _ _ _ (mul_spec _ _ _ _ Hi Hb Fi Fb)
           (mul_spec _ _ _ _ Hj Hb Fj Fb)).
  apply roundValue_mono. split.
  - apply mulValue_nonneg; [|exact (Mag_nonneg _ _ _ Hb)].
    exact (Mag_nonneg _ _ _ Hi).
  - apply mulValue_mono; [|exact (Mag_nonneg _ _ _ Hb)].
    split; [exact (Mag_nonneg _ _ _ Hi)|].
    apply W_mono; [unfold G; lia|lia].
Qed.

End BinEnd.

(** *** The histogram of finite durations *)

(** C10.  For a non-empty sequence of finite durations whose range
    maxD - minD is finite, the end points of the bins are
    non-decreasing in the bin index, so the isSuccess flags form a
    prefix: once a bin is marked failing, every later bin is marked
    failing too. *)
Theorem failing_bins_form_a_suffix (r : SimulationResult) (i j : nat) :
  let minD := Math_min (durations r) in
  let maxD := Math_max (durations r) in
  let binSize := ((maxD - minD) / numBins)%js in
  let flags := map isSuccess (getHistogramData (Some r)) in
  durations r <> [] ->
  Forall finiteNumber (durations r) ->
  is_finite (maxD - minD)%js = true ->
  (i < j < 10)%nat ->
  (binEndOf minD binSize i <=? binEndOf minD binSize j)%js = true /\
  (nth i flags true = false -> nth j flags true = false).
Proof.
  cbv zeta. intros Hne Hds Fr Hij.
  pose proof (HistogramFacts.flags_nth r i ltac:(lia)) as Ei.
  pose proof (HistogramFacts.flags_nth r j ltac:(lia)) as Ej.
  cbv zeta in Ei, Ej. rewrite Ei, Ej. clear Ei Ej.
  destruct (finite_range _ Hne Hds) as (Bmin & _ & _ & _).
  destruct (finite_binSize _ Hne Hds Fr) as (wb & Hb & Fb).
  pose proof (binEnd_mono _ _ wb Bmin Hb Fb i j ltac:(lia)) as Hle.
  split; [exact Hle|].
  intros Hfi.
  destruct (binEndOf (Math_min (durations r))
              ((Math_max (durations r) - Math_min (durations r)) / numBins)
              j <=? threshold r)%js eqn:Ej; [|reflexivity].
  rewrite (NumberFacts.le_trans _ _ _ Hle Ej) in Hfi. discriminate Hfi.
Qed.

(** The hypotheses hold for durations of both signs: with -3, 2 and 7
    and the threshold 5 the bins up to the one that ends at 5 succeed
    and the later ones fail. *)
Lemma failing_bins_form_a_suffix_witness :
  let r := {| durations := [#(-3); #2; #7]%js; successCount := (#2)%js;
              totalTrials := (#3)%js; probability := (#2 / #3)%js;
              threshold := (#5)%js |} in
  let minD := Math_min (durations r) in
  let maxD := Math_max (durations r) in
  let binSize := ((maxD - minD) / numBins)%js in
  let flags := map isSuccess (getHistogramData (Some r)) in
  durations r <> [] /\
  Forall finiteNumber (durations r) /\
  is_finite (maxD - minD)%js = true /\
  (7 < 8 < 10)%nat /\
  flags = [true; true; true; true; true; true; true; true; false; false] /\
  (binEndOf minD binSize 7 <=? binEndOf minD binSize 8)%js = true /\
  (nth 7 flags true = false -> nth 8 flags true = false).
Proof.
  cbv zeta.
  set (r := {| durations := [#(-3); #2; #7]%js; successCount := (#2)%js;
               totalTrials := (#3)%js; probability := (#2 / #3)%js;
               threshold := (#5)%js |}).
  assert (Hne : durations r <> []) by discriminate.
  assert (Hds : Forall finiteNumber (durations r))
    by (repeat constructor).
  assert (Fr : is_finite (Math_max (durations r) - Math_min (durations r))%js
               = true) by (vm_compute; reflexivity).
  assert (Hij : (7 < 8 < 10)%nat) by lia.
  split; [exact Hne|]. split; [exact Hds|]. split; [exact Fr|].
  split; [exact Hij|]. split; [vm_compute; reflexivity|].
  exact (failing_bins_form_a_suffix r 7 8 Hne Hds Fr Hij).
Defined.

(** *** An infinite duration *)

(** With the durations 1 and Infinity the bin size is Infinity.  The
    first bin starts at 1 + 0 * Infinity, which is NaN, and so ends at
    NaN; every later bin starts and ends at Infinity.  Against the
    threshold Infinity the first bin fails and the nine after it
    succeed. *)
Lemma infinite_duration_breaks_the_prefix :
  let r := {| durations := [#1; Infinity]%js; successCount := (#2)%js;
              totalTrials := (#2)%js; probability := (#1)%js;
              threshold := Infinity |} in
  durations r <> [] /\
  map range (getHistogramData (Some r))
  = (NaN, NaN) :: repeat (Infinity, Infinity) 9 /\
  map isSuccess (getHistogramData (Some r))
  = [false; true; true; true; true; true; true; true; true; true] /\
  ~ flagsFormPrefix r /\
  ~ (forall r, durations r <> [] -> flagsFormPrefix r).
Proof.
  cbv zeta.
  assert (N : ~ flagsFormPrefix
                  {| durations := [#1; Infinity]%js; successCount := (#2)%js;
                     totalTrials := (#2)%js; probability := (#1)%js;
                     threshold := Infinity |}).
  { intros H. specialize (H 0%nat 1%nat ltac:(lia)).
    vm_compute in H. specialize (H eq_refl). discriminate H. }
  split; [discriminate|].
  split; [vm_compute; reflexivity|].
  split; [vm_compute; reflexivity|].
  split; [exact N|].
  intros H. apply N, H. discriminate.
Qed.

(** Finite durations of opposite signs can have an infinite range: with
    the largest finite number and its opposite the first bin again ends
    at NaN and fails while the later ones succeed. *)
Example overflowing_range_breaks_the_prefix :
  let big := S754_finite false 9007199254740991 971 in
  let r := {| durations := [S754_finite true 9007199254740991 971; big];
              successCount := (#2)%js; totalTrials := (#2)%js;
              probability := (#1)%js; threshold := Infinity |} in
  Forall finiteNumber (durations r) /\
  (Math_max (durations r) - Math_min (durations r))%js = Infinity /\
  map isSuccess (getHistogramData (Some r))
  = [false; true; true; true; true; true; true; true; true; true].
Proof.
  cbv zeta. split; [repeat constructor|].
  split; vm_compute; reflexivity.
Qed.

End FlagFacts.

(** ** The sum of the percentages *)

Module SumFacts.

Import JS Rounding RoundingFacts MonteCarloSimulator Contract.
Import QuotientFacts.

(** *** The error of one rounding *)


(** *** The quotient of a count by the total *)



(** *** The percentage of a count *)



(** *** The sum over the bins *)



(** *** The exact values *)








End SumFacts.
